(** * Field-Aided RRT*: a shallow embedding of the planner core

    The development follows [src/farrt]: the tree store and the RRT* build
    loop of [rrtstar.py], the severing, potential-field and rewiring-queue
    code of [farrtstar2.py], and the observation query of [world.py].

    Conventions.
    - Python floats are idealised as rationals ([Q]); [float('inf')] is the
      extra constructor [Inf] of [pyfloat].
    - A method runs in the monad [M]: it threads the planner object and ends
      in a value, a raised exception (the mutations made before the raise
      stay, as in Python) or, for a [while] loop cut by its fuel, [OutOfFuel].
    - shapely, numpy and scipy are external: their operations are fields of
      the [Externals] interface or Section variables. *)

From Stdlib Require Import ZArith QArith Qround Qminmax String.
From stdpp Require Import base gmap sets list strings.

#[local] Set Warnings "-clear-no-such-hyp".

Local Open Scope string_scope.

(** ** Exceptions and the method monad *)

Inductive exn : Type :=
  | AttributeError (attr : string)
  | TypeError (callee : string)
  | KeyError
  | ValueError
  | AssertionError
  | IndexError
  | QueueEmpty.

Inductive outcome (A : Type) : Type :=
  | Ok (a : A)
  | Raise (e : exn)
  | OutOfFuel.
Arguments Ok {A} a.
Arguments Raise {A} e.
Arguments OutOfFuel {A}.

(** What a call into a library answers. *)
Inductive result (A : Type) : Type :=
  | Returns (a : A)
  | Raises (e : exn).
Arguments Returns {A} a.
Arguments Raises {A} e.

Definition M (St A : Type) : Type := St -> St * outcome A.

Definition ret {St A} (a : A) : M St A := fun s => (s, Ok a).

Definition bind {St A B} (m : M St A) (k : A -> M St B) : M St B :=
  fun s =>
    match m s with
    | (s', Ok a) => k a s'
    | (s', Raise e) => (s', Raise e)
    | (s', OutOfFuel) => (s', OutOfFuel)
    end.

Definition raise {St A} (e : exn) : M St A := fun s => (s, Raise e).
Definition out_of_fuel {St A} : M St A := fun s => (s, OutOfFuel).
Definition get {St} : M St St := fun s => (s, Ok s).
Definition modify {St} (f : St -> St) : M St unit := fun s => (f s, Ok tt).
Definition finish {St A} (o : outcome A) : M St A := fun s => (s, o).
Definition lift {St A} (r : result A) : M St A :=
  finish (match r with Returns a => Ok a | Raises e => Raise e end).

Notation "'let*' x ':=' c 'in' k" := (bind c (fun x => k))
  (at level 10, x pattern, c at level 100, k at level 200).

(** [for x in xs: body x] *)
Fixpoint for_each {St A} (xs : list A) (body : A -> M St unit) : M St unit :=
  match xs with
  | [] => ret tt
  | x :: rest => let* _ := body x in for_each rest body
  end.

Definition returned {St A} (r : St * outcome A) : option A :=
  match r.2 with Ok a => Some a | _ => None end.

Definition raised {St A} (r : St * outcome A) : option exn :=
  match r.2 with Raise e => Some e | _ => None end.

(** ** Floats *)

Inductive pyfloat : Type :=
  | Fin (q : Q)
  | Inf.

Definition Qltb (x y : Q) : bool := negb (Qle_bool y x).

Definition pyfloat_add (a b : pyfloat) : pyfloat :=
  match a, b with
  | Fin x, Fin y => Fin (x + y)
  | _, _ => Inf
  end.

Definition pyfloat_ltb (a b : pyfloat) : bool :=
  match a, b with
  | Fin x, Fin y => Qltb x y
  | Fin _, Inf => true
  | Inf, _ => false
  end.

(** ** The classes' method tables

    Attribute lookup on a planner walks [FARRTStar2], [RRTStar],
    [PartiallyObservablePlanner]. A signature lists the names a caller may
    pass by keyword (positional-only parameters and [self] are left out) and
    whether the method takes [**kwargs]. The constructors assign no
    instance attribute under a method's name, so the classes decide. *)

Record method_sig : Type := MethodSig {
  m_name : string;
  m_keywords : list string;
  m_var_keyword : bool
}.

Definition PartiallyObservablePlanner_methods : list method_sig :=
  [ MethodSig "__init__" ["world"; "x_start"; "x_goal"] true;
    MethodSig "default_run_count" ["outdir"] false;
    MethodSig "observe_world" [] false;
    MethodSig "update_plan" [] false;
    MethodSig "handle_new_obstacles" ["new_obstacles"] false;
    MethodSig "handle_deleted_obstacles" ["deleted_obstacles"] false;
    MethodSig "step_through_plan" [] false;
    MethodSig "run" [] false;
    MethodSig "get_render_kwargs" [] false;
    MethodSig "tmp_img_path" ["step"; "addition"] false;
    MethodSig "render" ["save_step"; "save_frame"; "visualize"] true;
    MethodSig "save_gif" [] false;
    MethodSig "delete_tmps" [] false ].

Definition RRTStar_methods : list method_sig :=
  [ MethodSig "__init__" [] true;
    MethodSig "handle_new_obstacles" ["new_obstacles"] false;
    MethodSig "handle_deleted_obstacles" ["deleted_obstacles"] false;
    MethodSig "update_plan" [] false;
    MethodSig "do_first_plan" [] false;
    MethodSig "replan" ["new_obstacles"] true;
    MethodSig "sample_free" ["goal_pt"; "buffer_radius"] false;
    MethodSig "find_nearest" ["x_rand"] false;
    MethodSig "steer" ["x_nearest"; "x_rand"] false;
    MethodSig "edge_obstacle_free" ["x_nearest"; "x_new"] false;
    MethodSig "find_nearby_pts" ["x_new"] false;
    MethodSig "get_min_cost_point" ["nearby_pts"; "x_nearest"; "x_new"] false;
    MethodSig "add_start_vertex" ["x_start"] false;
    MethodSig "add_vertex" ["pt"; "parent"; "cost"] false;
    MethodSig "reassign_parent" ["pt"; "parent"; "cost"; "allow_same_parent"] false;
    MethodSig "do_rrtstar_rewiring" ["nearby_pts"; "x_min"; "x_new"] false;
    MethodSig "reached_goal" ["x_new"; "goal"; "threshold"] false;
    MethodSig "build_rrt_tree" ["root"; "goal_pt"; "goal_threshold"] false;
    MethodSig "extract_path" ["endpoint"; "root"; "reverse"] false;
    MethodSig "get_parent" ["allow_none"] false;
    MethodSig "get_children" [] false;
    MethodSig "set_child_parent" ["child"; "parent"] false;
    MethodSig "get_cost_to_reach" ["point"] false;
    MethodSig "set_cost_to_reach" ["point"; "cost"] false;
    MethodSig "get_edge_cost" ["point1"; "point2"] false;
    MethodSig "get_render_kwargs" [] false ].

Definition FARRTStar2_methods : list method_sig :=
  [ MethodSig "__init__" [] true;
    MethodSig "setup_planner" [] false;
    MethodSig "replan" ["new_obstacles"] true;
    MethodSig "sever_connections" ["pt"] false;
    MethodSig "do_tree_severing" ["previous_plan"] false;
    MethodSig "update_potential_field" [] false;
    MethodSig "merge_points" ["points"; "merge_threshold"] false;
    MethodSig "apply_field_to_pt" ["field_force"; "tree_force"; "goal_force"] false;
    MethodSig "do_farrt_rewiring" ["goal"; "initial_frontier"] false;
    MethodSig "verify_queue" [] false;
    MethodSig "get_key" ["pt"] false;
    MethodSig "test_key_less" ["v_1"; "v_2"] false;
    MethodSig "insertPQ" ["pt"] false;
    MethodSig "updatePQ" ["pt"] false;
    MethodSig "popPQ" [] false;
    MethodSig "queue_not_empty" [] false;
    MethodSig "get_render_kwargs" [] false ].

Definition lookup_method (cls : list method_sig) (name : string) : option method_sig :=
  List.find (fun m => String.eqb (m_name m) name) cls.

(** Method resolution order of a [FARRTStar2] object. *)
Definition resolve (name : string) : option method_sig :=
  match lookup_method FARRTStar2_methods name with
  | Some m => Some m
  | None =>
      match lookup_method RRTStar_methods name with
      | Some m => Some m
      | None => lookup_method PartiallyObservablePlanner_methods name
      end
  end.

Definition accepts (m : method_sig) (kw : list string) : bool :=
  m_var_keyword m
  || forallb (fun k => existsb (String.eqb k) (m_keywords m)) kw.

(** [self.name(..., kw=...)]: the attribute is looked up, the keyword
    arguments are bound, and only then the body runs. *)
Definition invoke {St A} (name : string) (kw : list string) (body : M St A) : M St A :=
  match resolve name with
  | None => raise (AttributeError name)
  | Some m => if accepts m kw then body else raise (TypeError name)
  end.

(** The body of a method no class defines: [invoke] never reaches it. *)
Definition no_such_method {St A} (name : string) : M St A :=
  raise (AttributeError name).

(** ** The constructors

    The keyword arguments of a constructor, beyond [world], [x_start] and
    [x_goal], as a dictionary; the values are taken as numbers ([gui] as 0
    or 1). [outdir] and [run_count], with the paths made of them, play no
    part in planning: their keys are popped and their values dropped. *)

Module Constructors.

(** [kwargs.pop(key, default)] *)
Definition kwargs_pop (key : string) (default : Q) (kwargs : gmap string Q)
    : Q * gmap string Q :=
  (match kwargs !! key with Some v => v | None => default end, delete key kwargs).

(** [kwargs.get(key, default)] *)
Definition kwargs_get (key : string) (default : Q) (kwargs : gmap string Q) : Q :=
  match kwargs !! key with Some v => v | None => default end.

Record PartiallyObservablePlanner_attrs : Type := {
  gui : Q;
  display_every_n : Q;
  vision_radius : Q
}.

(** [PartiallyObservablePlanner.__init__]: four keys are popped,
    [vision_radius] is read and left in place, and the dictionary must
    then be empty. *)
Definition PartiallyObservablePlanner_init (kwargs : gmap string Q)
    : result PartiallyObservablePlanner_attrs :=
  let '(gui, kwargs) := kwargs_pop "gui" 1 kwargs in
  let '(_, kwargs) := kwargs_pop "outdir" 0 kwargs in
  let '(_, kwargs) := kwargs_pop "run_count" 0 kwargs in
  let '(display_every_n, kwargs) := kwargs_pop "display_every_n" (-1) kwargs in
  let vision_radius := kwargs_get "vision_radius" 10 kwargs in
  if bool_decide (kwargs = ∅)
  then Returns {| gui := gui; display_every_n := display_every_n;
                  vision_radius := vision_radius |}
  else Raises AssertionError.

Record RRTStar_attrs : Type := {
  base : PartiallyObservablePlanner_attrs;
  iters : Q;
  eps : Q;
  steer_distance : Q;
  obstacle_avoidance_radius : Q;
  goal_reached_thresh : Q;
  built_tree : bool
}.

(** [RRTStar.__init__]: the whole dictionary goes to the base constructor
    first; the settings are read from it afterwards. *)
Definition RRTStar_init (kwargs : gmap string Q) : result RRTStar_attrs :=
  match PartiallyObservablePlanner_init kwargs with
  | Raises e => Raises e
  | Returns base =>
      let iters := kwargs_get "iters" 2000 kwargs in
      let eps := kwargs_get "eps" (1 # 100) kwargs in
      let steer_distance := kwargs_get "max_step_length" (vision_radius base / 3) kwargs in
      let obstacle_avoidance_radius :=
        kwargs_get "obstacle_avoidance_radius" (steer_distance * 2 / 3) kwargs in
      Returns {| base := base; iters := iters; eps := eps;
                 steer_distance := steer_distance;
                 obstacle_avoidance_radius := obstacle_avoidance_radius;
                 goal_reached_thresh := 1; built_tree := false |}
  end.

Record FARRTStar2_attrs : Type := {
  rrtstar : RRTStar_attrs;
  farrt_iters : Q;
  merge_threshold : Q;
  potential_field_force : Q;
  tree_attr_force : Q;
  goal_attr_force : Q
}.

(** [FARRTStar2.__init__]: its own four keys are popped before the
    dictionary goes up; [iters] is then raised to at least 5000. *)
Definition FARRTStar2_init (kwargs : gmap string Q) : result FARRTStar2_attrs :=
  let merge_threshold := kwargs !! "merge_threshold" in
  let kwargs := delete "merge_threshold" kwargs in
  let '(potential_field_force, kwargs) := kwargs_pop "potential_field_force" 3 kwargs in
  let '(tree_attr_force, kwargs) := kwargs_pop "tree_attr_force" (1 # 2) kwargs in
  let '(goal_attr_force, kwargs) := kwargs_pop "goal_attr_force" (1 # 5) kwargs in
  match RRTStar_init kwargs with
  | Raises e => Raises e
  | Returns rrtstar =>
      let merge_threshold :=
        match merge_threshold with
        | Some m => m
        | None => (steer_distance rrtstar / 8)%Q
        end in
      Returns {| rrtstar := rrtstar;
                 farrt_iters := Qmax (iters rrtstar) 5000;
                 merge_threshold := merge_threshold;
                 potential_field_force := potential_field_force;
                 tree_attr_force := tree_attr_force;
                 goal_attr_force := goal_attr_force |}
  end.

(** The keys a [FARRTStar2] can be built with. *)
Definition accepted_keys : gset string :=
  {[ "gui"; "outdir"; "run_count"; "display_every_n";
     "merge_threshold"; "potential_field_force"; "tree_attr_force"; "goal_attr_force" ]}.

(** The settings the constructors read with [kwargs.get]. *)
Definition read_keys : list string :=
  [ "vision_radius"; "iters"; "eps"; "max_step_length"; "obstacle_avoidance_radius" ].

End Constructors.

(** ** numpy arrays and shapely geometry

    A 2-D array is the list of its rows. A polygon is seen through the two
    things the planner asks of it: its bounding box and whether it contains
    a grid point. *)

(** [np.ones(shape)], [np.zeros(shape)] *)
Definition np_full (shape : Z * Z) (v : Q) : list (list Q) :=
  replicate (Z.to_nat shape.1) (replicate (Z.to_nat shape.2) v).

(** An index into an axis of length [n]: negative indices count from the
    end, anything else out of range is an [IndexError]. *)
Definition np_index (n : nat) (i : Z) : option nat :=
  if (0 <=? i)%Z && (i <? Z.of_nat n)%Z then Some (Z.to_nat i)
  else if (- Z.of_nat n <=? i)%Z && (i <? 0)%Z then Some (Z.to_nat (i + Z.of_nat n))
  else None.

(** [a[y, x] = v] *)
Definition np_setitem (y x : Z) (v : Q) : M (list (list Q)) unit :=
  fun a =>
    match np_index (length a) y with
    | None => (a, Raise IndexError)
    | Some r =>
        match a !! r with
        | None => (a, Raise IndexError)
        | Some row =>
            match np_index (length row) x with
            | None => (a, Raise IndexError)
            | Some c => (<[r := <[c := v]> row]> a, Ok tt)
            end
        end
    end.

(** [a * k] *)
Definition np_scale (a : list (list Q)) (k : Q) : list (list Q) :=
  (fun row : list Q => (fun v : Q => (v * k)%Q) <$> row) <$> a.

(** [field[:, :, 0] += d]: the shapes must agree (no axis of [d] has
    length 1: [np.gradient] refuses such arrays). *)
Definition iadd_component0 (field : list (list (Q * Q))) (d : list (list Q))
    : result (list (list (Q * Q))) :=
  if bool_decide (length <$> field = length <$> d)
  then Returns (zip_with (zip_with (fun fv dv => ((fv.1 + dv)%Q, fv.2))) field d)
  else Raises ValueError.

(** [field[:, :, 1] += d] *)
Definition iadd_component1 (field : list (list (Q * Q))) (d : list (list Q))
    : result (list (list (Q * Q))) :=
  if bool_decide (length <$> field = length <$> d)
  then Returns (zip_with (zip_with (fun fv dv => (fv.1, (fv.2 + dv)%Q))) field d)
  else Raises ValueError.

(** [field[y, x]] *)
Definition field_getitem (field : list (list (Q * Q))) (y x : Z) : result (Q * Q) :=
  match np_index (length field) y with
  | None => Raises IndexError
  | Some r =>
      match field !! r with
      | None => Raises IndexError
      | Some row =>
          match np_index (length row) x with
          | None => Raises IndexError
          | Some c =>
              match row !! c with
              | Some v => Returns v
              | None => Raises IndexError
              end
          end
      end
  end.

Record Polygon : Type := {
  (** [(minx, miny, maxx, maxy)] *)
  bounds : Q * Q * Q * Q;
  (** [contains(Point(x, y))] *)
  contains : Z -> Z -> bool
}.

Inductive BaseGeometry : Type :=
  | GeomPoint (p : Q * Q)
  | GeomLineString (coords : list (Q * Q))
  | GeomPolygon (p : Polygon)
  | GeomMultiPolygon (geoms : list Polygon)
  | GeomCollection (polygons : list Polygon) (others : list (list (Q * Q))).

(** [range(lo, hi)] *)
Definition py_range (lo hi : Z) : list Z := seqZ lo (hi - lo).

(** The two nested [for] loops of [update_potential_field] over one
    obstacle's bounding box, run on the mask. *)
Definition mark_obstacle (obstacle : Polygon) : M (list (list Q)) unit :=
  let '(minx, miny, maxx, maxy) := bounds obstacle in
  for_each (py_range (Qfloor minx) (Qceiling maxx + 1)) (fun x =>
    for_each (py_range (Qfloor miny) (Qceiling maxy + 1)) (fun y =>
      if contains obstacle x y then np_setitem y x 0 else ret tt)).

Definition obstacle_value : Q := 5.
Definition blur_sigma : Q := 3.

(** [obstacle_mask] after the loop over [new_obstacles.geoms]. *)
Definition obstacle_mask (dims : Z * Z) (new_obstacles : list Polygon)
    : outcome (list (list Q)) :=
  match for_each new_obstacles mark_obstacle (np_full dims 1) with
  | (mask, Ok _) => Ok mask
  | (_, Raise e) => Raise e
  | (_, OutOfFuel) => OutOfFuel
  end.

(** The array handed to [gaussian_filter]: [obstacle_mask*obstacle_value]. *)
Definition blur_input (dims : Z * Z) (new_obstacles : list Polygon)
    : outcome (list (list Q)) :=
  match obstacle_mask dims new_obstacles with
  | Ok mask => Ok (np_scale mask obstacle_value)
  | Raise e => Raise e
  | OutOfFuel => OutOfFuel
  end.

(** ** External collaborators

    What the planner asks of shapely, of [farrt.utils] (not part of the
    sources at hand), of the world object and of the global random source.
    A vertex is a coordinate pair used as a hashable key; a shapely [Point]
    and its tuple are the same value here, so [pt2tuple] and [as_point] are
    the identity on points. *)

Class Externals (vertex_t obstacles_t : Type) `{Countable vertex_t} : Type := {
  (** [Point(x, y)] *)
  Point : Q -> Q -> vertex_t;
  (** [a.distance(b)] *)
  distance : vertex_t -> vertex_t -> Q;
  (** [shapely_edge(a, b).interpolate(f, normalized=True)] *)
  interpolate : vertex_t -> vertex_t -> Q -> vertex_t;
  (** [nearest_points(g, q)[0]] *)
  nearest_points : gset vertex_t -> vertex_t -> result vertex_t;
  (** [obstacles.intersects(p.buffer(r))] *)
  intersects_buffer : obstacles_t -> vertex_t -> Q -> bool;
  (** [obstacles.intersects(shapely_edge(a, b))] *)
  intersects_edge : obstacles_t -> vertex_t -> vertex_t -> bool;
  (** [as_multipoint(g.intersection(p.buffer(r))).geoms] *)
  points_in_buffer : gset vertex_t -> vertex_t -> Q -> list vertex_t;
  (** [((gamma / math.pi) * math.log(n) / n) ** (1.0 / 2)] *)
  gamma_ball : Q -> nat -> result Q;
  (** [world.getBounds()], as the world object at hand answers it
      ([world.py]'s [World] defines none: asked of it, the call raises
      [AttributeError]) *)
  getBounds : result (Q * Q * Q * Q);
  (** the n-th draw of [random.random()] *)
  random_tape : nat -> Q;
  (** [pt2tuple(None)]: the sources never say what [pt2tuple] does off a point *)
  pt2tuple_None : result vertex_t;
  (** Python's [<] on coordinate tuples *)
  vertex_ltb : vertex_t -> vertex_t -> bool
}.

Section Planner.
Context {vertex_t obstacles_t : Type} `{Countable vertex_t}.
Context `{!Externals vertex_t obstacles_t}.

(** ** The planner object *)

Record planner : Type := Planner {
  (* PartiallyObservablePlanner *)
  world_dims : Z * Z;
  curr_pos : vertex_t;
  detected_obstacles : obstacles_t;
  (* RRTStar *)
  iters : Z;
  eps : Q;
  steer_distance : Q;
  obstacle_avoidance_radius : Q;
  x_goal_pt : vertex_t;
  rrt_tree : gset vertex_t;
  rrt_vertices : gset vertex_t;
  rrt_edges : gset (vertex_t * vertex_t);
  child_to_parent_map : gmap vertex_t vertex_t;
  parent_to_children_map : gmap vertex_t (gset vertex_t);
  cost_to_reach : gmap vertex_t pyfloat;
  goal_reached_thresh : Q;
  built_tree : bool;
  (* FARRTStar2 *)
  potential_field : list (list (Q * Q));
  rewiringPQ : list (pyfloat * vertex_t);
  queue_key_map : gmap vertex_t pyfloat;
  (* how many draws the global random source has served *)
  random_draws : nat
}.

Definition set_rrt_tree (f : gset vertex_t -> gset vertex_t) (s : planner) : planner :=
  Planner (world_dims s) (curr_pos s) (detected_obstacles s) (iters s) (eps s)
    (steer_distance s) (obstacle_avoidance_radius s) (x_goal_pt s)
    (f (rrt_tree s)) (rrt_vertices s) (rrt_edges s) (child_to_parent_map s)
    (parent_to_children_map s) (cost_to_reach s) (goal_reached_thresh s)
    (built_tree s) (potential_field s) (rewiringPQ s) (queue_key_map s)
    (random_draws s).

Definition set_rrt_vertices (f : gset vertex_t -> gset vertex_t) (s : planner) : planner :=
  Planner (world_dims s) (curr_pos s) (detected_obstacles s) (iters s) (eps s)
    (steer_distance s) (obstacle_avoidance_radius s) (x_goal_pt s)
    (rrt_tree s) (f (rrt_vertices s)) (rrt_edges s) (child_to_parent_map s)
    (parent_to_children_map s) (cost_to_reach s) (goal_reached_thresh s)
    (built_tree s) (potential_field s) (rewiringPQ s) (queue_key_map s)
    (random_draws s).

Definition set_rrt_edges
    (f : gset (vertex_t * vertex_t) -> gset (vertex_t * vertex_t)) (s : planner) : planner :=
  Planner (world_dims s) (curr_pos s) (detected_obstacles s) (iters s) (eps s)
    (steer_distance s) (obstacle_avoidance_radius s) (x_goal_pt s)
    (rrt_tree s) (rrt_vertices s) (f (rrt_edges s)) (child_to_parent_map s)
    (parent_to_children_map s) (cost_to_reach s) (goal_reached_thresh s)
    (built_tree s) (potential_field s) (rewiringPQ s) (queue_key_map s)
    (random_draws s).

Definition set_child_to_parent_map
    (f : gmap vertex_t vertex_t -> gmap vertex_t vertex_t) (s : planner) : planner :=
  Planner (world_dims s) (curr_pos s) (detected_obstacles s) (iters s) (eps s)
    (steer_distance s) (obstacle_avoidance_radius s) (x_goal_pt s)
    (rrt_tree s) (rrt_vertices s) (rrt_edges s) (f (child_to_parent_map s))
    (parent_to_children_map s) (cost_to_reach s) (goal_reached_thresh s)
    (built_tree s) (potential_field s) (rewiringPQ s) (queue_key_map s)
    (random_draws s).

Definition set_parent_to_children_map
    (f : gmap vertex_t (gset vertex_t) -> gmap vertex_t (gset vertex_t))
    (s : planner) : planner :=
  Planner (world_dims s) (curr_pos s) (detected_obstacles s) (iters s) (eps s)
    (steer_distance s) (obstacle_avoidance_radius s) (x_goal_pt s)
    (rrt_tree s) (rrt_vertices s) (rrt_edges s) (child_to_parent_map s)
    (f (parent_to_children_map s)) (cost_to_reach s) (goal_reached_thresh s)
    (built_tree s) (potential_field s) (rewiringPQ s) (queue_key_map s)
    (random_draws s).

Definition set_cost_map
    (f : gmap vertex_t pyfloat -> gmap vertex_t pyfloat) (s : planner) : planner :=
  Planner (world_dims s) (curr_pos s) (detected_obstacles s) (iters s) (eps s)
    (steer_distance s) (obstacle_avoidance_radius s) (x_goal_pt s)
    (rrt_tree s) (rrt_vertices s) (rrt_edges s) (child_to_parent_map s)
    (parent_to_children_map s) (f (cost_to_reach s)) (goal_reached_thresh s)
    (built_tree s) (potential_field s) (rewiringPQ s) (queue_key_map s)
    (random_draws s).

Definition set_potential_field
    (f : list (list (Q * Q)) -> list (list (Q * Q))) (s : planner) : planner :=
  Planner (world_dims s) (curr_pos s) (detected_obstacles s) (iters s) (eps s)
    (steer_distance s) (obstacle_avoidance_radius s) (x_goal_pt s)
    (rrt_tree s) (rrt_vertices s) (rrt_edges s) (child_to_parent_map s)
    (parent_to_children_map s) (cost_to_reach s) (goal_reached_thresh s)
    (built_tree s) (f (potential_field s)) (rewiringPQ s) (queue_key_map s)
    (random_draws s).

Definition set_rewiringPQ
    (f : list (pyfloat * vertex_t) -> list (pyfloat * vertex_t)) (s : planner) : planner :=
  Planner (world_dims s) (curr_pos s) (detected_obstacles s) (iters s) (eps s)
    (steer_distance s) (obstacle_avoidance_radius s) (x_goal_pt s)
    (rrt_tree s) (rrt_vertices s) (rrt_edges s) (child_to_parent_map s)
    (parent_to_children_map s) (cost_to_reach s) (goal_reached_thresh s)
    (built_tree s) (potential_field s) (f (rewiringPQ s)) (queue_key_map s)
    (random_draws s).

Definition set_queue_key_map
    (f : gmap vertex_t pyfloat -> gmap vertex_t pyfloat) (s : planner) : planner :=
  Planner (world_dims s) (curr_pos s) (detected_obstacles s) (iters s) (eps s)
    (steer_distance s) (obstacle_avoidance_radius s) (x_goal_pt s)
    (rrt_tree s) (rrt_vertices s) (rrt_edges s) (child_to_parent_map s)
    (parent_to_children_map s) (cost_to_reach s) (goal_reached_thresh s)
    (built_tree s) (potential_field s) (rewiringPQ s) (f (queue_key_map s))
    (random_draws s).

Definition set_random_draws (f : nat -> nat) (s : planner) : planner :=
  Planner (world_dims s) (curr_pos s) (detected_obstacles s) (iters s) (eps s)
    (steer_distance s) (obstacle_avoidance_radius s) (x_goal_pt s)
    (rrt_tree s) (rrt_vertices s) (rrt_edges s) (child_to_parent_map s)
    (parent_to_children_map s) (cost_to_reach s) (goal_reached_thresh s)
    (built_tree s) (potential_field s) (rewiringPQ s) (queue_key_map s)
    (f (random_draws s)).

Local Abbreviation Mp := (M planner).

(** ** The tree store ([rrtstar.py]) *)

(** [pt2tuple(p)] where [p] may be [None]. *)
Definition pt2tuple (p : option vertex_t) : Mp vertex_t :=
  match p with
  | Some v => ret v
  | None => lift pt2tuple_None
  end.

(** [get_parent(point, allow_none=...)]; the [render] call on the error
    path draws a figure and leaves the planner as it is. *)
Definition get_parent (point : vertex_t) (allow_none : bool) : Mp (option vertex_t) :=
  let* s := get in
  match child_to_parent_map s !! point with
  | None => if allow_none then ret None else raise ValueError
  | Some parent => ret (Some parent)
  end.

(** [get_children(point)]: [parent_to_children_map] is a [defaultdict(set)],
    so reading a missing key stores an empty set under it. *)
Definition get_children (point : vertex_t) : Mp (gset vertex_t) :=
  let* s := get in
  match parent_to_children_map s !! point with
  | Some children => ret children
  | None =>
      let* _ := modify (set_parent_to_children_map (<[point := ∅]>)) in
      ret ∅
  end.

(** [self.get_children(parent).discard(child)]: the set is mutated in place. *)
Definition discard_child (parent child : vertex_t) : Mp unit :=
  let* children := get_children parent in
  modify (set_parent_to_children_map (<[parent := children ∖ {[child]}]>)).

(** [self.parent_to_children_map[parent].add(child)] *)
Definition add_child (parent child : vertex_t) : Mp unit :=
  let* children := get_children parent in
  modify (set_parent_to_children_map (<[parent := children ∪ {[child]}]>)).

(** [del self.child_to_parent_map[child]] *)
Definition del_parent (child : vertex_t) : Mp unit :=
  let* s := get in
  match child_to_parent_map s !! child with
  | None => raise KeyError
  | Some _ => modify (set_child_to_parent_map (delete child))
  end.

Definition set_child_parent (child : vertex_t) (parent : option vertex_t) : Mp unit :=
  let* old_parent := get_parent child true in
  let* _ := match old_parent with
            | Some old => discard_child old child
            | None => ret tt
            end in
  let* s := get in
  if bool_decide (parent = None) && bool_decide (child ∈ dom (parent_to_children_map s))
  then del_parent child
  else
    let* parent := pt2tuple parent in
    let* _ := modify (set_child_to_parent_map (<[child := parent]>)) in
    add_child parent child.

Definition get_cost_to_reach (point : vertex_t) : Mp pyfloat :=
  let* s := get in
  match cost_to_reach s !! point with
  | Some c => ret c
  | None => raise KeyError
  end.

Definition set_cost_to_reach (point : vertex_t) (cost : pyfloat) : Mp unit :=
  modify (set_cost_map (<[point := cost]>)).

Definition get_edge_cost (point1 point2 : vertex_t) : Q := distance point1 point2.

Definition add_start_vertex (x_start : vertex_t) : Mp unit :=
  let* _ := modify (set_rrt_tree (fun t => t ∪ {[x_start]})) in
  let* _ := modify (set_rrt_vertices (fun V => V ∪ {[x_start]})) in
  set_cost_to_reach x_start (Fin 0).

Definition add_vertex (pt parent : vertex_t) (cost : pyfloat) : Mp unit :=
  let* _ := modify (set_rrt_tree (fun t => t ∪ {[pt]})) in
  let* _ := modify (set_rrt_vertices (fun V => V ∪ {[pt]})) in
  let* _ := modify (set_rrt_edges (fun E => E ∪ {[(parent, pt)]})) in
  let* _ := set_child_parent pt (Some parent) in
  set_cost_to_reach pt cost.

Definition reassign_parent (pt parent : vertex_t) (cost : pyfloat)
    (allow_same_parent : bool) : Mp unit :=
  let* prev_parent := get_parent pt false in
  if bool_decide (prev_parent = Some parent)
  then (if allow_same_parent then ret tt else raise ValueError)
  else
    let* old_parent_vtx := pt2tuple prev_parent in
    let* _ := modify (set_rrt_edges (fun E =>
                (E ∖ {[(old_parent_vtx, pt)]}) ∖ {[(pt, old_parent_vtx)]}
                ∪ {[(parent, pt)]})) in
    let* _ := set_child_parent pt (Some parent) in
    let* children := get_children old_parent_vtx in
    if bool_decide (pt ∈ children) then raise AssertionError
    else set_cost_to_reach pt cost.

(** ** Severing ([farrtstar2.py]) *)

(** Modelled from the spec: [farrt.utils.multipoint_without(g, p)], absent
    from the sources; the spec's "remove [v] from [tree_geom]". *)
Definition multipoint_without (g : gset vertex_t) (p : vertex_t) : gset vertex_t :=
  g ∖ {[p]}.

Definition sever_connections (pt : vertex_t) : Mp unit :=
  let* parent := get_parent pt true in
  let* _ := match parent with
            | Some parent_vtx =>
                let* _ := modify (set_rrt_edges (fun E =>
                            (E ∖ {[(pt, parent_vtx)]}) ∖ {[(parent_vtx, pt)]})) in
                set_child_parent pt None
            | None => ret tt
            end in
  let* children := get_children pt in
  let* _ := for_each (elements children) (fun other =>
              let* _ := modify (set_rrt_edges (fun E =>
                          (E ∖ {[(pt, other)]}) ∖ {[(other, pt)]})) in
              set_child_parent other None) in
  let* _ := modify (set_rrt_vertices (fun V => V ∖ {[pt]})) in
  let* _ := modify (set_rrt_tree (fun t => multipoint_without t pt)) in
  invoke "set_cost_to_goal" [] (no_such_method "set_cost_to_goal").

(** ** RRT* ([rrtstar.py]) *)

(** [random.random()] *)
Definition random_random : Mp Q :=
  let* s := get in
  let* _ := modify (set_random_draws S) in
  ret (random_tape (random_draws s)).

(** [world.random_position()] ([world.py]) *)
Definition random_position : Mp vertex_t :=
  let* s := get in
  let* rx := random_random in
  let* ry := random_random in
  ret (Point (rx * inject_Z (world_dims s).1) (ry * inject_Z (world_dims s).2)).

(** The rejection loop of [sample_free]. *)
Fixpoint resample (fuel : nat) (buffer_radius : Q) (rand_pos : vertex_t) : Mp vertex_t :=
  let* s := get in
  if intersects_buffer (detected_obstacles s) rand_pos buffer_radius then
    match fuel with
    | O => out_of_fuel
    | S fuel' =>
        let* rand_pos := random_position in
        resample fuel' buffer_radius rand_pos
    end
  else ret rand_pos.

Definition sample_free (fuel : nat) (goal_pt : vertex_t) (buffer_radius : option Q)
    : Mp vertex_t :=
  let* r := random_random in
  let* s := get in
  if Qltb r (eps s) then ret goal_pt
  else
    let buffer_radius := default (obstacle_avoidance_radius s) buffer_radius in
    let* rand_pos := random_position in
    resample fuel buffer_radius rand_pos.

Definition find_nearest (x_rand : vertex_t) : Mp vertex_t :=
  let* s := get in
  lift (nearest_points (multipoint_without (rrt_tree s) x_rand) x_rand).

Definition steer (x_nearest x_rand : vertex_t) : Mp vertex_t :=
  let* s := get in
  let dist := distance x_nearest x_rand in
  if Qeq_bool dist 0 then ret x_rand
  else
    let factor := Qmin 1 (steer_distance s / dist) in
    ret (interpolate x_nearest x_rand factor).

Definition edge_obstacle_free (x_nearest x_new : vertex_t) : Mp bool :=
  let* s := get in
  ret (negb (intersects_edge (detected_obstacles s) x_nearest x_new)).

(** The nested [find_ball_radius] of [find_nearby_pts]; the world is 2-D. *)
Definition find_ball_radius : Mp Q :=
  let* s := get in
  let num_vertices := size (rrt_vertices s) in
  let* (minx, miny, maxx, maxy) := lift getBounds in
  let gamma := (4 * (1 + 1 / 2) * (maxx - minx) * (maxy - miny))%Q in
  let* r := lift (gamma_ball gamma num_vertices) in
  ret (Qmin r (steer_distance s)).

Definition find_nearby_pts (x_new : vertex_t) : Mp (list vertex_t) :=
  let* r := find_ball_radius in
  let* s := get in
  ret (points_in_buffer (multipoint_without (rrt_tree s) x_new) x_new r).

(** The [for point in nearby_pts.geoms] loop of [get_min_cost_point]. *)
Fixpoint min_cost_scan (pts : list vertex_t) (x_new min_point : vertex_t)
    (min_cost : pyfloat) : Mp (vertex_t * pyfloat) :=
  match pts with
  | [] => ret (min_point, min_cost)
  | point :: rest =>
      let* free := edge_obstacle_free point x_new in
      if free then
        let* c := get_cost_to_reach point in
        let temp_cost := pyfloat_add c (Fin (get_edge_cost point x_new)) in
        if pyfloat_ltb temp_cost min_cost
        then min_cost_scan rest x_new point temp_cost
        else min_cost_scan rest x_new min_point min_cost
      else min_cost_scan rest x_new min_point min_cost
  end.

Definition get_min_cost_point (nearby_pts : list vertex_t) (x_nearest x_new : vertex_t)
    : Mp (vertex_t * pyfloat) :=
  let* c := get_cost_to_reach x_nearest in
  min_cost_scan nearby_pts x_new x_nearest
    (pyfloat_add c (Fin (get_edge_cost x_nearest x_new))).

Definition do_rrtstar_rewiring (nearby_pts : list vertex_t) (x_min x_new : vertex_t)
    : Mp unit :=
  for_each (filter (fun p => p ≠ x_min) nearby_pts) (fun x_nearby =>
    let* free := edge_obstacle_free x_new x_nearby in
    if free then
      let* c_new := get_cost_to_reach x_new in
      let cost_with_new := pyfloat_add c_new (Fin (get_edge_cost x_new x_nearby)) in
      let* c_nearby := get_cost_to_reach x_nearby in
      if pyfloat_ltb cost_with_new c_nearby then
        let* s := get in
        reassign_parent x_nearby x_new cost_with_new (bool_decide (x_new = curr_pos s))
      else ret tt
    else ret tt).

(** [reached_goal(x_new, goal=..., threshold=...)]: both defaults are
    filled in, and the comparison then reads [self.goal_reached_thresh]. *)
Definition reached_goal (x_new : vertex_t) (goal : option vertex_t)
    (threshold : option Q) : Mp bool :=
  let* s := get in
  let goal := default (x_goal_pt s) goal in
  let threshold := default (goal_reached_thresh s) threshold in
  ret (Qltb (distance x_new goal) (goal_reached_thresh s)).

(** The [buffer_radius] argument of the loop's [sample_free] call. *)
Definition sample_buffer_radius (s : planner) (i : Z) (final_pt : option vertex_t) : Q :=
  if Qltb (inject_Z (iters s) / 2) (inject_Z i) && bool_decide (final_pt = None)
  then 0
  else obstacle_avoidance_radius s.

(** The [while] condition of [build_rrt_tree]. *)
Definition build_guard (s : planner) (i : Z) (final_pt : option vertex_t) : bool :=
  (i <? iters s)%Z || bool_decide (final_pt = None).

(** One pass through the loop body: whether it ended in [break], and the
    new [final_pt] and [final_pt_cost]. *)
Definition build_step (fuel : nat) (goal_pt : vertex_t) (goal_threshold : Q) (i : Z)
    (final_pt : option vertex_t) (final_pt_cost : pyfloat)
    : Mp (bool * option vertex_t * pyfloat) :=
  let* s := get in
  let* x_rand := sample_free fuel goal_pt (Some (sample_buffer_radius s i final_pt)) in
  let* x_nearest := find_nearest x_rand in
  let* x_new := steer x_nearest x_rand in
  let* free := edge_obstacle_free x_nearest x_new in
  if free then
    let* nearby_points := find_nearby_pts x_new in
    let* (x_min, min_cost) := get_min_cost_point nearby_points x_nearest x_new in
    let* _ := add_vertex x_new x_min min_cost in
    let* _ := do_rrtstar_rewiring nearby_points x_min x_new in
    let* reached := reached_goal x_new (Some goal_pt) (Some goal_threshold) in
    if reached then
      let* s := get in
      if built_tree s then ret (true, Some x_new, final_pt_cost)
      else if pyfloat_ltb min_cost final_pt_cost then ret (false, Some x_new, min_cost)
      else ret (false, final_pt, final_pt_cost)
    else ret (false, final_pt, final_pt_cost)
  else ret (false, final_pt, final_pt_cost).

(** The pass from [find_nearest] on, once [x_rand] is sampled. *)
Definition extend_tree (goal_pt : vertex_t) (goal_threshold : Q)
    (final_pt : option vertex_t) (final_pt_cost : pyfloat) (x_rand : vertex_t)
    : Mp (bool * option vertex_t * pyfloat) :=
  let* x_nearest := find_nearest x_rand in
  let* x_new := steer x_nearest x_rand in
  let* free := edge_obstacle_free x_nearest x_new in
  if free then
    let* nearby_points := find_nearby_pts x_new in
    let* (x_min, min_cost) := get_min_cost_point nearby_points x_nearest x_new in
    let* _ := add_vertex x_new x_min min_cost in
    let* _ := do_rrtstar_rewiring nearby_points x_min x_new in
    let* reached := reached_goal x_new (Some goal_pt) (Some goal_threshold) in
    if reached then
      let* s := get in
      if built_tree s then ret (true, Some x_new, final_pt_cost)
      else if pyfloat_ltb min_cost final_pt_cost then ret (false, Some x_new, min_cost)
      else ret (false, final_pt, final_pt_cost)
    else ret (false, final_pt, final_pt_cost)
  else ret (false, final_pt, final_pt_cost).

(** The [while] loop; it returns the final [i] with the loop's two results. *)
Fixpoint build_loop (fuel : nat) (goal_pt : vertex_t) (goal_threshold : Q) (i : Z)
    (final_pt : option vertex_t) (final_pt_cost : pyfloat)
    : Mp (Z * option vertex_t * pyfloat) :=
  let* s := get in
  if build_guard s i final_pt then
    match fuel with
    | O => out_of_fuel
    | S fuel' =>
        let* (broke, final_pt', final_pt_cost') :=
          build_step fuel' goal_pt goal_threshold i final_pt final_pt_cost in
        if (broke : bool) then ret (i, final_pt', final_pt_cost')
        else build_loop fuel' goal_pt goal_threshold (i + 1) final_pt' final_pt_cost'
    end
  else ret (i, final_pt, final_pt_cost).

Definition build_rrt_tree (fuel : nat) (root goal_pt : vertex_t)
    (goal_threshold : option Q) : Mp (option vertex_t * pyfloat) :=
  let* s := get in
  let goal_threshold := default (goal_reached_thresh s) goal_threshold in
  let* _ := modify (set_rrt_tree (fun _ => ∅)) in
  let* _ := modify (set_rrt_vertices (fun _ => ∅)) in
  let* _ := modify (set_rrt_edges (fun _ => ∅)) in
  let* _ := add_start_vertex root in
  let* (_, final_pt, final_pt_cost) :=
    build_loop fuel goal_pt goal_threshold 0 None Inf in
  ret (final_pt, final_pt_cost).

(** ** The rewiring queue ([farrtstar2.py])

    [rewiringPQ] is a [queue.PriorityQueue] of [(key, point)] tuples, kept
    here as the sorted list of its entries: [put] inserts in order and
    [get(block=False)] takes the head or raises [queue.Empty]. *)

Definition pyfloat_eqb (a b : pyfloat) : bool :=
  match a, b with
  | Fin x, Fin y => Qeq_bool x y
  | Inf, Inf => true
  | _, _ => false
  end.

(** Python's [<] on [(key, point)] tuples. *)
Definition entry_ltb (a b : pyfloat * vertex_t) : bool :=
  if pyfloat_eqb a.1 b.1 then vertex_ltb a.2 b.2 else pyfloat_ltb a.1 b.1.

Fixpoint pq_put (e : pyfloat * vertex_t) (heap : list (pyfloat * vertex_t))
    : list (pyfloat * vertex_t) :=
  match heap with
  | [] => [e]
  | x :: rest => if entry_ltb e x then e :: x :: rest else x :: pq_put e rest
  end.

Definition rewiringPQ_put (e : pyfloat * vertex_t) : Mp unit :=
  modify (set_rewiringPQ (pq_put e)).

Definition rewiringPQ_get : Mp (pyfloat * vertex_t) :=
  let* s := get in
  match rewiringPQ s with
  | [] => raise QueueEmpty
  | e :: rest =>
      let* _ := modify (set_rewiringPQ (fun _ => rest)) in
      ret e
  end.

Definition get_key (pt : vertex_t) : Mp pyfloat :=
  let* nearest := invoke "find_nearest" ["pt_source"] (find_nearest pt) in
  let* cost_to_goal :=
    invoke "get_cost_to_goal" [] (no_such_method "get_cost_to_goal") in
  ret (pyfloat_add cost_to_goal (Fin (get_edge_cost nearest pt))).

Definition test_key_less (v_1 v_2 : vertex_t) : Mp bool :=
  let* k1 := get_key v_1 in
  let* k2 := get_key v_2 in
  ret (pyfloat_ltb k1 k2).

Definition insertPQ (pt : vertex_t) : Mp unit :=
  let* key := get_key pt in
  let* s := get in
  if bool_decide (pt ∈ dom (queue_key_map s)) then ret tt
  else
    let* _ := modify (set_queue_key_map (<[pt := key]>)) in
    rewiringPQ_put (key, pt).

Definition updatePQ (pt : vertex_t) : Mp unit :=
  let* key := get_key pt in
  let* s := get in
  if bool_decide (pt ∈ dom (queue_key_map s)) then
    let* _ := modify (set_queue_key_map (<[pt := key]>)) in
    rewiringPQ_put (key, pt)
  else ret tt.

Definition verify_queue (pt : vertex_t) : Mp unit :=
  let* s := get in
  if bool_decide (pt ∈ dom (queue_key_map s)) then updatePQ pt else insertPQ pt.

(** What the local variable [point] of [popPQ] holds: the point unpacked
    from the first entry, or, once the loop body has run, a whole
    [(key, point)] entry. *)
Inductive popped : Type :=
  | PoppedPoint (p : vertex_t)
  | PoppedEntry (e : pyfloat * vertex_t).

(** [self.queue_key_map.get(point)]: an entry tuple never equals a
    coordinate pair, so it is no key of the map. *)
Definition key_map_get (s : planner) (point : popped) : option pyfloat :=
  match point with
  | PoppedPoint p => queue_key_map s !! p
  | PoppedEntry _ => None
  end.

(** [point not in self.queue_key_map or self.queue_key_map[point] != key] *)
Definition stale (s : planner) (point : popped) (key : pyfloat) : bool :=
  match key_map_get s point with
  | None => true
  | Some k => negb (pyfloat_eqb k key)
  end.

Fixpoint popPQ_while (fuel : nat) (key : pyfloat) (point : popped) : Mp popped :=
  let* s := get in
  if stale s point key then
    match fuel with
    | O => out_of_fuel
    | S fuel' =>
        let* e := rewiringPQ_get in
        popPQ_while fuel' key (PoppedEntry e)
    end
  else ret point.

(** [self.queue_key_map.pop(p)] *)
Definition key_map_pop (p : vertex_t) : Mp unit :=
  let* s := get in
  match queue_key_map s !! p with
  | Some _ => modify (set_queue_key_map (delete p))
  | None => raise KeyError
  end.

(** After the loop [point] is popped from the key map and returned; an
    entry tuple is no key of the map, so popping it would raise. *)
Definition popPQ : Mp vertex_t :=
  let* (key, point) := rewiringPQ_get in
  let* s := get in
  let* point := popPQ_while (S (length (rewiringPQ s))) key (PoppedPoint point) in
  match point with
  | PoppedPoint p =>
      let* _ := key_map_pop p in
      ret p
  | PoppedEntry _ => raise KeyError
  end.

(** [try: ... except queue.Empty: handler] *)
Definition except_queue_empty {A} (body handler : Mp A) : Mp A :=
  fun s =>
    match body s with
    | (s', Raise QueueEmpty) => handler s'
    | r => r
    end.

Definition queue_not_empty : Mp bool :=
  except_queue_empty
    (let* point := popPQ in
     let* _ := insertPQ point in
     ret true)
    (ret false).

(** ** The rewiring loop's condition ([do_farrt_rewiring]) *)

Definition testQtop (v_bot : vertex_t) : Mp bool :=
  let* top := popPQ in
  let* key_less := test_key_less top v_bot in
  let* _ := insertPQ top in
  ret key_less.

(** [(queue_not_empty() and (False or g(curr_pos) == inf or curr_pos in
    queue_key_map or testQtop(curr_pos))) or final_pt is None] *)
Definition farrt_guard (final_pt : option vertex_t) : Mp bool :=
  let* nonempty := queue_not_empty in
  let* inconsistent :=
    if (nonempty : bool) then
      let* s := get in
      let* g := invoke "get_cost_to_goal" [] (no_such_method "get_cost_to_goal") in
      if pyfloat_eqb g Inf then ret true
      else if bool_decide (curr_pos s ∈ dom (queue_key_map s)) then ret true
      else testQtop (curr_pos s)
    else ret false in
  if (inconsistent : bool) then ret true
  else ret (bool_decide (final_pt = None)).

(** Every call the model writes as a direct call: the method the attribute
    lookup finds takes the keywords the call site passes. *)
Definition direct_calls : list (string * list string) :=
  [ ("sample_free", ["buffer_radius"]); ("find_nearest", []); ("steer", []);
    ("edge_obstacle_free", []); ("find_nearby_pts", []); ("get_min_cost_point", []);
    ("add_start_vertex", []); ("add_vertex", ["pt"; "parent"; "cost"]);
    ("do_rrtstar_rewiring", []);
    ("reassign_parent", ["pt"; "parent"; "cost"; "allow_same_parent"]);
    ("reached_goal", ["goal"; "threshold"]); ("get_parent", ["allow_none"]);
    ("get_parent", []); ("get_children", []); ("set_child_parent", ["child"; "parent"]);
    ("get_cost_to_reach", []); ("set_cost_to_reach", []); ("get_edge_cost", []);
    ("get_key", []); ("test_key_less", []); ("insertPQ", []); ("updatePQ", []);
    ("popPQ", []); ("queue_not_empty", []) ].

Definition call_resolves (call : string * list string) : bool :=
  match resolve call.1 with
  | Some m => accepts m call.2
  | None => false
  end.

(** ** The potential field ([farrtstar2.py])

    [scipy.ndimage.gaussian_filter] and [np.gradient] are passed in;
    [np.gradient] answers [(dy, dx)] or raises on an axis shorter than 2.
    The closing [render] call draws a figure and leaves the planner as is. *)

Variable gaussian_filter : list (list Q) -> Q -> list (list Q).
Variable np_gradient : list (list Q) -> result (list (list Q) * list (list Q)).

Definition update_potential_field (new_obstacles : list Polygon) : Mp unit :=
  let* s := get in
  let* blur_in := finish (blur_input (world_dims s) new_obstacles) in
  let blurred_mask := gaussian_filter blur_in blur_sigma in
  let* (dy, dx) := lift (np_gradient blurred_mask) in
  let* s := get in
  let* field := lift (iadd_component0 (potential_field s) dx) in
  let* _ := modify (set_potential_field (fun _ => field)) in
  let* s := get in
  let* field := lift (iadd_component1 (potential_field s) dy) in
  modify (set_potential_field (fun _ => field)).

End Planner.

(** ** Path nodes

    [farrt/node.py] is not among the sources: a [Node] is seen through what
    the planner asks of it. *)

Class Nodes (vertex_t node_t : Type) : Type := {
  (** [Node(pt, parent)]; [pt] is whatever the path list holds *)
  Node : option vertex_t -> node_t -> node_t;
  (** [node.coord] *)
  coord : node_t -> vertex_t
}.

Section Paths.
Context {vertex_t obstacles_t node_t : Type} `{Countable vertex_t}.
Context `{!Externals vertex_t obstacles_t} `{!Nodes vertex_t node_t}.

Local Abbreviation Mp := (M (@planner vertex_t obstacles_t _ _)).

(** ** Extracting the path ([rrtstar.py]) *)

(** The [while curr != root] loop; [curr] is a point or [None], and so is
    what the path list holds. The [render] call before the [break] draws a
    figure and leaves the planner as it is. *)
Fixpoint extract_path_while (fuel : nat) (root : vertex_t) (reverse : bool)
    (curr : option vertex_t) (path : list (option vertex_t))
    : Mp (list (option vertex_t)) :=
  if bool_decide (curr <> Some root) then
    match fuel with
    | O => out_of_fuel
    | S fuel' =>
        match curr with
        | None => ret path
        | Some c =>
            if reverse then
              let* curr := get_parent c false in
              extract_path_while fuel' root reverse curr (path ++ [curr])
            else
              let* next := get_parent c false in
              extract_path_while fuel' root reverse next (path ++ [Some c])
        end
    end
  else ret path.

(** The [for i, pt in enumerate(path)] loop: the parent of a node is the
    node before it, and that of the first is [self.curr_pos]. *)
Fixpoint node_path (previous : node_t) (path : list (option vertex_t)) : list node_t :=
  match path with
  | [] => []
  | pt :: rest => Node pt previous :: node_path (Node pt previous) rest
  end.

(** [extract_path(endpoint=..., root=..., reverse=...)]. The planner record
    keeps the coordinate of [self.curr_pos]; the node itself is passed in
    as [position]. *)
Definition extract_path (fuel : nat) (position : node_t) (endpoint : option vertex_t)
    (root : vertex_t) (reverse : bool) : Mp (list node_t) :=
  let* path := extract_path_while fuel root reverse endpoint [] in
  let path := if reverse then path else list.reverse path in
  ret (node_path position path).

End Paths.

(** ** Pushing a point by the field and rewiring ([farrtstar2.py]) *)

Section FieldRewiring.
Context {vertex_t obstacles_t : Type} `{Countable vertex_t}.
Context `{!Externals vertex_t obstacles_t}.

Local Abbreviation Mp := (M (@planner vertex_t obstacles_t _ _)).

(** [pt.x], [pt.y] *)
Variable pt_x pt_y : vertex_t -> Q.
(** [self.potential_field_force * self.explored_region.area /
    self.detected_obstacles.area]; no constructor at hand assigns
    [explored_region] *)
Variable default_field_force : @planner vertex_t obstacles_t _ _ -> result Q.
(** [self.tree_attr_force], [self.goal_attr_force] *)
Variable tree_attr_force goal_attr_force : Q.
(** [nearby_pts.centroid] *)
Variable centroid : list vertex_t -> vertex_t.
(** [np.linalg.norm(np.array([a, b]))] *)
Variable norm : Q -> Q -> Q.

Definition apply_field_to_pt (pt : vertex_t) (field_force tree_force goal_force : option Q)
    : Mp vertex_t :=
  let* s := get in
  let* field_force :=
    match field_force with
    | Some f => ret f
    | None => lift (default_field_force s)
    end in
  let tree_force := default tree_attr_force tree_force in
  let goal_force := default goal_attr_force goal_force in
  let xInd := Z.min (Z.max 0 (Qfloor (pt_x pt))) ((world_dims s).1 - 1) in
  let yInd := Z.min (Z.max 0 (Qfloor (pt_y pt))) ((world_dims s).2 - 1) in
  let* force := lift (field_getitem (potential_field s) yInd xInd) in
  let dx := (force.1 * field_force)%Q in
  let dy := (force.2 * field_force)%Q in
  let* nearby_pts :=
    invoke "find_nearby_pts" ["radius"; "pt_source"] (find_nearby_pts pt) in
  let '(dx, dy) :=
    match nearby_pts with
    | [] => (dx, dy)
    | _ =>
        let avg_tree_point := centroid nearby_pts in
        let diff0 := (pt_x avg_tree_point - pt_x pt)%Q in
        let diff1 := (pt_y avg_tree_point - pt_y pt)%Q in
        let scale := (tree_force / norm diff0 diff1)%Q in
        ((dx + diff0 * scale)%Q, (dy + diff1 * scale)%Q)
    end in
  let goal_diff0 := (pt_x (x_goal_pt s) - pt_x pt)%Q in
  let goal_diff1 := (pt_y (x_goal_pt s) - pt_y pt)%Q in
  let goal_scale := (goal_force / norm goal_diff0 goal_diff1)%Q in
  let dx := (dx + goal_diff0 * goal_scale)%Q in
  let dy := (dy + goal_diff1 * goal_scale)%Q in
  let newX := Qmin (Qmax 0 (pt_x pt + dx)) (inject_Z (world_dims s).1) in
  let newY := Qmin (Qmax 0 (pt_y pt + dy)) (inject_Z (world_dims s).2) in
  ret (Point newX newY).

(** One pass through the body of the rewiring loop: whether it ended in
    [break], and the new [final_pt] and [final_pt_cost]. [find_ball_radius]
    is a function nested in [find_nearby_pts], no attribute of the planner;
    [free_points], which nothing else reads, is left out. *)
Definition farrt_step (fuel : nat) (goal : vertex_t)
    (final_pt : option vertex_t) (final_pt_cost : pyfloat)
    : Mp (bool * option vertex_t * pyfloat) :=
  let* nonempty := queue_not_empty in
  let* x_free := if (nonempty : bool) then popPQ else sample_free fuel goal (Some 0%Q) in
  let* s := get in
  let* x_field :=
    if bool_decide (x_free <> curr_pos s)
    then apply_field_to_pt x_free None None None
    else ret x_free in
  let* x_nearest := invoke "find_nearest" ["pt_source"] (find_nearest x_field) in
  let* x_new := steer x_nearest x_field in
  let* free := edge_obstacle_free x_nearest x_new in
  if free then
    let* _ :=
      invoke "find_ball_radius" ["num_vertices"]
        (no_such_method "find_ball_radius" : Mp Q) in
    let* nearby_points :=
      invoke "find_nearby_pts" ["radius"; "pt_source"] (find_nearby_pts x_new) in
    let* (x_min, min_cost) := get_min_cost_point nearby_points x_nearest x_new in
    let* _ := add_vertex x_new x_min min_cost in
    let* _ := do_rrtstar_rewiring nearby_points x_min x_new in
    let* s := get in
    let* _ := for_each (List.filter (fun p => bool_decide (p ∉ rrt_tree s)) nearby_points)
                verify_queue in
    let* reached := reached_goal x_new (Some goal) (Some 0%Q) in
    if reached then
      let* s := get in
      if built_tree s then ret (true, Some x_new, final_pt_cost)
      else if pyfloat_ltb min_cost final_pt_cost then ret (false, Some x_new, min_cost)
      else ret (false, final_pt, final_pt_cost)
    else ret (false, final_pt, final_pt_cost)
  else ret (false, final_pt, final_pt_cost).

(** The [while] loop of [do_farrt_rewiring]. *)
Fixpoint farrt_loop (fuel : nat) (goal : vertex_t) (i : Z)
    (final_pt : option vertex_t) (final_pt_cost : pyfloat)
    : Mp (option vertex_t * pyfloat) :=
  let* continue := farrt_guard final_pt in
  if (continue : bool) then
    match fuel with
    | O => out_of_fuel
    | S fuel' =>
        let* (broke, final_pt', final_pt_cost') :=
          farrt_step fuel' goal final_pt final_pt_cost in
        if (broke : bool) then ret (final_pt', final_pt_cost')
        else farrt_loop fuel' goal (i + 1) final_pt' final_pt_cost'
    end
  else ret (final_pt, final_pt_cost).

(** [do_farrt_rewiring(goal=..., initial_frontier=...)]; the frontier is
    only drawn. *)
Definition do_farrt_rewiring (fuel : nat) (goal : vertex_t)
    (initial_frontier : gset vertex_t) : Mp (option vertex_t * pyfloat) :=
  farrt_loop fuel goal 0 None Inf.

End FieldRewiring.

(** ** The planner in its world ([PartiallyObservablePlanner.py])

    What the planner asks of shapely and of the world object when it
    observes and replans. *)

Class Surroundings (vertex_t obstacles_t node_t : Type) `{Countable vertex_t} : Type := {
  (** [self.world.make_observations(self.curr_pos, self.vision_radius)];
      [None] when the query falls through both of its [isinstance] tests *)
  world_make_observations : node_t -> Q -> option obstacles_t;
  (** [a - b] *)
  obstacles_difference : obstacles_t -> obstacles_t -> obstacles_t;
  (** [a.union(b)] *)
  obstacles_union : obstacles_t -> obstacles_t -> obstacles_t;
  (** [g.is_empty] *)
  obstacles_is_empty : obstacles_t -> bool;
  (** [g.geoms] *)
  obstacles_geoms : obstacles_t -> result (list Polygon);
  (** [LineString(path).intersects(g)] *)
  path_intersects : list vertex_t -> obstacles_t -> bool;
  (** [as_multipoint(tree.intersection(g.buffer(r)))] *)
  tree_within : gset vertex_t -> obstacles_t -> Q -> gset vertex_t;
  (** [as_multipoint(points.intersection(g))] *)
  points_inside : gset vertex_t -> obstacles_t -> gset vertex_t;
  (** [node.parent] *)
  node_parent : node_t -> option node_t;
  (** [node.edgeToParent().intersects(g)] *)
  edge_to_parent_intersects : node_t -> obstacles_t -> bool;
  (** [a.same_as(b)] *)
  same_as : node_t -> node_t -> bool
}.

(** How many positional parameters the methods of
    [PartiallyObservablePlanner] declare, [self] among them (the static
    [default_run_count] apart): [update_plan] is declared without any. *)
Definition PartiallyObservablePlanner_positional : list (string * nat) :=
  [ ("__init__", 4); ("observe_world", 1); ("update_plan", 0); ("handle_new_obstacles", 2);
    ("handle_deleted_obstacles", 2); ("step_through_plan", 1); ("run", 1);
    ("get_render_kwargs", 1); ("tmp_img_path", 3); ("render", 4); ("save_gif", 1);
    ("delete_tmps", 1) ]%nat.

(** [super().name(args)] in a method of [RRTStar]: the method of the base
    class is bound to [self] and called with the arguments; one positional
    argument more than it declares is a [TypeError]. *)
Definition invoke_base {St A} (name : string) (args : nat) (body : M St A) : M St A :=
  match List.find (fun p => String.eqb p.1 name) PartiallyObservablePlanner_positional with
  | None => raise (AttributeError name)
  | Some (_, declared) =>
      if (S args <=? declared)%nat then body else raise (TypeError name)
  end.

(** [super().name] in a method of [FARRTStar2]: [RRTStar], then
    [PartiallyObservablePlanner]. *)
Definition above_FARRTStar2 (name : string) : option method_sig :=
  match lookup_method RRTStar_methods name with
  | Some m => Some m
  | None => lookup_method PartiallyObservablePlanner_methods name
  end.

Section Robot.
Context {vertex_t obstacles_t node_t : Type} `{Countable vertex_t}.
Context `{!Externals vertex_t obstacles_t} `{!Nodes vertex_t node_t}.
Context `{!Surroundings vertex_t obstacles_t node_t}.

Variable gaussian_filter : list (list Q) -> Q -> list (list Q).
Variable np_gradient : list (list Q) -> result (list (list Q) * list (list Q)).
Variable pt_x pt_y : vertex_t -> Q.
Variable default_field_force : @planner vertex_t obstacles_t _ _ -> result Q.
Variable tree_attr_force goal_attr_force : Q.
Variable centroid : list vertex_t -> vertex_t.
Variable norm : Q -> Q -> Q.

Local Abbreviation tree_t := (@planner vertex_t obstacles_t _ _).

Definition set_detected_obstacles (f : obstacles_t -> obstacles_t) (s : tree_t) : tree_t :=
  Planner (world_dims s) (curr_pos s) (f (detected_obstacles s)) (iters s) (eps s)
    (steer_distance s) (obstacle_avoidance_radius s) (x_goal_pt s)
    (rrt_tree s) (rrt_vertices s) (rrt_edges s) (child_to_parent_map s)
    (parent_to_children_map s) (cost_to_reach s) (goal_reached_thresh s)
    (built_tree s) (potential_field s) (rewiringPQ s) (queue_key_map s)
    (random_draws s).

Definition set_built_tree (f : bool -> bool) (s : tree_t) : tree_t :=
  Planner (world_dims s) (curr_pos s) (detected_obstacles s) (iters s) (eps s)
    (steer_distance s) (obstacle_avoidance_radius s) (x_goal_pt s)
    (rrt_tree s) (rrt_vertices s) (rrt_edges s) (child_to_parent_map s)
    (parent_to_children_map s) (cost_to_reach s) (goal_reached_thresh s)
    (f (built_tree s)) (potential_field s) (rewiringPQ s) (queue_key_map s)
    (random_draws s).

Definition set_curr_pos (f : vertex_t -> vertex_t) (s : tree_t) : tree_t :=
  Planner (world_dims s) (f (curr_pos s)) (detected_obstacles s) (iters s) (eps s)
    (steer_distance s) (obstacle_avoidance_radius s) (x_goal_pt s)
    (rrt_tree s) (rrt_vertices s) (rrt_edges s) (child_to_parent_map s)
    (parent_to_children_map s) (cost_to_reach s) (goal_reached_thresh s)
    (built_tree s) (potential_field s) (rewiringPQ s) (queue_key_map s)
    (random_draws s).

(** The planner object whole: the attributes of [RRTStar] and [FARRTStar2]
    (with the coordinate of [self.curr_pos]) in [tree], and those of
    [PartiallyObservablePlanner] that hold nodes. Drawing and the files of
    the [gui] leave all of it as it is and are left out. The object is one
    whose [detected_obstacles] has been assigned: none of the three
    constructors assigns it, and [observe_world] reads it before it writes
    it. *)
Record robot : Type := Robot {
  tree : tree_t;
  (** [self.curr_pos] *)
  curr_node : node_t;
  x_goal : node_t;
  planned_path : list node_t;
  vision_radius : Q
}.

Definition set_tree (f : tree_t -> tree_t) (r : robot) : robot :=
  Robot (f (tree r)) (curr_node r) (x_goal r) (planned_path r) (vision_radius r).

Definition set_planned_path (f : list node_t -> list node_t) (r : robot) : robot :=
  Robot (tree r) (curr_node r) (x_goal r) (f (planned_path r)) (vision_radius r).

(** [self.curr_pos = node] *)
Definition set_curr_node (node : node_t) (r : robot) : robot :=
  Robot (set_curr_pos (fun _ => coord node) (tree r)) node (x_goal r) (planned_path r)
    (vision_radius r).

(** A method that touches the attributes in [tree] only. *)
Definition on_tree {A} (m : M tree_t A) : M robot A :=
  fun r => let '(t, o) := m (tree r) in (set_tree (fun _ => t) r, o).

(** ** Severing the tree ([farrtstar2.py]) *)

(** [self.get_parent(point)], [allow_none] left at [False]: the parent, a
    point, or the [ValueError] of [get_parent]. *)
Definition get_parent_point (point : vertex_t) : M tree_t vertex_t :=
  let* parent := get_parent point false in
  match parent with
  | Some parent => ret parent
  | None => raise ValueError
  end.

(** Modelled from the spec: [farrt.utils.multipoint_without(g, pts)] for a
    collection of points [pts], absent from the sources; the spec's
    "frontier ← V ∩ buffer(O, r_av) ∖ conflict₀" and
    "freed = severed ∖ conflict". *)
Definition multipoint_without_all (g pts : gset vertex_t) : gset vertex_t :=
  g ∖ pts.

(** The [while not severed_children_q.empty()] loop. *)
Fixpoint sever_bfs (fuel : nat) (severed_children_q : list vertex_t)
    (severed_children : gset vertex_t) : M tree_t (gset vertex_t) :=
  match severed_children_q with
  | [] => ret severed_children
  | point :: rest =>
      match fuel with
      | O => out_of_fuel
      | S fuel' =>
          let severed_children := severed_children ∪ {[point]} in
          let* children := get_children point in
          let new_children := children ∖ severed_children in
          sever_bfs fuel' (rest ++ elements new_children) severed_children
      end
  end.

(** The points in conflict: those of the tree within half the avoidance
    radius of an obstacle, and the parents of the plan's nodes whose edge
    to the parent meets an obstacle. *)
Definition conflicting (s : tree_t) (previous_plan : list node_t) : gset vertex_t :=
  fold_left
    (fun conflicting_pts node =>
       match node_parent node with
       | Some parent =>
           if edge_to_parent_intersects node (detected_obstacles s)
           then conflicting_pts ∪ {[coord parent]}
           else conflicting_pts
       | None => conflicting_pts
       end)
    previous_plan
    (tree_within (rrt_tree s) (detected_obstacles s) (obstacle_avoidance_radius s / 2)).

(** The [for pt in conflicting_pts.geoms] loop: the parents join the
    closest parents and the points the queue. *)
Fixpoint collect_parents (pts : list vertex_t) (closest_parents : gset vertex_t)
    (severed_children_q : list vertex_t) : M tree_t (gset vertex_t * list vertex_t) :=
  match pts with
  | [] => ret (closest_parents, severed_children_q)
  | pt :: rest =>
      let* parent := get_parent_point pt in
      collect_parents rest (closest_parents ∪ {[parent]}) (severed_children_q ++ [pt])
  end.

(** No class defines [point_obstacle_free]. The closing [render] draws a
    figure. *)
Definition do_tree_severing (fuel : nat) (previous_plan : list node_t)
    : M tree_t (gset vertex_t * gset vertex_t * gset vertex_t) :=
  let* s := get in
  let conflicting_pts := conflicting s previous_plan in
  let closest_parents :=
    multipoint_without_all
      (tree_within (rrt_tree s) (detected_obstacles s) (obstacle_avoidance_radius s))
      conflicting_pts in
  let* (closest_parents, severed_children_q) :=
    collect_parents (elements conflicting_pts) closest_parents [] in
  let closest_parents := closest_parents ∖ conflicting_pts in
  let* severed_children := sever_bfs fuel severed_children_q ∅ in
  let* _ := for_each (elements severed_children) sever_connections in
  let* _ := for_each (elements severed_children) (fun child =>
              let* free :=
                invoke "point_obstacle_free" []
                  (no_such_method "point_obstacle_free" : M tree_t bool) in
              if free then insertPQ child else ret tt) in
  let* s := get in
  let conflicting_pts := points_inside conflicting_pts (detected_obstacles s) in
  let freed_pts := multipoint_without_all severed_children conflicting_pts in
  let closest_parents := closest_parents ∖ freed_pts in
  ret (conflicting_pts, closest_parents, freed_pts).

(** ** Planning and replanning *)

(** [RRTStar.do_first_plan] *)
Definition do_first_plan (fuel : nat) : M robot unit :=
  let* _ := modify (set_planned_path (fun _ => [])) in
  let* r := get in
  let* (final_pt, final_cost) :=
    on_tree (build_rrt_tree fuel (x_goal_pt (tree r)) (curr_pos (tree r)) (Some 0%Q)) in
  let* _ := on_tree (modify (set_built_tree (fun _ => true))) in
  let* r := get in
  let* path :=
    on_tree (extract_path fuel (curr_node r) final_pt (x_goal_pt (tree r)) true) in
  modify (set_planned_path (fun _ => path)).

(** [RRTStar.replan], which a [FARRTStar2] overrides; [new_obstacles] goes
    to the drawing only. *)
Definition RRTStar_replan (fuel : nat) (new_obstacles : obstacles_t) : M robot unit :=
  let* _ := modify (set_planned_path (fun _ => [])) in
  let* r := get in
  let* (final_pt, final_cost) :=
    on_tree (build_rrt_tree fuel (x_goal_pt (tree r)) (curr_pos (tree r)) (Some 0%Q)) in
  let* r := get in
  let* path :=
    on_tree (extract_path fuel (curr_node r) final_pt (x_goal_pt (tree r)) true) in
  modify (set_planned_path (fun _ => path)).

(** [FARRTStar2.replan] *)
Definition replan (fuel : nat) (new_obstacles : obstacles_t) : M robot unit :=
  let* r := get in
  let previous_plan := planned_path r in
  let* _ := modify (set_planned_path (fun _ => [])) in
  let* (_, closest_parents, _) := on_tree (do_tree_severing fuel previous_plan) in
  let* geoms := lift (obstacles_geoms new_obstacles) in
  let* _ := on_tree (update_potential_field gaussian_filter np_gradient geoms) in
  let* r := get in
  let* (final_pt, final_cost) :=
    on_tree (do_farrt_rewiring pt_x pt_y default_field_force tree_attr_force
               goal_attr_force centroid norm fuel (curr_pos (tree r)) closest_parents) in
  let* r := get in
  let* path :=
    on_tree (extract_path fuel (curr_node r) final_pt (x_goal_pt (tree r)) true) in
  modify (set_planned_path (fun _ => path)).

(** [RRTStar.handle_new_obstacles]; on a [FARRTStar2] the [replan] it
    calls is the one above. *)
Definition handle_new_obstacles (fuel : nat) (new_obstacles : obstacles_t)
    : M robot unit :=
  let* r := get in
  if negb (built_tree (tree r)) then do_first_plan fuel
  else if obstacles_is_empty new_obstacles then ret tt
  else
    match planned_path r with
    | [] => ret tt
    | _ =>
        let path := curr_pos (tree r) :: (coord <$> planned_path r) in
        if path_intersects path new_obstacles then replan fuel new_obstacles
        else ret tt
    end.

(** [RRTStar.handle_deleted_obstacles] *)
Definition handle_deleted_obstacles (deleted_obstacles : obstacles_t) : M robot unit :=
  invoke_base "handle_deleted_obstacles" 1 (ret tt).

(** [RRTStar.update_plan] *)
Definition update_plan : M robot unit :=
  invoke_base "update_plan" 0 (ret tt).

(** [FARRTStar2.setup_planner] *)
Definition setup_planner : M tree_t unit :=
  let* s := get in
  let* _ :=
    if negb (obstacles_is_empty (detected_obstacles s)) then
      let* geoms := lift (obstacles_geoms (detected_obstacles s)) in
      update_potential_field gaussian_filter np_gradient geoms
    else ret tt in
  match above_FARRTStar2 "setup_planner" with
  | None => raise (AttributeError "setup_planner")
  | Some _ => ret tt
  end.

(** ** Observing and running ([PartiallyObservablePlanner.py]) *)

(** [None - geometry] is a [TypeError]. *)
Definition observe_world (fuel : nat) : M robot unit :=
  let* r := get in
  match world_make_observations (curr_node r) (vision_radius r) with
  | None => raise (TypeError "__sub__")
  | Some observations =>
      let new_obstacles := obstacles_difference observations (detected_obstacles (tree r)) in
      let deleted_obstacles :=
        obstacles_difference (detected_obstacles (tree r)) observations in
      let* _ := on_tree (modify (set_detected_obstacles
                  (fun detected => obstacles_union detected observations))) in
      let* _ := if negb (obstacles_is_empty new_obstacles)
                then handle_new_obstacles fuel new_obstacles
                else ret tt in
      if negb (obstacles_is_empty deleted_obstacles)
      then handle_deleted_obstacles deleted_obstacles
      else ret tt
  end.

Definition step_through_plan : M robot node_t :=
  let* r := get in
  match planned_path r with
  | [] => ret (curr_node r)
  | node :: rest =>
      let* _ := modify (set_planned_path (fun _ => rest)) in
      ret node
  end.

(** The [while not self.curr_pos.same_as(self.x_goal)] loop of [run]. *)
Fixpoint run_loop (fuel : nat) (step : Z) : M robot unit :=
  let* r := get in
  if negb (same_as (curr_node r) (x_goal r)) then
    match fuel with
    | O => out_of_fuel
    | S fuel' =>
        let* next_node := step_through_plan in
        let* _ := modify (set_curr_node next_node) in
        let* _ := observe_world fuel' in
        let* _ := update_plan in
        run_loop fuel' (step + 1)
    end
  else ret tt.

Definition run (fuel : nat) : M robot unit :=
  let* _ := observe_world fuel in
  run_loop fuel 0.

End Robot.

(** ** The world ([world.py]) *)

Record World : Type := {
  dims : Z * Z;
  obstacles : BaseGeometry
}.

Section Observation.
(** [position.buffer(radius)] and [obstacles.intersection(circle)] *)
Variable buffer : Q * Q -> Q -> Polygon.
Variable intersection : BaseGeometry -> Polygon -> BaseGeometry.

(** The result is [None] when neither [isinstance] test holds. *)
Definition make_observations (w : World) (position : Q * Q) (radius : Q)
    : option BaseGeometry :=
  let circle := buffer position radius in
  let obstervation := intersection (obstacles w) circle in
  match obstervation with
  | GeomMultiPolygon _ => Some obstervation
  | GeomPolygon p => Some (GeomMultiPolygon [p])
  | _ => None
  end.

End Observation.

(** ** A lattice world

    A concrete world for the examples: points with integer coordinates,
    obstacles given by the lattice points they cover, and the taxicab metric,
    which is the Euclidean one along an axis (the examples keep their points
    on the line [y = 50]). *)

Module Lattice.

Definition taxicab (a b : Z * Z) : Q :=
  inject_Z (Z.abs (a.1 - b.1) + Z.abs (a.2 - b.2)).

Definition lattice_point (x y : Q) : Z * Z := (Qfloor x, Qfloor y).

Definition lattice_interpolate (a b : Z * Z) (f : Q) : Z * Z :=
  ((a.1 + Qfloor (f * inject_Z (b.1 - a.1)))%Z,
   (a.2 + Qfloor (f * inject_Z (b.2 - a.2)))%Z).

Definition closest (g : gset (Z * Z)) (q : Z * Z) : result (Z * Z) :=
  match elements g with
  | [] => Raises ValueError
  | v :: rest =>
      Returns (fold_left
            (fun best w => if Qltb (taxicab w q) (taxicab best q) then w else best)
            rest v)
  end.

Definition in_box (a b p : Z * Z) : bool :=
  (Z.min a.1 b.1 <=? p.1)%Z && (p.1 <=? Z.max a.1 b.1)%Z
  && (Z.min a.2 b.2 <=? p.2)%Z && (p.2 <=? Z.max a.2 b.2)%Z.

Definition blocked_edge (covered : list (Z * Z)) (a b : Z * Z) : bool :=
  existsb (in_box a b) covered.

Definition blocked_disc (covered : list (Z * Z)) (p : Z * Z) (r : Q) : bool :=
  Qltb 0 r && existsb (fun o => Qle_bool (taxicab o p) r) covered.

Definition within (g : gset (Z * Z)) (p : Z * Z) (r : Q) : list (Z * Z) :=
  List.filter (fun v => Qle_bool (taxicab v p) r) (elements g).

Definition lex_ltb (a b : Z * Z) : bool :=
  (a.1 <? b.1)%Z || ((a.1 =? b.1)%Z && (a.2 <? b.2)%Z).

(** The world answers [getBounds] with a 100 by 100 box, every draw of the
    random source is [0], and [pt2tuple(None)] raises. *)
Definition world : Externals (Z * Z) (list (Z * Z)) := {|
  Point := lattice_point;
  distance := taxicab;
  interpolate := lattice_interpolate;
  nearest_points := closest;
  intersects_buffer := blocked_disc;
  intersects_edge := blocked_edge;
  points_in_buffer := within;
  gamma_ball := fun gamma n => if (n =? 0)%nat then Raises ValueError else Returns gamma;
  getBounds := Returns (0, 0, 100, 100)%Q;
  random_tape := fun _ => 0%Q;
  pt2tuple_None := Raises (AttributeError "coords");
  vertex_ltb := lex_ltb
|}.

(** [world] with every draw of the random source equal to [draw]. *)
Definition steady (draw : Q) : Externals (Z * Z) (list (Z * Z)) := {|
  Point := lattice_point;
  distance := taxicab;
  interpolate := lattice_interpolate;
  nearest_points := closest;
  intersects_buffer := blocked_disc;
  intersects_edge := blocked_edge;
  points_in_buffer := within;
  gamma_ball := fun gamma n => if (n =? 0)%nat then Raises ValueError else Returns gamma;
  getBounds := Returns (0, 0, 100, 100)%Q;
  random_tape := fun _ => draw;
  pt2tuple_None := Raises (AttributeError "coords");
  vertex_ltb := lex_ltb
|}.

(** [world] with the random source reading its draws off [tape]. *)
Definition drawn (tape : nat -> Q) : Externals (Z * Z) (list (Z * Z)) := {|
  Point := lattice_point;
  distance := taxicab;
  interpolate := lattice_interpolate;
  nearest_points := closest;
  intersects_buffer := blocked_disc;
  intersects_edge := blocked_edge;
  points_in_buffer := within;
  gamma_ball := fun gamma n => if (n =? 0)%nat then Raises ValueError else Returns gamma;
  getBounds := Returns (0, 0, 100, 100)%Q;
  random_tape := tape;
  pt2tuple_None := Raises (AttributeError "coords");
  vertex_ltb := lex_ltb
|}.

(** [world] with a world object that has no [getBounds], as [world.py]'s
    [World] has none. *)
Definition world_without_bounds : Externals (Z * Z) (list (Z * Z)) := {|
  Point := lattice_point;
  distance := taxicab;
  interpolate := lattice_interpolate;
  nearest_points := closest;
  intersects_buffer := blocked_disc;
  intersects_edge := blocked_edge;
  points_in_buffer := within;
  gamma_ball := fun gamma n => if (n =? 0)%nat then Raises ValueError else Returns gamma;
  getBounds := Raises (AttributeError "getBounds");
  random_tape := fun _ => 0%Q;
  pt2tuple_None := Raises (AttributeError "coords");
  vertex_ltb := lex_ltb
|}.

(** A planner as the constructors leave it: empty tree, empty queue, zero
    field. *)
Definition new_planner (shape : Z * Z) (start goal : Z * Z) (covered : list (Z * Z))
    (n_iters : Z) : @planner (Z * Z) (list (Z * Z)) _ _ := {|
  world_dims := shape;
  curr_pos := start;
  detected_obstacles := covered;
  iters := n_iters;
  eps := 1 # 100;
  steer_distance := 10 # 3;
  obstacle_avoidance_radius := 20 # 9;
  x_goal_pt := goal;
  rrt_tree := ∅;
  rrt_vertices := ∅;
  rrt_edges := ∅;
  child_to_parent_map := ∅;
  parent_to_children_map := ∅;
  cost_to_reach := ∅;
  goal_reached_thresh := 1;
  built_tree := false;
  potential_field := replicate (Z.to_nat shape.1) (replicate (Z.to_nat shape.2) (0, 0)%Q);
  rewiringPQ := [];
  queue_key_map := ∅;
  random_draws := 0
|}.

(** A node as the planner sees one: its point and its parent. *)
Inductive lattice_node : Type :=
  | Orphan (pt : option (Z * Z))
  | Child (pt : option (Z * Z)) (parent : lattice_node).

Definition node_point (node : lattice_node) : Z * Z :=
  match node with
  | Orphan (Some p) | Child (Some p) _ => p
  | Orphan None | Child None _ => (0, 0)%Z
  end.

Definition nodes : Nodes (Z * Z) lattice_node := {|
  Node := Child;
  coord := node_point
|}.

(** The unit square around a lattice point. *)
Definition cell (p : Z * Z) : Polygon := {|
  bounds := (inject_Z p.1 - (1 # 2), inject_Z p.2 - (1 # 2),
             inject_Z p.1 + (1 # 2), inject_Z p.2 + (1 # 2))%Q;
  contains := fun x y => (x =? p.1)%Z && (y =? p.2)%Z
|}.

Definition covers (covered : list (Z * Z)) (p : Z * Z) : bool :=
  existsb (fun o => bool_decide (o = p)) covered.

Fixpoint blocked_path (covered : list (Z * Z)) (path : list (Z * Z)) : bool :=
  match path with
  | a :: (b :: _) as rest => blocked_edge covered a b || blocked_path covered rest
  | _ => false
  end.

(** The world holds the obstacles [truth] and shows those within the radius
    of the position; with none of them in sight it answers [out_of_sight]. *)
Definition surroundings (truth : list (Z * Z)) (out_of_sight : option (list (Z * Z)))
    : Surroundings (Z * Z) (list (Z * Z)) lattice_node := {|
  world_make_observations := fun position radius =>
    match List.filter (fun o => Qle_bool (taxicab o (node_point position)) radius) truth with
    | [] => out_of_sight
    | seen => Some seen
    end;
  obstacles_difference := fun a b => List.filter (fun o => negb (covers b o)) a;
  obstacles_union := fun a b => (a ++ List.filter (fun o => negb (covers a o)) b)%list;
  obstacles_is_empty := fun g => match g with [] => true | _ => false end;
  obstacles_geoms := fun g => Returns (cell <$> g);
  path_intersects := fun path g => blocked_path g path;
  tree_within := fun tree g r =>
    list_to_set (List.filter (fun v => blocked_disc g v r) (elements tree));
  points_inside := fun pts g => list_to_set (List.filter (covers g) (elements pts));
  node_parent := fun node =>
    match node with
    | Child _ parent => Some parent
    | Orphan _ => None
    end;
  edge_to_parent_intersects := fun node g =>
    match node with
    | Child _ parent => blocked_edge g (node_point node) (node_point parent)
    | Orphan _ => false
    end;
  same_as := fun a b => bool_decide (node_point a = node_point b)
|}.

(** The coordinates of a point, the first of a list of points for their
    centroid, the taxicab norm, and a field force that cannot be computed,
    as [explored_region] is never assigned. *)
Definition x_of (p : Z * Z) : Q := inject_Z p.1.
Definition y_of (p : Z * Z) : Q := inject_Z p.2.
Definition first_of (pts : list (Z * Z)) : Z * Z := hd (0, 0)%Z pts.
Definition taxicab_norm (x y : Q) : Q := (Qmax x (- x) + Qmax y (- y))%Q.
Definition no_field_force (s : @planner (Z * Z) (list (Z * Z)) _ _) : result Q :=
  Raises (AttributeError "explored_region").

End Lattice.

(** ** Reference versions of the two array routines

    [np.gradient] as numpy documents it for unit spacing: one-sided
    differences at the two ends of an axis, central differences inside, an
    error on an axis shorter than 2; and a blur that changes nothing. *)

Module Reference.

Section Differences.
Context {A : Type} (sub : A -> A -> A) (half : A -> A).

Fixpoint central (prev cur : A) (rest : list A) : list A :=
  match rest with
  | [] => [sub cur prev]
  | next :: rest' => half (sub next prev) :: central cur next rest'
  end.

Definition differences (l : list A) : option (list A) :=
  match l with
  | a :: b :: rest => Some (sub b a :: central a b rest)
  | _ => None
  end.

End Differences.

Definition halve (v : Q) : Q := (v / 2)%Q.

(** [(dy, dx)]: differences down the rows, then along each row. *)
Definition np_gradient (a : list (list Q)) : result (list (list Q) * list (list Q)) :=
  match differences (zip_with Qminus) (fmap halve) a,
        mapM (differences Qminus halve) a with
  | Some dy, Some dx => Returns (dy, dx)
  | _, _ => Raises ValueError
  end.

Definition no_blur (a : list (list Q)) (sigma : Q) : list (list Q) := a.

End Reference.

Section LatticeExamples.
#[local] Existing Instance Lattice.world.
#[local] Existing Instance Lattice.nodes.

(** ** Planners on the line [y = 50]

    The tree is rooted at the goal [(10, 50)] and grows towards the
    robot at [(12, 50)]. *)

(** Nothing in the way. *)
Definition open_line : planner :=
  Lattice.new_planner (100, 100)%Z (12, 50)%Z (10, 50)%Z [] 2.

(** The root with one leaf, built by the tree store's own operations. *)
Definition root_and_leaf : planner :=
  (add_vertex (20, 50)%Z (10, 50)%Z (Fin 10)
     (add_start_vertex (10, 50)%Z open_line).1).1.

(** A queue whose head [(5, (40,50))] is stale and whose second entry
    [(7, (50,50))] is live. *)
Definition stale_then_live : planner :=
  set_queue_key_map (fun _ => {[ (50, 50)%Z := Fin 7 ]})
    (set_rewiringPQ (fun _ => [(Fin 5, (40, 50)%Z); (Fin 7, (50, 50)%Z)]) open_line).

(** A square obstacle around the grid point [(1, 1)]. *)
Definition unit_cell : Polygon := {|
  bounds := (1 # 2, 1 # 2, 3 # 2, 3 # 2)%Q;
  contains := fun x y => (x =? 1)%Z && (y =? 1)%Z
|}.

(** The diamond [position.buffer(radius, 1)] stands in for the vision
    disc: it has the four axis points of the disc, as the 64-cornered
    polygon of [position.buffer(radius)] has. *)
Definition diamond_buffer (position : Q * Q) (radius : Q) : Polygon := {|
  bounds := (position.1 - radius, position.2 - radius,
             position.1 + radius, position.2 + radius)%Q;
  contains := fun x y =>
    Qltb (Qmax (inject_Z x - position.1) (position.1 - inject_Z x)
          + Qmax (inject_Z y - position.2) (position.2 - inject_Z y)) radius
|}.

(** [POLYGON EMPTY] *)
Definition empty_polygon : Polygon := {|
  bounds := (0, 0, 0, 0)%Q;
  contains := fun _ _ => false
|}.

(** How far [p] lies outside the interval from [lo] to [hi], and the point
    of the interval nearest to it. *)
Definition outside (p lo hi : Q) : Q := Qmax 0 (Qmax (lo - p) (p - hi)).
Definition clamp (p lo hi : Q) : Q := Qmax lo (Qmin p hi).

(** What an axis-parallel box and a diamond share: a piece with area, one
    point of their boundaries, or nothing. *)
Inductive shared : Type :=
  | SharedArea (piece : Polygon)
  | SharedPoint (p : Q * Q)
  | SharedNothing.

Definition box_meets_diamond (P circle : Polygon) : shared :=
  let '(minx, miny, maxx, maxy) := bounds P in
  let '(cminx, cminy, cmaxx, cmaxy) := bounds circle in
  let px := ((cminx + cmaxx) / 2)%Q in
  let py := ((cminy + cmaxy) / 2)%Q in
  let r := ((cmaxx - cminx) / 2)%Q in
  let dx := outside px minx maxx in
  let dy := outside py miny maxy in
  if Qltb (dx + dy) r then
    SharedArea {|
      bounds := (Qmax minx (px - (r - dy)), Qmax miny (py - (r - dx)),
                 Qmin maxx (px + (r - dy)), Qmin maxy (py + (r - dx)))%Q;
      contains := fun x y => contains P x y && contains circle x y
    |}
  else if Qltb r (dx + dy) then SharedNothing
  else SharedPoint (clamp px minx maxx, clamp py miny maxy).

(** Stands in for [obstacles.intersection(circle)] on obstacles that are
    axis-parallel boxes, with the answers of GEOS from 3.9 on: nothing
    shared is [POLYGON EMPTY], one shared piece is a polygon, several are a
    multi-polygon, a single shared boundary point is a point, and anything
    else a collection. *)
Definition clip (g : BaseGeometry) (circle : Polygon) : BaseGeometry :=
  match g with
  | GeomMultiPolygon geoms =>
      let parts := (fun P => box_meets_diamond P circle) <$> geoms in
      let pieces :=
        omap (fun part => match part with SharedArea piece => Some piece | _ => None end)
          parts in
      let points :=
        omap (fun part => match part with SharedPoint p => Some p | _ => None end)
          parts in
      match pieces, points with
      | [], [] => GeomPolygon empty_polygon
      | [piece], [] => GeomPolygon piece
      | _, [] => GeomMultiPolygon pieces
      | [], [p] => GeomPoint p
      | _, _ => GeomCollection pieces ((fun p => [p]) <$> points)
      end
  | other => other
  end.

(** One obstacle, the box from [(15, 4)] to [(17, 6)]. *)
Definition wall_ahead : World := {|
  dims := (100, 100)%Z;
  obstacles := GeomMultiPolygon [ {|
    bounds := (15, 4, 17, 6)%Q;
    contains := fun x y => (x =? 16)%Z && (y =? 5)%Z
  |} ]
|}.

(** The array the specification describes: [(1 - mask) * obstacle_value]. *)
Definition claimed_blur_input (shape : Z * Z) (new_obstacles : list Polygon)
    : outcome (list (list Q)) :=
  match obstacle_mask shape new_obstacles with
  | Ok mask =>
      Ok (np_scale ((fun row : list Q => (fun v : Q => (1 - v)%Q) <$> row) <$> mask)
            obstacle_value)
  | Raise e => Raise e
  | OutOfFuel => OutOfFuel
  end.

(** A planner on a 3 by 3 grid. *)
Definition small_grid : planner :=
  Lattice.new_planner (3, 3)%Z (12, 50)%Z (10, 50)%Z [] 10.

(** An obstacle covers the centre [(50, 50)] of the world. *)
Definition blocked_centre : planner :=
  Lattice.new_planner (100, 100)%Z (12, 50)%Z (10, 50)%Z [(50, 50)%Z] 10.

(** The root with two leaves: [(12, 50)] at cost 2 and [(11, 51)] at the
    inflated cost 5. *)
Definition two_leaves : planner :=
  (add_vertex (11, 51)%Z (10, 50)%Z (Fin 5)
     (add_vertex (12, 50)%Z (10, 50)%Z (Fin 2)
        (add_start_vertex (10, 50)%Z open_line).1).1).1.

(** The root with the leaf [(12, 50)] at the inflated cost 5 and the new
    vertex [(11, 50)] at cost 1. *)
Definition costly_leaf : planner :=
  (add_vertex (11, 50)%Z (10, 50)%Z (Fin 1)
     (add_vertex (12, 50)%Z (10, 50)%Z (Fin 5)
        (add_start_vertex (10, 50)%Z open_line).1).1).1.

(** A square obstacle around the grid point [(3, 1)], one column beyond a
    grid of width 3. *)
Definition edge_cell : Polygon := {|
  bounds := (5 # 2, 1 # 2, 7 # 2, 3 # 2)%Q;
  contains := fun x y => (x =? 3)%Z && (y =? 1)%Z
|}.

(** ** A robot far from the goal, an obstacle beside the centre

    The robot at [(30, 50)], the root at [(10, 50)], an obstacle on
    [(51, 50)], and [iters = 1]. The first draw of the random source is 0,
    which selects the goal, and every later one is 1/2, which gives the
    centre [(50, 50)] of the world. *)

Definition near_miss : planner :=
  Lattice.new_planner (100, 100)%Z (30, 50)%Z (10, 50)%Z [(51, 50)%Z] 1.

Definition goal_then_centre : Externals (Z * Z) (list (Z * Z)) :=
  Lattice.drawn (fun n => if (n =? 0)%nat then 0%Q else (1 # 2)%Q).

(** [near_miss] when [build_rrt_tree] enters its loop, and after the first
    pass. *)
Definition near_miss_rooted : planner := (add_start_vertex (10, 50)%Z near_miss).1.

Definition near_miss_second_pass : planner :=
  (build_step (Externals0 := goal_then_centre) 1 (30, 50)%Z 0 0 None Inf
     near_miss_rooted).1.

(** ** Robots on the line [y = 50] *)

Definition start_node : Lattice.lattice_node := Lattice.Orphan (Some (12, 50)%Z).
Definition goal_node : Lattice.lattice_node := Lattice.Orphan (Some (10, 50)%Z).

(** The robot at [(12, 50)], before its first plan. *)
Definition waiting : robot := Robot open_line start_node goal_node [] 10.

(** A robot that starts at its goal. *)
Definition arrived : robot := Robot open_line goal_node goal_node [] 10.

(** [waiting] with its first plan. *)
Definition planned : robot := (do_first_plan 5 waiting).1.

(** [planned] once obstacles are detected on the robot's cell and on the
    cells around it. *)
Definition cornered : robot :=
  set_tree
    (set_detected_obstacles
       (fun _ => [ (11, 49); (11, 50); (11, 51); (12, 49); (12, 50); (12, 51);
                   (13, 49); (13, 50); (13, 51) ]%Z))
    planned.

(** The tree of [cornered] when [build_rrt_tree] enters its loop. *)
Definition cornered_rooted : planner :=
  (add_start_vertex (10, 50)%Z
     (set_rrt_edges (fun _ => ∅)
        (set_rrt_vertices (fun _ => ∅) (set_rrt_tree (fun _ => ∅) (tree cornered))))).1.

(** [root_and_leaf] once an obstacle on the leaf [(20, 50)] is detected. *)
Definition leaf_hit : planner :=
  set_detected_obstacles (fun _ => [(20, 50)%Z]) root_and_leaf.

(** Nothing to see anywhere; the world answers an empty collection, or
    [None]. *)
Definition empty_world : Surroundings (Z * Z) (list (Z * Z)) Lattice.lattice_node :=
  Lattice.surroundings [] (Some []).
Definition silent_world : Surroundings (Z * Z) (list (Z * Z)) Lattice.lattice_node :=
  Lattice.surroundings [] None.

(** [run], [handle_new_obstacles] and [do_tree_severing] in these worlds. *)
Definition lattice_run (world : Surroundings (Z * Z) (list (Z * Z)) Lattice.lattice_node)
    (fuel : nat) : M robot unit :=
  run (Surroundings0 := world) Reference.no_blur Reference.np_gradient
    Lattice.x_of Lattice.y_of Lattice.no_field_force (1 # 2) (1 # 5)
    Lattice.first_of Lattice.taxicab_norm fuel.

Definition lattice_observe_world
    (world : Surroundings (Z * Z) (list (Z * Z)) Lattice.lattice_node)
    (fuel : nat) : M robot unit :=
  observe_world (Surroundings0 := world) Reference.no_blur Reference.np_gradient
    Lattice.x_of Lattice.y_of Lattice.no_field_force (1 # 2) (1 # 5)
    Lattice.first_of Lattice.taxicab_norm fuel.

Definition lattice_handle_new_obstacles (fuel : nat) (new_obstacles : list (Z * Z))
    : M robot unit :=
  handle_new_obstacles (Surroundings0 := empty_world) Reference.no_blur
    Reference.np_gradient Lattice.x_of Lattice.y_of Lattice.no_field_force (1 # 2) (1 # 5)
    Lattice.first_of Lattice.taxicab_norm fuel new_obstacles.

End LatticeExamples.

(** * Specification vocabulary *)

(** [(y, x)] indexes inside an array of the given shape. *)
Definition in_grid (shape : Z * Z) (y x : Z) : Prop :=
  (0 <= y < shape.1)%Z /\ (0 <= x < shape.2)%Z.

(** [a[y, x]] for an index inside the array. *)
Definition cell (a : list (list Q)) (y x : Z) : option Q :=
  a !! Z.to_nat y ≫= fun row => row !! Z.to_nat x.

(** [a.shape == shape] *)
Definition has_shape {A} (shape : Z * Z) (a : list (list A)) : Prop :=
  length a = Z.to_nat shape.1 /\ Forall (fun row => length row = Z.to_nat shape.2) a.

(** The array is a mask of the given shape whose zero cells are exactly
    those of [zeroed]; the others hold one. *)
Definition marked (shape : Z * Z) (zeroed : Z -> Z -> Prop) (a : list (list Q)) : Prop :=
  has_shape shape a
  /\ forall y x, in_grid shape y x ->
       (zeroed y x /\ cell a y x = Some 0%Q) \/ (~ zeroed y x /\ cell a y x = Some 1%Q).

(** A polygon whose contained grid points lie in its bounding box, as
    shapely's do, and inside the array. *)
Definition polygon_fits (shape : Z * Z) (P : Polygon) : Prop :=
  forall x y, contains P x y = true ->
    let '(minx, miny, maxx, maxy) := bounds P in
    (Qfloor minx <= x <= Qceiling maxx)%Z /\ (Qfloor miny <= y <= Qceiling maxy)%Z
    /\ in_grid shape y x.

(** Some obstacle of the collection contains the grid point [(x, y)]. *)
Definition covered (obs : list Polygon) (y x : Z) : bool :=
  existsb (fun P => contains P x y) obs.

(** One entry of [field[:, :, 0] += d] and of [field[:, :, 1] += d]. *)
Definition add_to_component0 (fv : Q * Q) (d : Q) : Q * Q := ((fv.1 + d)%Q, fv.2).
Definition add_to_component1 (fv : Q * Q) (d : Q) : Q * Q := (fv.1, (fv.2 + d)%Q).

(** Every entry is zero. *)
Definition array_zero (a : list (list Q)) : Prop :=
  Forall (Forall (fun v => (v == 0)%Q)) a.

(** Entry for entry the same numbers. *)
Definition field_eq (f g : list (list (Q * Q))) : Prop :=
  Forall2 (Forall2 (fun a b => (a.1 == b.1)%Q /\ (a.2 == b.2)%Q)) f g.

(** [isinstance(g, MultiPolygon) or isinstance(g, Polygon)] *)
Definition polygonal (g : BaseGeometry) : bool :=
  match g with
  | GeomPolygon _ | GeomMultiPolygon _ => true
  | _ => false
  end.

(** An index numpy accepts on an axis of length [n]: negative ones count
    from the end. *)
Definition valid_index (n i : Z) : Prop := (- n <= i < n)%Z.

(** The grid point [(x, y)] is one the two loops over the bounding box of
    [P] visit. *)
Definition in_bounding_box (P : Polygon) (x y : Z) : Prop :=
  let '(minx, miny, maxx, maxy) := bounds P in
  (Qfloor minx <= x <= Qceiling maxx)%Z /\ (Qfloor miny <= y <= Qceiling maxy)%Z.

(** The array is a mask of the given shape whose zero cells are exactly
    those of [zeroed], by row and column; the others hold one. *)
Definition mask_of (shape : Z * Z) (zeroed : nat -> nat -> Prop) (a : list (list Q))
    : Prop :=
  has_shape shape a
  /\ forall r c, (r < Z.to_nat shape.1)%nat -> (c < Z.to_nat shape.2)%nat ->
       (zeroed r c /\ a !! r ≫= (fun row => row !! c) = Some 0%Q)
       \/ (~ zeroed r c /\ a !! r ≫= (fun row => row !! c) = Some 1%Q).

(** Some obstacle contains a grid point of its bounding box that the
    indexing of an array of the given shape takes to row [r] and column
    [c]. *)
Definition zeroed_by (shape : Z * Z) (obs : list Polygon) (r c : nat) : Prop :=
  exists P x y,
    P ∈ obs /\ in_bounding_box P x y /\ contains P x y = true
    /\ np_index (Z.to_nat shape.1) y = Some r /\ np_index (Z.to_nat shape.2) x = Some c.

(** * Properties *)

Section PlannerFacts.
Context {vertex_t obstacles_t : Type} `{Countable vertex_t}.
Context `{!Externals vertex_t obstacles_t}.

Local Abbreviation state := (@planner vertex_t obstacles_t _ _).
Local Abbreviation Mp := (M state).

(** ** Vocabulary *)

(** [m] leaves the relation [R] between the planner before and after,
    however it ends. *)
Definition preserves {A} (R : relation state) (m : Mp A) : Prop :=
  forall s, R s (m s).1.

(** [m] ends by itself: it has no loop that its fuel could cut. *)
Definition terminates {A} (m : Mp A) : Prop :=
  forall s, (m s).2 <> OutOfFuel.

(** [m] always ends in an exception. *)
Definition always_raises {A} (m : Mp A) : Prop :=
  forall s, exists e, (m s).2 = Raise e.

(** The field [f] is the same before and after. *)
Definition same {B} (f : state -> B) : relation state :=
  fun s s' => f s' = f s.

(** [children[u]]: a key the [defaultdict] does not hold stands for the
    empty set. *)
Definition children_of (s : state) (u : vertex_t) : gset vertex_t :=
  default ∅ (parent_to_children_map s !! u).

(** [v ∈ children[u]  ⇔  parent[v] = u] *)
Definition child_parent_invariant (s : state) : Prop :=
  forall u v, v ∈ children_of s u <-> child_to_parent_map s !! v = Some u.

(** The invariant, if it held before, holds after. *)
Definition keeps_invariant : relation state :=
  fun s s' => child_parent_invariant s -> child_parent_invariant s'.

(** The settings the build loop reads and no method writes. *)
Definition same_settings : relation state :=
  fun s s' =>
    iters s' = iters s /\ built_tree s' = built_tree s
    /\ obstacle_avoidance_radius s' = obstacle_avoidance_radius s
    /\ goal_reached_thresh s' = goal_reached_thresh s.

(** [P], if it held before, holds after. *)
Definition keeps (P : state -> Prop) : relation state :=
  fun s s' => P s -> P s'.

(** The set [f] of the planner only gains members. *)
Definition grows {B} `{SubsetEq B} (f : state -> B) : relation state :=
  fun s s' => f s ⊆ f s'.

(** No vertex's cost to reach goes up, and no cost entry is dropped. *)
Definition costs_not_raised : relation state :=
  fun s s' =>
    forall v c, cost_to_reach s !! v = Some c ->
      exists c', cost_to_reach s' !! v = Some c' /\ pyfloat_ltb c c' = false.

(** The tree geometry holds exactly the vertices, and every vertex has a
    cost to reach. *)
Definition tree_consistent (s : state) : Prop :=
  rrt_tree s = rrt_vertices s
  /\ forall v, v ∈ rrt_vertices s -> v ∈ dom (cost_to_reach s).

(** What the loop holds in [final_pt]: nothing, or a vertex of the tree
    within [self.goal_reached_thresh] of the goal point. *)
Definition recorded (goal : vertex_t) (final_pt : option vertex_t) (s : state) : Prop :=
  match final_pt with
  | None => True
  | Some p =>
      p ∈ rrt_vertices s /\ Qltb (distance p goal) (goal_reached_thresh s) = true
  end.

(** The cost of reaching [x_new] through [q]. *)
Definition cost_through (s : state) (q x_new : vertex_t) : option pyfloat :=
  (fun c => pyfloat_add c (Fin (get_edge_cost q x_new))) <$> cost_to_reach s !! q.

(** The cost map is as before, or as before with [cost] stored under [pt]. *)
Definition cost_set_at (pt : vertex_t) (cost : pyfloat) : relation state :=
  fun s s' =>
    cost_to_reach s' = cost_to_reach s
    \/ cost_to_reach s' = <[pt := cost]> (cost_to_reach s).

(** ** The monad *)

Lemma bind_Ok {A B} (m : Mp A) (k : A -> Mp B) s s' a :
  m s = (s', Ok a) -> bind m k s = k a s'.
Proof. unfold bind. intros ->. reflexivity. Qed.

Lemma bind_Raise {A B} (m : Mp A) (k : A -> Mp B) s s' e :
  m s = (s', Raise e) -> bind m k s = (s', Raise e).
Proof. unfold bind. intros ->. reflexivity. Qed.

Lemma bind_OutOfFuel {A B} (m : Mp A) (k : A -> Mp B) s s' :
  m s = (s', OutOfFuel) -> bind m k s = (s', OutOfFuel).
Proof. unfold bind. intros ->. reflexivity. Qed.

Lemma bind_get {B} (k : state -> Mp B) (s : state) : bind get k s = k s s.
Proof. reflexivity. Qed.

Lemma bind_ret {A B} (a : A) (k : A -> Mp B) (s : state) : bind (ret a) k s = k a s.
Proof. reflexivity. Qed.

Lemma bind_modify {B} f (k : unit -> Mp B) (s : state) :
  bind (modify f) k s = k tt (f s).
Proof. reflexivity. Qed.

Lemma bind_inv_Ok {A B} (m : Mp A) (k : A -> Mp B) s s' b :
  bind m k s = (s', Ok b) ->
  exists s1 a, m s = (s1, Ok a) /\ k a s1 = (s', Ok b).
Proof.
  unfold bind. destruct (m s) as [s1 [a | e | ]]; intros Hk; try discriminate.
  exists s1, a. split; [ reflexivity | exact Hk ].
Qed.

#[local] Instance same_preorder {B} (f : state -> B) : PreOrder (same f).
Proof.
  split; unfold same.
  - intros s. reflexivity.
  - intros s1 s2 s3 H12 H23. congruence.
Qed.

Section Frame.
Context (R : relation state) `{!PreOrder R}.

Lemma preserves_ret {A} (a : A) : preserves R (ret a).
Proof. intros s. simpl. reflexivity. Qed.

Lemma preserves_get : preserves R get.
Proof. intros s. simpl. reflexivity. Qed.

Lemma preserves_raise {A} e : preserves R (raise e : Mp A).
Proof. intros s. simpl. reflexivity. Qed.

Lemma preserves_finish {A} (o : outcome A) : preserves R (finish o).
Proof. intros s. simpl. reflexivity. Qed.

Lemma preserves_lift {A} (r : result A) : preserves R (lift r).
Proof. intros s. simpl. reflexivity. Qed.

Lemma preserves_out_of_fuel {A} : preserves R (out_of_fuel : Mp A).
Proof. intros s. simpl. reflexivity. Qed.

Lemma preserves_modify f : (forall s, R s (f s)) -> preserves R (modify f).
Proof. intros Hf s. apply Hf. Qed.

Lemma preserves_bind {A B} (m : Mp A) (k : A -> Mp B) :
  preserves R m -> (forall a, preserves R (k a)) -> preserves R (bind m k).
Proof.
  intros Hm Hk s. unfold bind. specialize (Hm s).
  destruct (m s) as [s' [a | e | ]]; simpl in *; [ | assumption | assumption ].
  etransitivity; [ exact Hm | apply Hk ].
Qed.

Lemma preserves_for_each {A} (xs : list A) (body : A -> Mp unit) :
  (forall x, preserves R (body x)) -> preserves R (for_each xs body).
Proof.
  intros Hbody. induction xs as [ | x xs IH]; simpl.
  - apply preserves_ret.
  - apply preserves_bind; [ apply Hbody | intros _; exact IH ].
Qed.

Lemma preserves_invoke {A} name kw (body : Mp A) :
  preserves R body -> preserves R (invoke name kw body).
Proof.
  intros Hb. unfold invoke.
  destruct (resolve name) as [m | ]; [ | apply preserves_raise ].
  destruct (accepts m kw); [ exact Hb | apply preserves_raise ].
Qed.

End Frame.

Lemma terminates_ret {A} (a : A) : terminates (ret a : Mp A).
Proof. intros s. discriminate. Qed.

Lemma terminates_get : terminates (get : Mp state).
Proof. intros s. discriminate. Qed.

Lemma terminates_raise {A} e : terminates (raise e : Mp A).
Proof. intros s. discriminate. Qed.

Lemma terminates_modify f : terminates (modify f : Mp unit).
Proof. intros s. discriminate. Qed.

Lemma terminates_lift {A} (r : result A) : terminates (lift r : Mp A).
Proof. intros s. destruct r; discriminate. Qed.

Lemma terminates_bind {A B} (m : Mp A) (k : A -> Mp B) :
  terminates m -> (forall a, terminates (k a)) -> terminates (bind m k).
Proof.
  intros Hm Hk s. unfold bind. specialize (Hm s).
  destruct (m s) as [s' [a | e | ]]; simpl in *.
  - apply Hk.
  - discriminate.
  - congruence.
Qed.

Lemma terminates_for_each {A} (xs : list A) (body : A -> Mp unit) :
  (forall x, terminates (body x)) -> terminates (for_each xs body).
Proof.
  intros Hbody. induction xs as [ | x xs IH]; simpl.
  - apply terminates_ret.
  - apply terminates_bind; [ apply Hbody | intros _; exact IH ].
Qed.

Lemma always_raises_bind {A B} (m : Mp A) (k : A -> Mp B) :
  terminates m -> (forall a, always_raises (k a)) -> always_raises (bind m k).
Proof.
  intros Hm Hk s. unfold bind. specialize (Hm s).
  destruct (m s) as [s' [a | e | ]]; simpl in *.
  - apply Hk.
  - eauto.
  - congruence.
Qed.

Create HintDb frame discriminated.

#[local] Hint Resolve preserves_ret preserves_get preserves_raise preserves_lift
  preserves_finish preserves_out_of_fuel preserves_bind preserves_for_each
  preserves_invoke
  terminates_ret terminates_get terminates_raise terminates_modify terminates_lift
  terminates_bind terminates_for_each : frame.
#[local] Hint Extern 1 (preserves (same _) (modify _)) =>
  apply preserves_modify; intros ?; unfold same; reflexivity : frame.
#[local] Hint Extern 2 (preserves _ (match ?x with _ => _ end)) => destruct x : frame.
#[local] Hint Extern 2 (terminates (match ?x with _ => _ end)) => destruct x : frame.


#[local] Hint Resolve same_preorder : frame.
Ltac frame := auto 40 with frame.

(** ** Method resolution *)

Lemma direct_calls_resolve : forallb call_resolves direct_calls = true.
Proof. reflexivity. Qed.

Lemma invoke_unresolved {A} name kw (body : Mp A) :
  resolve name = None -> always_raises (invoke name kw body).
Proof. intros Hn s. unfold invoke. rewrite Hn. eexists. reflexivity. Qed.

(** ** The tree store *)

Lemma get_parent_terminates pt allow : terminates (get_parent pt allow).
Proof. unfold get_parent. frame. Qed.

Lemma get_children_terminates pt : terminates (get_children pt).
Proof. unfold get_children. frame. Qed.

Lemma set_child_parent_terminates child parent : terminates (set_child_parent child parent).
Proof.
  unfold set_child_parent, discard_child, add_child, del_parent, pt2tuple.
  pose proof get_parent_terminates. pose proof get_children_terminates. frame.
Qed.

Lemma set_child_parent_cost child parent :
  preserves (same cost_to_reach) (set_child_parent child parent).
Proof.
  unfold set_child_parent, discard_child, add_child, del_parent, pt2tuple,
    get_parent, get_children.
  frame.
Qed.


#[local] Hint Resolve get_parent_terminates get_children_terminates
  set_child_parent_terminates set_child_parent_cost : frame.

Lemma sever_connections_cost pt : preserves (same cost_to_reach) (sever_connections pt).
Proof.
  unfold sever_connections, get_parent, get_children, multipoint_without, no_such_method.
  frame.
Qed.

Lemma sever_connections_raises pt : always_raises (sever_connections pt).
Proof.
  unfold sever_connections.
  repeat (apply always_raises_bind; [ frame | intros ? ]).
  apply invoke_unresolved. reflexivity.
Qed.

(** C1 (code defect). [sever_connections] ends every call in an exception,
    raised by its last statement, [self.set_cost_to_goal(pt, float('inf'))]:
    no class defines [set_cost_to_goal]. The cost map is the same before
    and after, so [cost[v]] is never set to infinity. *)
Theorem sever_connections_never_sets_cost (s : state) (pt : vertex_t) :
  (exists e, (sever_connections pt s).2 = Raise e)
  /\ cost_to_reach (sever_connections pt s).1 = cost_to_reach s
  /\ resolve "set_cost_to_goal" = None.
Proof.
  split; [ apply sever_connections_raises | ].
  split; [ apply sever_connections_cost | reflexivity ].
Qed.

(** *** The child-parent invariant *)

#[local] Instance keeps_invariant_preorder : PreOrder keeps_invariant.
Proof. split; unfold keeps_invariant; [ intros s; auto | intros s1 s2 s3; auto ]. Qed.

Lemma get_parent_allow_none (s : state) pt :
  get_parent pt true s = (s, Ok (child_to_parent_map s !! pt)).
Proof.
  unfold get_parent. rewrite bind_get. destruct (child_to_parent_map s !! pt); reflexivity.
Qed.

Lemma get_children_spec (s : state) u :
  exists s', get_children u s = (s', Ok (children_of s u))
             /\ child_to_parent_map s' = child_to_parent_map s
             /\ (forall w, children_of s' w = children_of s w).
Proof.
  unfold get_children, children_of. rewrite bind_get.
  destruct (parent_to_children_map s !! u) as [cs | ] eqn:Hu.
  - exists s. auto.
  - exists (set_parent_to_children_map (<[u := ∅]>) s).
    split; [ reflexivity | ]. split; [ reflexivity | ].
    intros w. simpl. destruct (decide (u = w)) as [-> | Hne].
    + rewrite lookup_insert_eq, Hu. reflexivity.
    + rewrite lookup_insert_ne by exact Hne. reflexivity.
Qed.

(** Writing the set [f (children[u])] back under [u]. *)
Lemma update_children_spec (f : gset vertex_t -> gset vertex_t) (s : state) u :
  exists s',
    bind (get_children u)
         (fun cs => modify (set_parent_to_children_map (<[u := f cs]>))) s
    = (s', Ok tt)
    /\ child_to_parent_map s' = child_to_parent_map s
    /\ (forall w, children_of s' w
                  = if decide (w = u) then f (children_of s u) else children_of s w).
Proof.
  destruct (get_children_spec s u) as (s1 & Hget & Hc2p & Hch).
  exists (set_parent_to_children_map (<[u := f (children_of s u)]>) s1).
  split; [ rewrite (bind_Ok _ _ _ _ _ Hget); reflexivity | ].
  split; [ exact Hc2p | ].
  intros w. unfold children_of at 1. simpl. destruct (decide (w = u)) as [-> | Hne].
  - rewrite lookup_insert_eq. reflexivity.
  - rewrite lookup_insert_ne by auto. apply Hch.
Qed.

Lemma get_children_invariant u : preserves keeps_invariant (get_children u).
Proof.
  intros s Hinv. destruct (get_children_spec s u) as (s' & Hget & Hc2p & Hch).
  rewrite Hget. simpl. intros w v. rewrite Hch, Hc2p. apply Hinv.
Qed.

(** Giving [child] the parent [parent]: the old link is cut on both
    sides and the new one made on both. *)
Lemma set_child_parent_Some_invariant child parent :
  preserves keeps_invariant (set_child_parent child (Some parent)).
Proof.
  intros s Hinv. unfold set_child_parent.
  rewrite (bind_Ok _ _ _ _ _ (get_parent_allow_none s child)).
  assert (Hcut : exists s1,
             (match child_to_parent_map s !! child with
              | Some old => discard_child old child
              | None => ret tt
              end) s = (s1, Ok tt)
             /\ child_to_parent_map s1 = child_to_parent_map s
             /\ (forall w v, v ∈ children_of s1 w <-> v ∈ children_of s w /\ v <> child)).
  { destruct (child_to_parent_map s !! child) as [old | ] eqn:Hold.
    - destruct (update_children_spec (fun cs => cs ∖ {[child]}) s old)
        as (s1 & Hrun & Hc2p & Hch).
      exists s1. split; [ exact Hrun | ]. split; [ exact Hc2p | ].
      intros w v. rewrite (Hch w). destruct (decide (w = old)) as [-> | Hne].
      + set_solver.
      + split; [ | tauto ]. intros Hv. split; [ exact Hv | ].
        intros ->. apply Hinv in Hv. congruence.
    - exists s. split; [ reflexivity | ]. split; [ reflexivity | ].
      intros w v. split; [ | tauto ]. intros Hv. split; [ exact Hv | ].
      intros ->. apply Hinv in Hv. congruence. }
  destruct Hcut as (s1 & Hrun1 & Hc2p1 & Hch1).
  rewrite (bind_Ok _ _ _ _ _ Hrun1). rewrite bind_get.
  rewrite bool_decide_eq_false_2 by discriminate.
  cbn [andb pt2tuple]. rewrite bind_ret.
  rewrite bind_modify.
  destruct (update_children_spec (fun cs => cs ∪ {[child]})
              (set_child_to_parent_map (<[child := parent]>) s1) parent)
    as (s2 & Hrun2 & Hc2p2 & Hch2).
  unfold add_child. rewrite Hrun2. cbn [fst].
  intros w v. rewrite Hch2, Hc2p2.
  change (child_to_parent_map (set_child_to_parent_map <[child:=parent]> s1))
    with (<[child:=parent]> (child_to_parent_map s1)).
  rewrite Hc2p1.
  change (children_of (set_child_to_parent_map <[child:=parent]> s1))
    with (children_of s1).
  destruct (decide (v = child)) as [-> | Hv].
  - rewrite lookup_insert_eq. destruct (decide (w = parent)) as [-> | Hw].
    + set_solver.
    + rewrite Hch1. split; [ tauto | congruence ].
  - rewrite lookup_insert_ne by auto. rewrite <- (Hinv w v).
    destruct (decide (w = parent)) as [-> | Hw].
    + rewrite elem_of_union, Hch1. set_solver.
    + rewrite Hch1. tauto.
Qed.

#[local] Hint Resolve keeps_invariant_preorder get_children_invariant
  set_child_parent_Some_invariant : frame.
#[local] Hint Extern 1 (preserves keeps_invariant (modify ?f)) =>
  apply preserves_modify; intros ? Hkept; exact Hkept : frame.

(** The three mutations that keep the invariant, however they end. *)
Lemma add_start_vertex_invariant x : preserves keeps_invariant (add_start_vertex x).
Proof. unfold add_start_vertex, set_cost_to_reach. frame. Qed.

Lemma add_vertex_invariant pt parent cost :
  preserves keeps_invariant (add_vertex pt parent cost).
Proof. unfold add_vertex, set_cost_to_reach. frame. Qed.

Lemma reassign_parent_invariant pt parent cost allow :
  preserves keeps_invariant (reassign_parent pt parent cost allow).
Proof. unfold reassign_parent, get_parent, pt2tuple, set_cost_to_reach. frame. Qed.

(** ** The rewiring queue *)

Lemma get_key_raises (s : state) pt :
  get_key pt s = (s, Raise (TypeError "find_nearest")).
Proof. reflexivity. Qed.

Lemma insertPQ_raises (s : state) pt :
  insertPQ pt s = (s, Raise (TypeError "find_nearest")).
Proof. unfold insertPQ. apply (bind_Raise _ _ _ _ _ (get_key_raises s pt)). Qed.

Lemma updatePQ_raises (s : state) pt :
  updatePQ pt s = (s, Raise (TypeError "find_nearest")).
Proof. unfold updatePQ. apply (bind_Raise _ _ _ _ _ (get_key_raises s pt)). Qed.

Lemma verify_queue_raises (s : state) pt :
  verify_queue pt s = (s, Raise (TypeError "find_nearest")).
Proof.
  unfold verify_queue. rewrite bind_get.
  destruct (bool_decide _); [ apply updatePQ_raises | apply insertPQ_raises ].
Qed.

(** C2. [get_key] raises on every point, and with it [insertPQ], [updatePQ]
    and [verify_queue]; the planner is left as it was. The call
    [self.find_nearest(..., pt_source=...)] resolves to [RRTStar.find_nearest],
    which takes no [pt_source], and no class defines [get_cost_to_goal]. *)
Theorem get_key_always_raises (s : state) (pt : vertex_t) :
  get_key pt s = (s, Raise (TypeError "find_nearest"))
  /\ insertPQ pt s = (s, Raise (TypeError "find_nearest"))
  /\ updatePQ pt s = (s, Raise (TypeError "find_nearest"))
  /\ verify_queue pt s = (s, Raise (TypeError "find_nearest"))
  /\ lookup_method FARRTStar2_methods "find_nearest" = None
  /\ lookup_method RRTStar_methods "find_nearest"
     = Some (MethodSig "find_nearest" ["x_rand"] false)
  /\ accepts (MethodSig "find_nearest" ["x_rand"] false) ["pt_source"] = false
  /\ lookup_method FARRTStar2_methods "get_cost_to_goal" = None
  /\ lookup_method RRTStar_methods "get_cost_to_goal" = None
  /\ lookup_method PartiallyObservablePlanner_methods "get_cost_to_goal" = None.
Proof.
  split; [ apply get_key_raises | ].
  split; [ apply insertPQ_raises | ].
  split; [ apply updatePQ_raises | ].
  split; [ apply verify_queue_raises | ].
  repeat split.
Qed.

(** *** [popPQ] *)

Lemma rewiringPQ_get_cons (s : state) e rest :
  rewiringPQ s = e :: rest ->
  rewiringPQ_get s = (set_rewiringPQ (fun _ => rest) s, Ok e).
Proof. intros Hq. unfold rewiringPQ_get, bind, get. rewrite Hq. reflexivity. Qed.

Lemma rewiringPQ_get_nil (s : state) :
  rewiringPQ s = [] -> rewiringPQ_get s = (s, Raise QueueEmpty).
Proof. intros Hq. unfold rewiringPQ_get, bind, get. rewrite Hq. reflexivity. Qed.

(** Once [point] holds a whole entry the loop cannot stop: it drains the
    heap and ends in [queue.Empty]. *)
Lemma popPQ_while_entry_drains fuel key e (s : state) :
  length (rewiringPQ s) < fuel ->
  popPQ_while fuel key (PoppedEntry e) s
  = (set_rewiringPQ (fun _ => []) s, Raise QueueEmpty).
Proof.
  revert e s. induction fuel as [ | fuel IH]; intros e s Hlen; [ lia | ].
  destruct s as [wd cp dob it ep sd oar xg tr vs es c2p p2c cost thr bt pf heap km rd].
  simpl in Hlen. destruct heap as [ | e' rest].
  - reflexivity.
  - change (popPQ_while (S fuel) key (PoppedEntry e)
              (Planner wd cp dob it ep sd oar xg tr vs es c2p p2c cost thr bt pf
                 (e' :: rest) km rd))
      with (popPQ_while fuel key (PoppedEntry e')
              (Planner wd cp dob it ep sd oar xg tr vs es c2p p2c cost thr bt pf
                 rest km rd)).
    rewrite IH by (simpl in *; lia). reflexivity.
Qed.

Lemma popPQ_while_unfold fuel key point (s : state) :
  popPQ_while fuel key point s
  = if stale s point key
    then match fuel with
         | O => (s, OutOfFuel)
         | S fuel' =>
             bind rewiringPQ_get (fun e => popPQ_while fuel' key (PoppedEntry e)) s
         end
    else (s, Ok point).
Proof.
  destruct fuel; simpl; rewrite bind_get; destruct (stale s point key); reflexivity.
Qed.

Lemma set_rewiringPQ_twice f g (s : state) :
  set_rewiringPQ f (set_rewiringPQ g s) = set_rewiringPQ (fun h => f (g h)) s.
Proof. reflexivity. Qed.

Lemma set_rewiringPQ_same (s : state) :
  set_rewiringPQ (fun _ => rewiringPQ s) s = s.
Proof. destruct s. reflexivity. Qed.

Lemma popPQ_while_stale_point fuel key p (s : state) :
  stale s (PoppedPoint p) key = true ->
  length (rewiringPQ s) < fuel ->
  popPQ_while fuel key (PoppedPoint p) s
  = (set_rewiringPQ (fun _ => []) s, Raise QueueEmpty).
Proof.
  intros Hstale Hlen. rewrite popPQ_while_unfold, Hstale.
  destruct fuel as [ | fuel]; [ lia | ].
  destruct (rewiringPQ s) as [ | e rest] eqn:Hq.
  - rewrite (bind_Raise _ _ _ _ _ (rewiringPQ_get_nil s Hq)).
    rewrite <- Hq, set_rewiringPQ_same. reflexivity.
  - rewrite (bind_Ok _ _ _ _ _ (rewiringPQ_get_cons s e rest Hq)).
    rewrite popPQ_while_entry_drains by (simpl in *; lia).
    reflexivity.
Qed.

(** A stale head entry empties the queue, whatever lies behind it. *)
Lemma popPQ_stale_head (s : state) key p rest :
  rewiringPQ s = (key, p) :: rest ->
  stale s (PoppedPoint p) key = true ->
  popPQ s = (set_rewiringPQ (fun _ => []) s, Raise QueueEmpty).
Proof.
  intros Hq Hstale. unfold popPQ.
  rewrite (bind_Ok _ _ _ _ _ (rewiringPQ_get_cons s _ _ Hq)).
  rewrite bind_get.
  rewrite (bind_Raise _ _ _ _ _
             (popPQ_while_stale_point _ key p (set_rewiringPQ (fun _ => rest) s)
                Hstale (Nat.lt_succ_diag_r _))).
  reflexivity.
Qed.

(** A live head entry is the one returned, and its key-map entry goes. *)
Lemma popPQ_live_head (s : state) key p rest :
  rewiringPQ s = (key, p) :: rest ->
  stale s (PoppedPoint p) key = false ->
  popPQ s
  = (set_queue_key_map (delete p) (set_rewiringPQ (fun _ => rest) s), Ok p).
Proof.
  intros Hq Hlive. unfold popPQ.
  rewrite (bind_Ok _ _ _ _ _ (rewiringPQ_get_cons s _ _ Hq)).
  rewrite bind_get.
  assert (Hwhile : popPQ_while (S (length rest)) key (PoppedPoint p)
                     (set_rewiringPQ (fun _ => rest) s)
                   = (set_rewiringPQ (fun _ => rest) s, Ok (PoppedPoint p))).
  { rewrite popPQ_while_unfold.
    change (stale (set_rewiringPQ (fun _ => rest) s) (PoppedPoint p) key)
      with (stale s (PoppedPoint p) key).
    rewrite Hlive. reflexivity. }
  change (rewiringPQ (set_rewiringPQ (fun _ => rest) s)) with rest.
  rewrite (bind_Ok _ _ _ _ _ Hwhile).
  unfold stale in Hlive. simpl in Hlive.
  destruct (queue_key_map s !! p) as [k | ] eqn:Hk; [ | discriminate ].
  unfold key_map_pop, bind, get, modify, ret. simpl. rewrite Hk. reflexivity.
Qed.


Lemma popPQ_terminates : terminates popPQ.
Proof.
  intros s. destruct (rewiringPQ s) as [ | [key q] rest] eqn:Hq.
  - unfold popPQ. rewrite (bind_Raise _ _ _ _ _ (rewiringPQ_get_nil s Hq)). discriminate.
  - destruct (stale s (PoppedPoint q) key) eqn:Hst.
    + rewrite (popPQ_stale_head s key q rest Hq Hst). discriminate.
    + rewrite (popPQ_live_head s key q rest Hq Hst). discriminate.
Qed.


(** *** [queue_not_empty] and the rewiring loop's condition *)

(** [queue_not_empty] never answers [True]: after a successful [popPQ] the
    re-insertion raises. *)
Lemma queue_not_empty_returns (s : state) b :
  returned (queue_not_empty s) = Some b -> b = false.
Proof.
  unfold queue_not_empty, except_queue_empty, returned.
  destruct (popPQ s) as [s1 [p | e | ]] eqn:Hpop.
  - rewrite (bind_Ok _ _ _ _ _ Hpop).
    rewrite (bind_Raise _ _ _ _ _ (insertPQ_raises s1 p)). discriminate.
  - rewrite (bind_Raise _ _ _ _ _ Hpop).
    destruct e; simpl; try discriminate. intros [= <-]. reflexivity.
  - rewrite (bind_OutOfFuel _ _ _ _ Hpop). discriminate.
Qed.

Lemma farrt_guard_returns (s : state) final_pt b :
  returned (farrt_guard final_pt s) = Some b -> b = bool_decide (final_pt = None).
Proof.
  unfold farrt_guard, returned at 1.
  destruct (queue_not_empty s) as [s1 [nonempty | e | ]] eqn:Hq.
  - rewrite (bind_Ok _ _ _ _ _ Hq).
    assert (nonempty = false) as ->
      by (apply (queue_not_empty_returns s); unfold returned; rewrite Hq; reflexivity).
    simpl. intros [= <-]. reflexivity.
  - rewrite (bind_Raise _ _ _ _ _ Hq). discriminate.
  - rewrite (bind_OutOfFuel _ _ _ _ Hq). discriminate.
Qed.

(** ** RRT* *)

Lemma reached_goal_reads_field (s : state) x goal threshold :
  reached_goal x (Some goal) (Some threshold) s
  = (s, Ok (Qltb (distance x goal) (goal_reached_thresh s))).
Proof. reflexivity. Qed.

Lemma reached_goal_state (s s' : state) x goal threshold b :
  reached_goal x goal threshold s = (s', Ok b) -> s' = s.
Proof. unfold reached_goal. rewrite bind_get. intros [= <- _]. reflexivity. Qed.

Lemma Qltb_lt (x y : Q) : Qltb x y = true <-> (x < y)%Q.
Proof.
  unfold Qltb. rewrite negb_true_iff. split.
  - intros Hle. apply Qnot_le_lt. intros Hyx.
    apply Qle_bool_iff in Hyx. congruence.
  - intros Hlt. destruct (Qle_bool y x) eqn:Hle; [ | reflexivity ].
    apply Qle_bool_iff in Hle. exfalso. exact (Qlt_not_le _ _ Hlt Hle).
Qed.

Lemma Qltb_ge (x y : Q) : Qltb x y = false <-> (y <= x)%Q.
Proof.
  unfold Qltb. rewrite negb_false_iff. apply Qle_bool_iff.
Qed.

Lemma build_step_break fuel goal thr i fp c (s s' : state) fp' c' :
  build_step fuel goal thr i fp c s = (s', Ok (true, fp', c')) ->
  fp' <> None /\ built_tree s' = true.
Proof.
  unfold build_step. rewrite bind_get. intros Hstep.
  apply bind_inv_Ok in Hstep as (s1 & x_rand & _ & Hstep).
  apply bind_inv_Ok in Hstep as (s2 & x_nearest & _ & Hstep).
  apply bind_inv_Ok in Hstep as (s3 & x_new & _ & Hstep).
  apply bind_inv_Ok in Hstep as (s4 & free & _ & Hstep).
  destruct free; [ | discriminate ].
  apply bind_inv_Ok in Hstep as (s5 & nearby & _ & Hstep).
  apply bind_inv_Ok in Hstep as (s6 & [x_min min_cost] & _ & Hstep).
  apply bind_inv_Ok in Hstep as (s7 & [] & _ & Hstep).
  apply bind_inv_Ok in Hstep as (s8 & [] & _ & Hstep).
  apply bind_inv_Ok in Hstep as (s9 & reached & _ & Hstep).
  destruct reached; [ | discriminate ].
  rewrite bind_get in Hstep.
  destruct (built_tree s9) eqn:Hbt.
  - injection Hstep as <- <- _. split; [ discriminate | exact Hbt ].
  - destruct (pyfloat_ltb min_cost c); discriminate.
Qed.

(** A normal end of the loop: either the guard failed, so [iters]
    iterations are done and a goal-reaching vertex is recorded, or the body
    broke out with one on a later build. *)
Lemma build_loop_exit fuel goal thr :
  forall i fp c (s s' : state) i' fp' c',
    build_loop fuel goal thr i fp c s = (s', Ok (i', fp', c')) ->
    fp' <> None /\ (built_tree s' = true \/ (iters s' <= i')%Z).
Proof.
  induction fuel as [ | fuel IH]; intros i fp c s s' i' fp' c' Hloop;
    simpl in Hloop; rewrite bind_get in Hloop;
    destruct (build_guard s i fp) eqn:Hguard.
  - discriminate.
  - injection Hloop as <- <- <- <-.
    unfold build_guard in Hguard. apply orb_false_iff in Hguard as [Hi Hfp].
    apply Z.ltb_ge in Hi. apply bool_decide_eq_false in Hfp. auto.
  - apply bind_inv_Ok in Hloop as (s1 & [[broke fp1] c1] & Hstep & Hloop).
    destruct broke.
    + injection Hloop as <- <- <- <-.
      apply build_step_break in Hstep as [Hfp Hbt]. auto.
    + exact (IH _ _ _ _ _ _ _ _ Hloop).
  - injection Hloop as <- <- <- <-.
    unfold build_guard in Hguard. apply orb_false_iff in Hguard as [Hi Hfp].
    apply Z.ltb_ge in Hi. apply bool_decide_eq_false in Hfp. auto.
Qed.

(** While every pass through the body ends without a goal-reaching vertex,
    the loop does not end: it uses up any fuel. *)
Lemma build_loop_stuck (P : state -> Prop) goal thr :
  (forall fuel i s, P s ->
     exists s', build_step fuel goal thr i None Inf s = (s', Ok (false, None, Inf))
                /\ P s') ->
  forall fuel i s, P s -> (build_loop fuel goal thr i None Inf s).2 = OutOfFuel.
Proof.
  intros Hstep. induction fuel as [ | fuel IH]; intros i s HP; simpl; rewrite bind_get;
    unfold build_guard; rewrite orb_true_r.
  - reflexivity.
  - destruct (Hstep fuel i s HP) as (s' & Hs & HP').
    rewrite (bind_Ok _ _ _ _ _ Hs). apply IH. exact HP'.
Qed.


(** *** The settings stay as they are *)

#[local] Instance same_settings_preorder : PreOrder same_settings.
Proof.
  split; unfold same_settings.
  - intros s. auto.
  - intros s1 s2 s3 (? & ? & ? & ?) (? & ? & ? & ?). repeat split; congruence.
Qed.

#[local] Hint Resolve same_settings_preorder : frame.
#[local] Hint Extern 1 (preserves same_settings (modify _)) =>
  apply preserves_modify; intros ?; unfold same_settings; simpl; auto : frame.

Lemma set_child_parent_settings child parent :
  preserves same_settings (set_child_parent child parent).
Proof.
  unfold set_child_parent, discard_child, add_child, del_parent, pt2tuple,
    get_parent, get_children.
  frame.
Qed.

Lemma resample_settings fuel r p : preserves same_settings (resample fuel r p).
Proof.
  revert p. induction fuel as [ | fuel IH]; intros p; simpl;
    unfold random_position, random_random; frame.
Qed.

Lemma min_cost_scan_settings pts x_new p c :
  preserves same_settings (min_cost_scan pts x_new p c).
Proof.
  revert p c. induction pts as [ | pt pts IH]; intros p c; simpl;
    unfold edge_obstacle_free, get_cost_to_reach; frame.
Qed.

#[local] Hint Resolve set_child_parent_settings resample_settings
  min_cost_scan_settings : frame.

Lemma build_step_settings fuel goal thr i fp c :
  preserves same_settings (build_step fuel goal thr i fp c).
Proof.
  unfold build_step, sample_free, random_position, random_random, find_nearest, steer,
    edge_obstacle_free, find_nearby_pts, find_ball_radius, get_min_cost_point,
    add_vertex, do_rrtstar_rewiring, reassign_parent, reached_goal, pt2tuple,
    get_parent, get_children, get_cost_to_reach, set_cost_to_reach, edge_obstacle_free.
  frame.
Qed.

Lemma build_loop_settings fuel goal thr :
  forall i fp c, preserves same_settings (build_loop fuel goal thr i fp c).
Proof.
  pose proof build_step_settings.
  induction fuel as [ | fuel IH]; intros i fp c; simpl; frame.
Qed.

(** *** The claims on the build loop *)

(** The value of the conditional expression for [buffer_radius]. *)
Lemma sample_buffer_radius_midpoint (s : state) (i : Z) (final_pt : option vertex_t) :
  ((inject_Z (iters s) / 2 < inject_Z i)%Q -> final_pt = None ->
   sample_buffer_radius s i final_pt = 0%Q)
  /\ ((inject_Z i <= inject_Z (iters s) / 2)%Q ->
      sample_buffer_radius s i final_pt = obstacle_avoidance_radius s).
Proof.
  unfold sample_buffer_radius. split.
  - intros Hi ->. apply Qltb_lt in Hi. rewrite Hi. reflexivity.
  - intros Hi. apply Qltb_ge in Hi. rewrite Hi. reflexivity.
Qed.

Lemma sample_buffer_radius_recorded (s : state) (i : Z) (final_pt : option vertex_t) :
  final_pt <> None -> sample_buffer_radius s i final_pt = obstacle_avoidance_radius s.
Proof.
  intros Hfp. unfold sample_buffer_radius.
  rewrite (bool_decide_eq_false_2 _ Hfp), andb_false_r. reflexivity.
Qed.

(** A pass of the build loop is a call of [sample_free] with the
    [buffer_radius] of the conditional expression, and then the rest of
    the pass on the sample. *)
Lemma build_step_unfold fuel goal thr i final_pt final_pt_cost (s : state) :
  build_step fuel goal thr i final_pt final_pt_cost s
  = (let* x_rand := sample_free fuel goal (Some (sample_buffer_radius s i final_pt)) in
     extend_tree goal thr final_pt final_pt_cost x_rand) s.
Proof. reflexivity. Qed.

(** C4 (amended). What a pass of the build loop passes to [sample_free]
    for [buffer_radius]: 0 on every iteration past the midpoint
    ([i > iters/2]) on which no goal-reaching vertex is recorded, so that
    the pass is [sample_free(goal_pt, buffer_radius=0)] followed by the
    rest of the loop body on its sample; and [obstacle_avoidance_radius]
    on every iteration at or before the midpoint and on every iteration
    with a goal-reaching vertex recorded. *)
Theorem build_step_buffer_radius (fuel : nat) (goal : vertex_t) (thr : Q) (i : Z)
    (final_pt : option vertex_t) (final_pt_cost : pyfloat) (s : state) :
  ((inject_Z (iters s) / 2 < inject_Z i)%Q -> final_pt = None ->
   build_step fuel goal thr i final_pt final_pt_cost s
   = (let* x_rand := sample_free fuel goal (Some 0%Q) in
      extend_tree goal thr final_pt final_pt_cost x_rand) s)
  /\ ((inject_Z i <= inject_Z (iters s) / 2)%Q \/ final_pt <> None ->
      build_step fuel goal thr i final_pt final_pt_cost s
      = (let* x_rand := sample_free fuel goal (Some (obstacle_avoidance_radius s)) in
         extend_tree goal thr final_pt final_pt_cost x_rand) s).
Proof.
  split.
  - intros Hi Hfp. rewrite build_step_unfold.
    rewrite (proj1 (sample_buffer_radius_midpoint s i final_pt) Hi Hfp). reflexivity.
  - intros Hcase. rewrite build_step_unfold.
    destruct Hcase as [Hi | Hfp].
    + rewrite (proj2 (sample_buffer_radius_midpoint s i final_pt) Hi). reflexivity.
    + rewrite (sample_buffer_radius_recorded s i final_pt Hfp). reflexivity.
Qed.

(** A normal end of the build loop comes with a recorded goal-reaching
    vertex and, on the first build, after at least [iters] iterations; its
    condition holds on every iteration on which nothing is recorded, so
    that the loop uses up any fuel while every pass ends without a
    goal-reaching vertex; and the rewiring loop's condition, when it
    evaluates at all, is true while [final_pt] is [None]. *)
Lemma loops_have_no_iteration_cap :
  (forall fuel goal thr (s : state) i fp c,
     returned (build_loop fuel goal thr 0 None Inf s) = Some (i, fp, c) ->
     fp <> None /\ (built_tree s = true \/ (iters s <= i)%Z))
  /\ (forall (P : state -> Prop) goal thr,
        (forall fuel i s, P s ->
           exists s', build_step fuel goal thr i None Inf s = (s', Ok (false, None, Inf))
                      /\ P s') ->
        forall fuel i s, P s -> (build_loop fuel goal thr i None Inf s).2 = OutOfFuel)
  /\ (forall fuel root goal thr (s : state) fp c,
        returned (build_rrt_tree fuel root goal thr s) = Some (fp, c) -> fp <> None)
  /\ (forall (s : state) i, build_guard s i None = true)
  /\ (forall (s : state) b, returned (farrt_guard None s) = Some b -> b = true).
Proof.
  assert (Hloop : forall fuel goal thr (s : state) i fp c,
             returned (build_loop fuel goal thr 0 None Inf s) = Some (i, fp, c) ->
             fp <> None /\ (built_tree s = true \/ (iters s <= i)%Z)).
  { intros fuel goal thr s i fp c Hret.
    pose proof (build_loop_settings fuel goal thr 0%Z None Inf s) as (Hit & Hbt & _).
    unfold returned in Hret.
    destruct (build_loop fuel goal thr 0 None Inf s) as [s' [[[i' fp'] c'] | e | ]] eqn:Hrun;
      simpl in *; try discriminate.
    injection Hret as -> -> ->.
    destruct (build_loop_exit _ _ _ _ _ _ _ _ _ _ _ Hrun) as [Hfp Hend].
    split; [ exact Hfp | ]. rewrite <- Hit, <- Hbt. exact Hend. }
  split; [ exact Hloop | ]. split; [ exact build_loop_stuck | ]. split; [ | split ].
  - intros fuel root goal thr s fp c Hret.
    unfold returned in Hret.
    destruct (build_rrt_tree fuel root goal thr s) as [s' [[fp' c'] | e | ]] eqn:Hrun;
      simpl in *; try discriminate.
    injection Hret as -> ->.
    unfold build_rrt_tree in Hrun. rewrite bind_get in Hrun.
    apply bind_inv_Ok in Hrun as (s1 & [] & _ & Hrun).
    apply bind_inv_Ok in Hrun as (s2 & [] & _ & Hrun).
    apply bind_inv_Ok in Hrun as (s3 & [] & _ & Hrun).
    apply bind_inv_Ok in Hrun as (s4 & [] & _ & Hrun).
    apply bind_inv_Ok in Hrun as (s5 & [[i' fp'] c'] & Hrun & Hret).
    injection Hret as _ -> ->.
    apply (Hloop fuel goal (default (goal_reached_thresh s) thr) s4 i' fp c).
    unfold returned. rewrite Hrun. reflexivity.
  - intros s i. unfold build_guard. apply orb_true_r.
  - intros s b Hret. apply farrt_guard_returns in Hret. exact Hret.
Qed.

(** ** More on the tree store *)

(** What [set_child_parent(child, parent)] does for a parent that is a
    point: it always succeeds, [child] names [parent], it is among the
    children of [parent] and of no other vertex it was a child of by the
    parent map. *)
Lemma set_child_parent_Some_spec (s : state) child parent :
  exists s',
    set_child_parent child (Some parent) s = (s', Ok tt)
    /\ child_to_parent_map s' = <[child := parent]> (child_to_parent_map s)
    /\ (forall w v, v ∈ children_of s' w <->
          (w = parent /\ v = child)
          \/ (v ∈ children_of s w
              /\ ~ (v = child /\ child_to_parent_map s !! child = Some w))).
Proof.
  unfold set_child_parent.
  rewrite (bind_Ok _ _ _ _ _ (get_parent_allow_none s child)).
  assert (Hcut : exists s1,
             (match child_to_parent_map s !! child with
              | Some old => discard_child old child
              | None => ret tt
              end) s = (s1, Ok tt)
             /\ child_to_parent_map s1 = child_to_parent_map s
             /\ (forall w v, v ∈ children_of s1 w <->
                   v ∈ children_of s w
                   /\ ~ (v = child /\ child_to_parent_map s !! child = Some w))).
  { destruct (child_to_parent_map s !! child) as [old | ] eqn:Hold.
    - destruct (update_children_spec (fun cs => cs ∖ {[child]}) s old)
        as (s1 & Hrun & Hc2p & Hch).
      exists s1. split; [ exact Hrun | ]. split; [ exact Hc2p | ].
      intros w v. rewrite (Hch w). destruct (decide (w = old)) as [-> | Hne].
      + rewrite elem_of_difference, elem_of_singleton. split.
        * intros [Hv Hn]. split; [ exact Hv | ]. intros [-> _]. auto.
        * intros [Hv Hn]. split; [ exact Hv | ]. intros ->. auto.
      + split; [ | tauto ]. intros Hv. split; [ exact Hv | ].
        intros [_ [= ->]]. auto.
    - exists s. split; [ reflexivity | ]. split; [ reflexivity | ].
      intros w v. split; [ | tauto ]. intros Hv. split; [ exact Hv | ].
      intros [_ Heq]. discriminate. }
  destruct Hcut as (s1 & Hrun1 & Hc2p1 & Hch1).
  rewrite (bind_Ok _ _ _ _ _ Hrun1). rewrite bind_get.
  rewrite bool_decide_eq_false_2 by discriminate.
  cbn [andb pt2tuple]. rewrite bind_ret.
  rewrite bind_modify.
  destruct (update_children_spec (fun cs => cs ∪ {[child]})
              (set_child_to_parent_map (<[child := parent]>) s1) parent)
    as (s2 & Hrun2 & Hc2p2 & Hch2).
  unfold add_child. exists s2. split; [ exact Hrun2 | ].
  split; [ rewrite Hc2p2; simpl; rewrite Hc2p1; reflexivity | ].
  intros w v. rewrite Hch2.
  change (children_of (set_child_to_parent_map <[child:=parent]> s1))
    with (children_of s1).
  destruct (decide (w = parent)) as [-> | Hw].
  - rewrite elem_of_union, elem_of_singleton, Hch1. tauto.
  - rewrite Hch1. tauto.
Qed.

Lemma set_child_parent_vertices child parent :
  preserves (same rrt_vertices) (set_child_parent child parent).
Proof.
  unfold set_child_parent, discard_child, add_child, del_parent, pt2tuple,
    get_parent, get_children.
  frame.
Qed.

Lemma set_child_parent_tree child parent :
  preserves (same rrt_tree) (set_child_parent child parent).
Proof.
  unfold set_child_parent, discard_child, add_child, del_parent, pt2tuple,
    get_parent, get_children.
  frame.
Qed.

Lemma set_child_parent_edges child parent :
  preserves (same rrt_edges) (set_child_parent child parent).
Proof.
  unfold set_child_parent, discard_child, add_child, del_parent, pt2tuple,
    get_parent, get_children.
  frame.
Qed.

(** [add_vertex] in full: the state it leaves. *)
Lemma add_vertex_spec (s : state) pt parent cost :
  exists s',
    add_vertex pt parent cost s = (s', Ok tt)
    /\ rrt_tree s' = rrt_tree s ∪ {[pt]}
    /\ rrt_vertices s' = rrt_vertices s ∪ {[pt]}
    /\ rrt_edges s' = rrt_edges s ∪ {[(parent, pt)]}
    /\ child_to_parent_map s' = <[pt := parent]> (child_to_parent_map s)
    /\ cost_to_reach s' = <[pt := cost]> (cost_to_reach s)
    /\ (forall w v, v ∈ children_of s' w <->
          (w = parent /\ v = pt)
          \/ (v ∈ children_of s w
              /\ ~ (v = pt /\ child_to_parent_map s !! pt = Some w))).
Proof.
  unfold add_vertex. rewrite !bind_modify.
  set (s3 := set_rrt_edges _ (set_rrt_vertices _ (set_rrt_tree _ s))).
  destruct (set_child_parent_Some_spec s3 pt parent) as (s4 & Hrun & Hc2p & Hch).
  pose proof (set_child_parent_vertices pt (Some parent) s3) as HV.
  pose proof (set_child_parent_tree pt (Some parent) s3) as HT.
  pose proof (set_child_parent_edges pt (Some parent) s3) as HE.
  pose proof (set_child_parent_cost pt (Some parent) s3) as HC.
  unfold same in HV, HT, HE, HC. rewrite Hrun in HV, HT, HE, HC. simpl in HV, HT, HE, HC.
  exists (set_cost_map (<[pt := cost]>) s4).
  split; [ rewrite (bind_Ok _ _ _ _ _ Hrun); reflexivity | ].
  simpl. rewrite HT, HV, HE, HC, Hc2p. repeat split; try reflexivity.
  - apply Hch.
  - apply Hch.
Qed.

(** [add_vertex] always succeeds, and what it stores can be read back:
    the parent and the cost of the new vertex, the vertex itself in the
    vertex set and in the tree geometry, the edge from the parent, the
    vertex among the parent's children; the parent, the cost and the
    membership of every other vertex are as before. *)
Theorem add_vertex_round_trip (s : state) (pt parent : vertex_t) (cost : pyfloat) :
  exists s',
    add_vertex pt parent cost s = (s', Ok tt)
    /\ get_parent pt false s' = (s', Ok (Some parent))
    /\ get_cost_to_reach pt s' = (s', Ok cost)
    /\ pt ∈ rrt_vertices s' /\ pt ∈ rrt_tree s'
    /\ (parent, pt) ∈ rrt_edges s'
    /\ pt ∈ children_of s' parent
    /\ (forall v, v <> pt ->
          child_to_parent_map s' !! v = child_to_parent_map s !! v
          /\ cost_to_reach s' !! v = cost_to_reach s !! v
          /\ (v ∈ rrt_vertices s' <-> v ∈ rrt_vertices s)).
Proof.
  destruct (add_vertex_spec s pt parent cost)
    as (s' & Hrun & HT & HV & HE & Hc2p & Hcost & Hch).
  exists s'. split; [ exact Hrun | ].
  split.
  { unfold get_parent. rewrite bind_get, Hc2p, lookup_insert_eq. reflexivity. }
  split.
  { unfold get_cost_to_reach. rewrite bind_get, Hcost, lookup_insert_eq. reflexivity. }
  split; [ rewrite HV; set_solver | ].
  split; [ rewrite HT; set_solver | ].
  split; [ rewrite HE; set_solver | ].
  split; [ apply Hch; left; auto | ].
  intros v Hv. rewrite Hc2p, Hcost, HV, !lookup_insert_ne by auto.
  split; [ reflexivity | ]. split; [ reflexivity | ]. set_solver.
Qed.

(** [reassign_parent] in every case. Without a parent entry for [pt] it
    raises [ValueError]; asked for the parent [pt] already has it returns
    or raises [ValueError] as [allow_same_parent] says; in both cases the
    planner is untouched. Otherwise it succeeds: the parent and the cost
    are replaced, the edges to and from the old parent are dropped and the
    edge from the new one is added, and [pt] has moved from the children of
    the old parent to those of the new. The [assert] never fails. *)
Theorem reassign_parent_cases (s : state) (pt parent : vertex_t) (cost : pyfloat)
    (allow_same_parent : bool) :
  match child_to_parent_map s !! pt with
  | None => reassign_parent pt parent cost allow_same_parent s = (s, Raise ValueError)
  | Some old =>
      if decide (old = parent)
      then reassign_parent pt parent cost allow_same_parent s
           = (s, if allow_same_parent then Ok tt else Raise ValueError)
      else exists s',
             reassign_parent pt parent cost allow_same_parent s = (s', Ok tt)
             /\ child_to_parent_map s' = <[pt := parent]> (child_to_parent_map s)
             /\ cost_to_reach s' = <[pt := cost]> (cost_to_reach s)
             /\ rrt_edges s'
                = ((rrt_edges s ∖ {[(old, pt)]}) ∖ {[(pt, old)]}) ∪ {[(parent, pt)]}
             /\ rrt_vertices s' = rrt_vertices s
             /\ (pt ∉ children_of s' old)
             /\ pt ∈ children_of s' parent
  end.
Proof.
  unfold reassign_parent.
  destruct (child_to_parent_map s !! pt) as [old | ] eqn:Hold.
  2: { apply bind_Raise. unfold get_parent. rewrite bind_get, Hold. reflexivity. }
  assert (Hget0 : get_parent pt false s = (s, Ok (Some old)))
    by (unfold get_parent; rewrite bind_get, Hold; reflexivity).
  rewrite (bind_Ok _ _ _ _ _ Hget0).
  destruct (decide (old = parent)) as [-> | Hne].
  - rewrite bool_decide_eq_true_2 by reflexivity. destruct allow_same_parent; reflexivity.
  - rewrite bool_decide_eq_false_2 by congruence.
    cbn [pt2tuple]. rewrite bind_ret, bind_modify.
    set (s1 := set_rrt_edges _ s).
    destruct (set_child_parent_Some_spec s1 pt parent) as (s2 & Hrun & Hc2p & Hch).
    pose proof (set_child_parent_vertices pt (Some parent) s1) as HV.
    pose proof (set_child_parent_edges pt (Some parent) s1) as HE.
    pose proof (set_child_parent_cost pt (Some parent) s1) as HC.
    unfold same in HV, HE, HC. rewrite Hrun in HV, HE, HC. simpl in HV, HE, HC.
    rewrite (bind_Ok _ _ _ _ _ Hrun).
    destruct (get_children_spec s2 old) as (s3 & Hget & Hc2p3 & Hch3).
    rewrite (bind_Ok _ _ _ _ _ Hget).
    assert (Hgone : pt ∉ children_of s2 old).
    { rewrite Hch. intros [[-> _] | [_ Hn]]; [ congruence | ].
      apply Hn. split; [ reflexivity | exact Hold ]. }
    rewrite bool_decide_eq_false_2 by exact Hgone.
    exists (set_cost_map (<[pt := cost]>) s3).
    split; [ reflexivity | ].
    assert (HV3 : rrt_vertices s3 = rrt_vertices s2
                  /\ rrt_edges s3 = rrt_edges s2 /\ cost_to_reach s3 = cost_to_reach s2).
    { clear - Hget. unfold get_children in Hget. rewrite bind_get in Hget.
      destruct (parent_to_children_map s2 !! old); injection Hget as <- _; auto. }
    destruct HV3 as (HV3 & HE3 & HC3).
    simpl. rewrite Hc2p3, Hc2p, HC3, HC, HE3, HE, HV3, HV.
    repeat split; try reflexivity.
    + change (children_of (set_cost_map <[pt:=cost]> s3)) with (children_of s3).
      rewrite Hch3. exact Hgone.
    + change (children_of (set_cost_map <[pt:=cost]> s3)) with (children_of s3).
      rewrite Hch3. apply Hch. left. auto.
Qed.

(** *** The invariant through the build *)

#[local] Hint Resolve add_start_vertex_invariant add_vertex_invariant
  reassign_parent_invariant : frame.

Lemma do_rrtstar_rewiring_invariant nearby x_min x_new :
  preserves keeps_invariant (do_rrtstar_rewiring nearby x_min x_new).
Proof. unfold do_rrtstar_rewiring, edge_obstacle_free, get_cost_to_reach. frame. Qed.

Lemma resample_invariant fuel r p : preserves keeps_invariant (resample fuel r p).
Proof.
  revert p. induction fuel as [ | fuel IH]; intros p; simpl;
    unfold random_position, random_random; frame.
Qed.

Lemma min_cost_scan_invariant pts x_new p c :
  preserves keeps_invariant (min_cost_scan pts x_new p c).
Proof.
  revert p c. induction pts as [ | pt pts IH]; intros p c; simpl;
    unfold edge_obstacle_free, get_cost_to_reach; frame.
Qed.

Lemma build_step_invariant fuel goal thr i fp c :
  preserves keeps_invariant (build_step fuel goal thr i fp c).
Proof.
  pose proof do_rrtstar_rewiring_invariant. pose proof resample_invariant.
  pose proof min_cost_scan_invariant.
  unfold build_step, sample_free, random_position, random_random, find_nearest, steer,
    edge_obstacle_free, find_nearby_pts, find_ball_radius, get_min_cost_point,
    reached_goal, get_cost_to_reach.
  frame.
Qed.

Lemma build_loop_invariant fuel goal thr :
  forall i fp c, preserves keeps_invariant (build_loop fuel goal thr i fp c).
Proof.
  pose proof build_step_invariant.
  induction fuel as [ | fuel IH]; intros i fp c; simpl; frame.
Qed.

Lemma build_rrt_tree_invariant fuel root goal thr :
  preserves keeps_invariant (build_rrt_tree fuel root goal thr).
Proof.
  pose proof build_loop_invariant. unfold build_rrt_tree. frame.
Qed.

(** The RRT* side of the tree store keeps [v ∈ children[u] ⇔ parent[v] = u]:
    [add_start_vertex], [add_vertex], [reassign_parent], the rewiring pass
    and the whole of [build_rrt_tree] (which resets the vertices and the
    edges but neither of the two maps) leave it in force however they end,
    normally, in an exception or cut by the fuel. *)
Theorem rrtstar_keeps_child_parent_invariant (s : state) :
  child_parent_invariant s ->
  (forall x, child_parent_invariant (add_start_vertex x s).1)
  /\ (forall pt parent cost, child_parent_invariant (add_vertex pt parent cost s).1)
  /\ (forall pt parent cost allow,
        child_parent_invariant (reassign_parent pt parent cost allow s).1)
  /\ (forall nearby x_min x_new,
        child_parent_invariant (do_rrtstar_rewiring nearby x_min x_new s).1)
  /\ (forall fuel root goal thr,
        child_parent_invariant (build_rrt_tree fuel root goal thr s).1).
Proof.
  intros Hinv. split; [ | split; [ | split; [ | split ] ] ].
  - intros x. apply add_start_vertex_invariant, Hinv.
  - intros pt parent cost. apply add_vertex_invariant, Hinv.
  - intros pt parent cost allow. apply reassign_parent_invariant, Hinv.
  - intros nearby x_min x_new. apply do_rrtstar_rewiring_invariant, Hinv.
  - intros fuel root goal thr. apply build_rrt_tree_invariant, Hinv.
Qed.

(** ** What [build_rrt_tree] leaves behind *)

#[local] Instance keeps_preorder (P : state -> Prop) : PreOrder (keeps P).
Proof. split; unfold keeps; [ intros s; auto | intros s1 s2 s3; auto ]. Qed.

#[local] Instance grows_preorder (f : state -> gset vertex_t) : PreOrder (grows f).
Proof.
  split; unfold grows.
  - intros s. reflexivity.
  - intros s1 s2 s3 H12 H23. etransitivity; eassumption.
Qed.

#[local] Hint Resolve keeps_preorder grows_preorder : frame.
#[local] Hint Extern 1 (preserves (keeps _) (modify ?f)) =>
  apply preserves_modify; intros ? Hkept; exact Hkept : frame.
#[local] Hint Extern 1 (preserves (grows _) (modify ?f)) =>
  apply preserves_modify; intros ?; unfold grows; simpl; set_solver : frame.

(** *** The vertex set only grows during a build *)

Lemma set_child_parent_grows child parent :
  preserves (grows rrt_vertices) (set_child_parent child parent).
Proof.
  unfold set_child_parent, discard_child, add_child, del_parent, pt2tuple,
    get_parent, get_children.
  frame.
Qed.

Lemma resample_grows fuel r p : preserves (grows rrt_vertices) (resample fuel r p).
Proof.
  revert p. induction fuel as [ | fuel IH]; intros p; simpl;
    unfold random_position, random_random; frame.
Qed.

Lemma min_cost_scan_grows pts x_new p c :
  preserves (grows rrt_vertices) (min_cost_scan pts x_new p c).
Proof.
  revert p c. induction pts as [ | pt pts IH]; intros p c; simpl;
    unfold edge_obstacle_free, get_cost_to_reach; frame.
Qed.

#[local] Hint Resolve set_child_parent_grows resample_grows min_cost_scan_grows : frame.

Lemma do_rrtstar_rewiring_grows nearby x_min x_new :
  preserves (grows rrt_vertices) (do_rrtstar_rewiring nearby x_min x_new).
Proof.
  unfold do_rrtstar_rewiring, edge_obstacle_free, get_cost_to_reach, reassign_parent,
    get_parent, get_children, pt2tuple, set_cost_to_reach.
  frame.
Qed.

Lemma build_step_grows fuel goal thr i fp c :
  preserves (grows rrt_vertices) (build_step fuel goal thr i fp c).
Proof.
  pose proof do_rrtstar_rewiring_grows.
  unfold build_step, sample_free, random_position, random_random, find_nearest, steer,
    edge_obstacle_free, find_nearby_pts, find_ball_radius, get_min_cost_point,
    add_vertex, reached_goal, get_cost_to_reach, set_cost_to_reach.
  frame.
Qed.

Lemma build_loop_grows fuel goal thr :
  forall i fp c, preserves (grows rrt_vertices) (build_loop fuel goal thr i fp c).
Proof.
  pose proof build_step_grows.
  induction fuel as [ | fuel IH]; intros i fp c; simpl; frame.
Qed.

(** *** The tree geometry, the vertex set and the costs agree *)

Lemma set_cost_to_reach_consistent pt cost :
  preserves (keeps tree_consistent) (set_cost_to_reach pt cost).
Proof.
  intros s [Htree Hcost]. split; [ exact Htree | ].
  intros v Hv. simpl. rewrite dom_insert. specialize (Hcost v Hv). set_solver.
Qed.

Lemma set_child_parent_consistent child parent :
  preserves (keeps tree_consistent) (set_child_parent child parent).
Proof.
  unfold set_child_parent, discard_child, add_child, del_parent, pt2tuple,
    get_parent, get_children.
  frame.
Qed.

Lemma add_start_vertex_consistent x :
  preserves (keeps tree_consistent) (add_start_vertex x).
Proof.
  intros s [Htree Hcost]. split; simpl.
  - rewrite Htree. reflexivity.
  - intros v Hv. rewrite dom_insert.
    apply elem_of_union in Hv as [Hv | Hv]; [ specialize (Hcost v Hv) | ]; set_solver.
Qed.

Lemma add_vertex_consistent pt parent cost :
  preserves (keeps tree_consistent) (add_vertex pt parent cost).
Proof.
  intros s [Htree Hcost].
  destruct (add_vertex_spec s pt parent cost)
    as (s' & Hrun & HT & HV & _ & _ & HC & _).
  rewrite Hrun. simpl. split.
  - rewrite HT, HV, Htree. reflexivity.
  - intros v Hv. rewrite HC, dom_insert. rewrite HV in Hv.
    apply elem_of_union in Hv as [Hv | Hv]; [ specialize (Hcost v Hv) | ]; set_solver.
Qed.

#[local] Hint Resolve set_cost_to_reach_consistent set_child_parent_consistent
  add_start_vertex_consistent add_vertex_consistent : frame.

Lemma resample_consistent fuel r p : preserves (keeps tree_consistent) (resample fuel r p).
Proof.
  revert p. induction fuel as [ | fuel IH]; intros p; simpl;
    unfold random_position, random_random; frame.
Qed.

Lemma min_cost_scan_consistent pts x_new p c :
  preserves (keeps tree_consistent) (min_cost_scan pts x_new p c).
Proof.
  revert p c. induction pts as [ | pt pts IH]; intros p c; simpl;
    unfold edge_obstacle_free, get_cost_to_reach; frame.
Qed.

#[local] Hint Resolve resample_consistent min_cost_scan_consistent : frame.

Lemma do_rrtstar_rewiring_consistent nearby x_min x_new :
  preserves (keeps tree_consistent) (do_rrtstar_rewiring nearby x_min x_new).
Proof.
  unfold do_rrtstar_rewiring, edge_obstacle_free, get_cost_to_reach, reassign_parent,
    get_parent, get_children, pt2tuple.
  frame.
Qed.

Lemma build_step_consistent fuel goal thr i fp c :
  preserves (keeps tree_consistent) (build_step fuel goal thr i fp c).
Proof.
  pose proof do_rrtstar_rewiring_consistent.
  unfold build_step, sample_free, random_position, random_random, find_nearest, steer,
    edge_obstacle_free, find_nearby_pts, find_ball_radius, get_min_cost_point,
    reached_goal, get_cost_to_reach.
  frame.
Qed.

Lemma build_loop_consistent fuel goal thr :
  forall i fp c, preserves (keeps tree_consistent) (build_loop fuel goal thr i fp c).
Proof.
  pose proof build_step_consistent.
  induction fuel as [ | fuel IH]; intros i fp c; simpl; frame.
Qed.

(** [build_rrt_tree] from the reset on: the loop and the final [return]. *)
Lemma build_rrt_tree_unfold fuel root goal thr (s : state) :
  build_rrt_tree fuel root goal thr s
  = bind (build_loop fuel goal (default (goal_reached_thresh s) thr) 0 None Inf)
      (fun '(_, final_pt, final_pt_cost) => ret (final_pt, final_pt_cost))
      (add_start_vertex root
         (set_rrt_edges (fun _ => ∅)
            (set_rrt_vertices (fun _ => ∅) (set_rrt_tree (fun _ => ∅) s)))).1.
Proof.
  unfold build_rrt_tree. rewrite bind_get, !bind_modify.
  set (s3 := set_rrt_edges _ _).
  assert (Hadd : add_start_vertex root s3 = ((add_start_vertex root s3).1, Ok tt))
    by reflexivity.
  rewrite (bind_Ok _ _ _ _ _ Hadd). reflexivity.
Qed.

Lemma build_rrt_tree_state fuel root goal thr (s : state) :
  (build_rrt_tree fuel root goal thr s).1
  = (build_loop fuel goal (default (goal_reached_thresh s) thr) 0 None Inf
       (add_start_vertex root
          (set_rrt_edges (fun _ => ∅)
             (set_rrt_vertices (fun _ => ∅) (set_rrt_tree (fun _ => ∅) s)))).1).1.
Proof.
  rewrite build_rrt_tree_unfold. unfold bind at 1.
  destruct (build_loop _ _ _ _ _ _ _) as [s' [[[i fp] c] | e | ]]; reflexivity.
Qed.

(** However [build_rrt_tree] ends, the planner it leaves holds a tree whose
    geometry [rrt_tree] has exactly the points of [rrt_vertices], the root
    among them, and every vertex has an entry in [cost_to_reach]. *)
Theorem build_rrt_tree_tree_consistent (fuel : nat) (root goal : vertex_t)
    (goal_threshold : option Q) (s : state) :
  rrt_tree (build_rrt_tree fuel root goal goal_threshold s).1
  = rrt_vertices (build_rrt_tree fuel root goal goal_threshold s).1
  /\ root ∈ rrt_vertices (build_rrt_tree fuel root goal goal_threshold s).1
  /\ forall v, v ∈ rrt_vertices (build_rrt_tree fuel root goal goal_threshold s).1 ->
       exists c, cost_to_reach (build_rrt_tree fuel root goal goal_threshold s).1 !! v
                 = Some c.
Proof.
  rewrite build_rrt_tree_state.
  set (s0 := (add_start_vertex root _).1).
  assert (H0 : tree_consistent s0).
  { split; [ reflexivity | ]. intros v Hv. simpl in *. rewrite dom_insert. set_solver. }
  assert (Hroot : root ∈ rrt_vertices s0) by (simpl; set_solver).
  destruct (build_loop_consistent fuel goal (default (goal_reached_thresh s) goal_threshold)
              0%Z None Inf s0 H0) as [Htree Hcost].
  split; [ exact Htree | ].
  split; [ apply (build_loop_grows fuel goal _ 0%Z None Inf s0), Hroot | ].
  intros v Hv. apply elem_of_dom, Hcost, Hv.
Qed.

(** *** The recorded goal-reaching vertex *)

Lemma recorded_mono goal fp (s s' : state) :
  rrt_vertices s ⊆ rrt_vertices s' -> goal_reached_thresh s' = goal_reached_thresh s ->
  recorded goal fp s -> recorded goal fp s'.
Proof.
  intros HV Hthr. destruct fp as [p | ]; simpl; [ | auto ].
  rewrite Hthr. intros [Hp Hd]. split; [ apply HV, Hp | exact Hd ].
Qed.

Lemma build_step_recorded fuel goal thr i fp c (s s' : state) broke fp' c' :
  build_step fuel goal thr i fp c s = (s', Ok (broke, fp', c')) ->
  recorded goal fp s -> recorded goal fp' s'.
Proof.
  intros Hstep Hrec.
  assert (Hkeep : recorded goal fp s').
  { pose proof (build_step_grows fuel goal thr i fp c s) as HV.
    pose proof (build_step_settings fuel goal thr i fp c s) as (_ & _ & _ & Hthr).
    rewrite Hstep in HV, Hthr. exact (recorded_mono _ _ _ _ HV Hthr Hrec). }
  revert Hstep. unfold build_step. rewrite bind_get. intros Hstep.
  apply bind_inv_Ok in Hstep as (s1 & x_rand & _ & Hstep).
  apply bind_inv_Ok in Hstep as (s2 & x_nearest & _ & Hstep).
  apply bind_inv_Ok in Hstep as (s3 & x_new & _ & Hstep).
  apply bind_inv_Ok in Hstep as (s4 & free & _ & Hstep).
  destruct free; [ | injection Hstep as <- _ <- _; exact Hkeep ].
  apply bind_inv_Ok in Hstep as (s5 & nearby & _ & Hstep).
  apply bind_inv_Ok in Hstep as (s6 & [x_min min_cost] & _ & Hstep).
  apply bind_inv_Ok in Hstep as (s7 & [] & Hadd & Hstep).
  apply bind_inv_Ok in Hstep as (s8 & [] & Hrewire & Hstep).
  apply bind_inv_Ok in Hstep as (s9 & reached & Hreached & Hstep).
  assert (Hnew : x_new ∈ rrt_vertices s8).
  { pose proof (do_rrtstar_rewiring_grows nearby x_min x_new s7) as HV.
    rewrite Hrewire in HV. apply HV.
    destruct (add_vertex_spec s6 x_new x_min min_cost) as (s7' & Hrun & _ & HV7 & _).
    rewrite Hrun in Hadd. injection Hadd as ->. rewrite HV7. set_solver. }
  rewrite reached_goal_reads_field in Hreached. injection Hreached as <- <-.
  destruct (Qltb (distance x_new goal) (goal_reached_thresh s8)) eqn:Hd;
    [ | injection Hstep as <- _ <- _; exact Hkeep ].
  rewrite bind_get in Hstep.
  destruct (built_tree s8).
  - injection Hstep as <- _ <- _. split; assumption.
  - destruct (pyfloat_ltb min_cost c).
    + injection Hstep as <- _ <- _. split; assumption.
    + injection Hstep as <- _ <- _. exact Hkeep.
Qed.

Lemma build_loop_recorded fuel goal thr :
  forall i fp c (s s' : state) i' fp' c',
    build_loop fuel goal thr i fp c s = (s', Ok (i', fp', c')) ->
    recorded goal fp s -> recorded goal fp' s'.
Proof.
  induction fuel as [ | fuel IH]; intros i fp c s s' i' fp' c' Hloop Hrec;
    simpl in Hloop; rewrite bind_get in Hloop;
    destruct (build_guard s i fp) eqn:Hguard.
  - discriminate.
  - injection Hloop as <- _ <- _. exact Hrec.
  - apply bind_inv_Ok in Hloop as (s1 & [[broke fp1] c1] & Hstep & Hloop).
    pose proof (build_step_recorded _ _ _ _ _ _ _ _ _ _ _ Hstep Hrec) as Hrec1.
    destruct broke.
    + injection Hloop as <- _ <- _. exact Hrec1.
    + exact (IH _ _ _ _ _ _ _ _ Hloop Hrec1).
  - injection Hloop as <- _ <- _. exact Hrec.
Qed.

Lemma build_rrt_tree_returns fuel root goal thr (s s' : state) fp c :
  build_rrt_tree fuel root goal thr s = (s', Ok (fp, c)) ->
  exists p,
    fp = Some p /\ p ∈ rrt_vertices s'
    /\ Qltb (distance p goal) (goal_reached_thresh s) = true.
Proof.
  rewrite build_rrt_tree_unfold.
  set (s0 := (add_start_vertex root _).1).
  set (thr' := default (goal_reached_thresh s) thr).
  intros Hrun. apply bind_inv_Ok in Hrun as (s1 & [[i fp1] c1] & Hloop & Hret).
  injection Hret as <- <- <-.
  destruct (build_loop_exit _ _ _ _ _ _ _ _ _ _ _ Hloop) as [Hfp _].
  pose proof (build_loop_recorded _ _ _ _ _ _ _ _ _ _ _ Hloop I) as Hrec.
  pose proof (build_loop_settings fuel goal thr' 0%Z None Inf s0) as (_ & _ & _ & Hthr).
  rewrite Hloop in Hthr. simpl in Hthr.
  destruct fp1 as [p | ]; [ | congruence ].
  destruct Hrec as [Hp Hd]. exists p. split; [ reflexivity | ].
  split; [ exact Hp | ]. rewrite Hthr in Hd. exact Hd.
Qed.

(** When [build_rrt_tree] returns, its [final_pt] is a vertex of the tree
    it built, and it lies within [self.goal_reached_thresh] of [goal_pt]:
    the [goal_threshold] passed in plays no part. *)
Theorem build_rrt_tree_final_pt (fuel : nat) (root goal : vertex_t)
    (goal_threshold : option Q) (s : state) (final_pt : option vertex_t)
    (final_pt_cost : pyfloat) :
  returned (build_rrt_tree fuel root goal goal_threshold s)
  = Some (final_pt, final_pt_cost) ->
  exists p,
    final_pt = Some p
    /\ p ∈ rrt_vertices (build_rrt_tree fuel root goal goal_threshold s).1
    /\ (distance p goal < goal_reached_thresh s)%Q.
Proof.
  unfold returned. intros Hret.
  destruct (build_rrt_tree fuel root goal goal_threshold s) as [s' [[fp c] | e | ]] eqn:Hrun;
    simpl in Hret; try discriminate.
  injection Hret as -> ->.
  destruct (build_rrt_tree_returns _ _ _ _ _ _ _ _ Hrun) as (p & Hfp & Hp & Hd).
  exists p. split; [ exact Hfp | ]. split; [ exact Hp | ].
  apply Qltb_lt, Hd.
Qed.

(** *** A world without [getBounds] *)

Lemma find_nearby_pts_without_bounds e x (s : state) :
  getBounds = Raises e -> find_nearby_pts x s = (s, Raise e).
Proof.
  intros Hb.
  assert (Hr : find_ball_radius s = (s, Raise e)).
  { unfold find_ball_radius. rewrite bind_get. unfold bind, lift, finish.
    rewrite Hb. reflexivity. }
  unfold find_nearby_pts. apply (bind_Raise _ _ _ _ _ Hr).
Qed.

Lemma build_step_without_bounds e fuel goal thr i fp c (s s' : state) broke fp' c' :
  getBounds = Raises e ->
  build_step fuel goal thr i fp c s = (s', Ok (broke, fp', c')) ->
  broke = false /\ fp' = fp /\ c' = c.
Proof.
  intros Hb. unfold build_step. rewrite bind_get. intros Hstep.
  apply bind_inv_Ok in Hstep as (s1 & x_rand & _ & Hstep).
  apply bind_inv_Ok in Hstep as (s2 & x_nearest & _ & Hstep).
  apply bind_inv_Ok in Hstep as (s3 & x_new & _ & Hstep).
  apply bind_inv_Ok in Hstep as (s4 & free & _ & Hstep).
  destruct free; [ | injection Hstep as _ <- <- <-; auto ].
  apply bind_inv_Ok in Hstep as (s5 & nearby & Hnear & _).
  rewrite (find_nearby_pts_without_bounds e) in Hnear by exact Hb. discriminate.
Qed.

Lemma build_loop_without_bounds e fuel goal thr :
  getBounds = Raises e ->
  forall i c (s : state), returned (build_loop fuel goal thr i None c s) = None.
Proof.
  intros Hb. induction fuel as [ | fuel IH]; intros i c s; unfold returned; simpl;
    rewrite bind_get; unfold build_guard; rewrite orb_true_r.
  - reflexivity.
  - unfold bind.
    destruct (build_step fuel goal thr i None c s) as [s1 [[[broke fp1] c1] | e' | ]] eqn:Hstep;
      [ | reflexivity | reflexivity ].
    destruct (build_step_without_bounds e _ _ _ _ _ _ _ _ _ _ _ Hb Hstep) as (-> & -> & ->).
    apply IH.
Qed.

(** The ball radius of [find_nearby_pts] asks the world for [getBounds()].
    With a world object that has no such method ([world.py]'s [World] has
    none) every pass of the build loop that finds a free edge ends in the
    [AttributeError], no goal-reaching vertex is ever recorded, and
    [build_rrt_tree] never returns. *)
Theorem build_rrt_tree_needs_getBounds (e : exn) (fuel : nat) (root goal : vertex_t)
    (goal_threshold : option Q) (s : state) :
  getBounds = Raises e ->
  returned (build_rrt_tree fuel root goal goal_threshold s) = None.
Proof.
  intros Hb. rewrite build_rrt_tree_unfold.
  pose proof (build_loop_without_bounds e fuel goal
                (default (goal_reached_thresh s) goal_threshold) Hb 0%Z Inf
                (add_start_vertex root
                   (set_rrt_edges (fun _ => ∅)
                      (set_rrt_vertices (fun _ => ∅) (set_rrt_tree (fun _ => ∅) s)))).1)
    as Hloop.
  unfold returned in *. unfold bind.
  destruct (build_loop _ _ _ _ _ _ _) as [s' [[[i fp] c] | e' | ]]; simpl in *;
    [ discriminate | reflexivity | reflexivity ].
Qed.

(** ** Sampling and steering *)

Lemma set_random_draws_same (s : state) :
  set_random_draws (fun _ => random_draws s) s = s.
Proof. destruct s. reflexivity. Qed.

Lemma random_random_run (s : state) :
  random_random s = (set_random_draws S s, Ok (random_tape (random_draws s))).
Proof. reflexivity. Qed.

Lemma random_position_run (s : state) :
  random_position s
  = (set_random_draws (fun _ => S (S (random_draws s))) s,
     Ok (Point (random_tape (random_draws s) * inject_Z (world_dims s).1)
               (random_tape (S (random_draws s)) * inject_Z (world_dims s).2))).
Proof. destruct s. reflexivity. Qed.

Lemma resample_spec fuel r :
  forall p (s s' : state) q,
    resample fuel r p s = (s', Ok q) ->
    intersects_buffer (detected_obstacles s) q r = false
    /\ s' = set_random_draws (fun _ => random_draws s') s
    /\ random_draws s <= random_draws s'.
Proof.
  induction fuel as [ | fuel IH]; intros p s s' q Hrun; simpl in Hrun;
    rewrite bind_get in Hrun;
    destruct (intersects_buffer (detected_obstacles s) p r) eqn:Hhit;
    try discriminate.
  - injection Hrun as <- <-. rewrite set_random_draws_same. auto.
  - rewrite (bind_Ok _ _ _ _ _ (random_position_run s)) in Hrun.
    apply IH in Hrun as (Hfree & Hs' & Hle). simpl in *.
    split; [ exact Hfree | ]. split; [ | lia ].
    rewrite Hs' at 1. reflexivity.
  - injection Hrun as <- <-. rewrite set_random_draws_same. auto.
Qed.

(** A point that [sample_free] returns is the goal point or lies clear of
    the detected obstacles by the buffer radius (the one passed, or
    [obstacle_avoidance_radius] by default); the goal point itself is
    returned unchecked. The call draws from the random source and changes
    nothing else of the planner. *)
Theorem sample_free_postcondition (fuel : nat) (goal : vertex_t) (buffer_radius : option Q)
    (s s' : state) (p : vertex_t) :
  sample_free fuel goal buffer_radius s = (s', Ok p) ->
  (p = goal
   \/ intersects_buffer (detected_obstacles s) p
        (default (obstacle_avoidance_radius s) buffer_radius) = false)
  /\ s' = set_random_draws (fun _ => random_draws s') s
  /\ random_draws s < random_draws s'.
Proof.
  unfold sample_free. intros Hrun.
  rewrite (bind_Ok _ _ _ _ _ (random_random_run s)), bind_get in Hrun.
  cbn [eps set_random_draws] in Hrun.
  destruct (Qltb (random_tape (random_draws s)) (eps s)).
  - injection Hrun as <- <-. split; [ left; reflexivity | ].
    split; [ reflexivity | simpl; lia ].
  - rewrite (bind_Ok _ _ _ _ _ (random_position_run _)) in Hrun.
    apply resample_spec in Hrun as (Hfree & Hs' & Hle). simpl in *.
    split; [ right; exact Hfree | ]. split; [ | lia ].
    rewrite Hs' at 1. reflexivity.
Qed.

Lemma resample_blocked r (s : state) :
  (forall n m, intersects_buffer (detected_obstacles s)
                 (Point (random_tape n * inject_Z (world_dims s).1)
                        (random_tape m * inject_Z (world_dims s).2)) r = true) ->
  forall fuel p k,
    intersects_buffer (detected_obstacles s) p r = true ->
    (resample fuel r p (set_random_draws (fun _ => k) s)).2 = OutOfFuel.
Proof.
  intros Hall. induction fuel as [ | fuel IH]; intros p k Hp; simpl; rewrite bind_get;
    cbn [detected_obstacles set_random_draws]; rewrite Hp.
  - reflexivity.
  - rewrite (bind_Ok _ _ _ _ _ (random_position_run _)).
    cbn [set_random_draws random_draws world_dims].
    apply (IH _ (S (S k))). apply Hall.
Qed.

Lemma resample_blocked_from k0 r (s : state) :
  (forall n m, k0 <= n -> k0 <= m ->
     intersects_buffer (detected_obstacles s)
       (Point (random_tape n * inject_Z (world_dims s).1)
              (random_tape m * inject_Z (world_dims s).2)) r = true) ->
  forall fuel p k,
    k0 <= k -> intersects_buffer (detected_obstacles s) p r = true ->
    (resample fuel r p (set_random_draws (fun _ => k) s)).2 = OutOfFuel.
Proof.
  intros Hall. induction fuel as [ | fuel IH]; intros p k Hk Hp; simpl; rewrite bind_get;
    cbn [detected_obstacles set_random_draws]; rewrite Hp.
  - reflexivity.
  - rewrite (bind_Ok _ _ _ _ _ (random_position_run _)).
    cbn [set_random_draws random_draws world_dims].
    apply (IH _ (S (S k))); [ lia | ]. apply Hall; lia.
Qed.

(** [sample_free] does not return when its first draw does not select
    the goal and every position drawn from then on is within the buffer
    radius of a detected obstacle. *)
Lemma sample_free_blocked_from fuel goal r (s : state) :
  Qltb (random_tape (random_draws s)) (eps s) = false ->
  (forall n m, random_draws s < n -> random_draws s < m ->
     intersects_buffer (detected_obstacles s)
       (Point (random_tape n * inject_Z (world_dims s).1)
              (random_tape m * inject_Z (world_dims s).2)) r = true) ->
  (sample_free fuel goal (Some r) s).2 = OutOfFuel.
Proof.
  intros Hdraw Hall. unfold sample_free.
  rewrite (bind_Ok _ _ _ _ _ (random_random_run s)), bind_get.
  cbn [eps set_random_draws]. rewrite Hdraw.
  rewrite (bind_Ok _ _ _ _ _ (random_position_run _)).
  cbn [set_random_draws random_draws world_dims default].
  apply (resample_blocked_from (S (random_draws s)) _ s); [ | lia | apply Hall; lia ].
  intros n m Hn Hm. apply Hall; lia.
Qed.

(** The rejection loop of [sample_free] has no bound: when the draw does
    not select the goal and every position the random source can give is
    within the buffer radius of a detected obstacle, [sample_free] does not
    return, whatever the fuel. *)
Theorem sample_free_rejects_forever (fuel : nat) (goal : vertex_t)
    (buffer_radius : option Q) (s : state) :
  Qltb (random_tape (random_draws s)) (eps s) = false ->
  (forall n m, intersects_buffer (detected_obstacles s)
                 (Point (random_tape n * inject_Z (world_dims s).1)
                        (random_tape m * inject_Z (world_dims s).2))
                 (default (obstacle_avoidance_radius s) buffer_radius) = true) ->
  (sample_free fuel goal buffer_radius s).2 = OutOfFuel.
Proof.
  intros Hdraw Hall. unfold sample_free.
  rewrite (bind_Ok _ _ _ _ _ (random_random_run s)), bind_get.
  cbn [eps set_random_draws]. rewrite Hdraw.
  rewrite (bind_Ok _ _ _ _ _ (random_position_run _)).
  cbn [set_random_draws random_draws world_dims obstacle_avoidance_radius].
  apply (resample_blocked _ s Hall). apply Hall.
Qed.

Lemma Qmin_1_l (x : Q) : (1 <= x)%Q -> Qmin 1 x = 1%Q.
Proof.
  intros Hx. unfold Qmin, GenericMinMax.gmin.
  destruct (1 ?= x)%Q eqn:Hc; try reflexivity.
  apply Qgt_alt in Hc. exfalso. exact (Qlt_not_le _ _ Hc Hx).
Qed.

(** [steer] leaves the planner as it is. It returns the sampled point when
    that is at distance 0; a point within reach ([dist <= steer_distance])
    is interpolated at factor 1; and when interpolating at the factor
    [min(1, steer_distance / dist)] moves at most that fraction of the way,
    the new point is no further than [steer_distance] from the nearest. *)
Theorem steer_step_bounded (s : state) (x_nearest x_rand : vertex_t) :
  (0 <= steer_distance s)%Q ->
  (0 <= distance x_nearest x_rand)%Q ->
  (distance x_nearest
     (interpolate x_nearest x_rand
        (Qmin 1 (steer_distance s / distance x_nearest x_rand)))
   <= Qmin 1 (steer_distance s / distance x_nearest x_rand)
      * distance x_nearest x_rand)%Q ->
  exists x_new,
    steer x_nearest x_rand s = (s, Ok x_new)
    /\ (distance x_nearest x_new <= steer_distance s)%Q
    /\ ((distance x_nearest x_rand == 0)%Q -> x_new = x_rand)
    /\ ((0 < distance x_nearest x_rand)%Q ->
        (distance x_nearest x_rand <= steer_distance s)%Q ->
        x_new = interpolate x_nearest x_rand 1).
Proof.
  intros Hsd Hd Hinterp. unfold steer. rewrite bind_get.
  set (dist := distance x_nearest x_rand) in *.
  destruct (Qeq_bool dist 0) eqn:Hz.
  - apply Qeq_bool_iff in Hz. exists x_rand. split; [ reflexivity | ].
    split; [ fold dist; rewrite Hz; exact Hsd | ].
    split; [ reflexivity | ].
    intros Hpos. rewrite Hz in Hpos. exfalso. exact (Qlt_irrefl _ Hpos).
  - apply Qeq_bool_neq in Hz.
    assert (Hpos : (0 < dist)%Q).
    { apply Qle_lt_or_eq in Hd as [Hlt | Heq]; [ exact Hlt | ].
      exfalso. apply Hz. symmetry. exact Heq. }
    eexists. split; [ reflexivity | ].
    split; [ | split ].
    + eapply Qle_trans; [ exact Hinterp | ].
      eapply Qle_trans; [ apply Qmult_le_compat_r; [ apply Q.le_min_r | exact Hd ] | ].
      apply Qle_lteq. right. field. exact Hz.
    + intros Heq. exfalso. exact (Hz Heq).
    + intros _ Hreach. rewrite Qmin_1_l; [ reflexivity | ].
      apply Qle_shift_div_l; [ exact Hpos | ]. rewrite Qmult_1_l. exact Hreach.
Qed.

(** ** Costs *)

Lemma pyfloat_ltb_irrefl a : pyfloat_ltb a a = false.
Proof.
  destruct a as [x | ]; [ | reflexivity ]. simpl. apply Qltb_ge, Qle_refl.
Qed.

Lemma pyfloat_ltb_asym a b : pyfloat_ltb a b = true -> pyfloat_ltb b a = false.
Proof.
  destruct a as [x | ], b as [y | ]; simpl; try reflexivity; try discriminate.
  intros Hlt. apply Qltb_lt in Hlt. apply Qltb_ge, Qlt_le_weak, Hlt.
Qed.

(** [q >= m] and [t < m] give [q >= t]. *)
Lemma pyfloat_ltb_below t m q :
  pyfloat_ltb t m = true -> pyfloat_ltb q m = false -> pyfloat_ltb q t = false.
Proof.
  destruct t as [z | ], m as [y | ], q as [x | ]; simpl; try reflexivity; try discriminate.
  intros Hzy Hxy. apply Qltb_lt in Hzy. apply Qltb_ge in Hxy. apply Qltb_ge.
  apply Qlt_le_weak. eapply Qlt_le_trans; eassumption.
Qed.

(** [a >= b] and [b >= c] give [a >= c]. *)
Lemma pyfloat_ltb_false_trans a b c :
  pyfloat_ltb a b = false -> pyfloat_ltb b c = false -> pyfloat_ltb a c = false.
Proof.
  destruct a as [x | ], b as [y | ], c as [z | ]; simpl; try reflexivity; try discriminate.
  intros Hxy Hyz. apply Qltb_ge in Hxy, Hyz. apply Qltb_ge.
  eapply Qle_trans; eassumption.
Qed.

Lemma edge_obstacle_free_run a b (s : state) :
  edge_obstacle_free a b s = (s, Ok (negb (intersects_edge (detected_obstacles s) a b))).
Proof. reflexivity. Qed.

Lemma get_cost_to_reach_run v (s : state) :
  get_cost_to_reach v s
  = (s, match cost_to_reach s !! v with Some c => Ok c | None => Raise KeyError end).
Proof.
  unfold get_cost_to_reach. rewrite bind_get. destruct (cost_to_reach s !! v); reflexivity.
Qed.

Lemma min_cost_scan_spec x_new :
  forall pts min_point min_cost (s s' : state) p c,
    min_cost_scan pts x_new min_point min_cost s = (s', Ok (p, c)) ->
    s' = s
    /\ ((p = min_point /\ c = min_cost)
        \/ (p ∈ pts /\ intersects_edge (detected_obstacles s) p x_new = false
            /\ cost_through s p x_new = Some c))
    /\ pyfloat_ltb min_cost c = false
    /\ (forall q cq, q ∈ pts ->
          intersects_edge (detected_obstacles s) q x_new = false ->
          cost_through s q x_new = Some cq -> pyfloat_ltb cq c = false).
Proof.
  induction pts as [ | point rest IH]; intros min_point min_cost s s' p c Hrun;
    simpl in Hrun.
  - injection Hrun as <- <- <-. split; [ reflexivity | ]. split; [ left; auto | ].
    split; [ apply pyfloat_ltb_irrefl | ]. intros q cq Hq. apply elem_of_nil in Hq. tauto.
  - rewrite (bind_Ok _ _ _ _ _ (edge_obstacle_free_run point x_new s)) in Hrun.
    destruct (intersects_edge (detected_obstacles s) point x_new) eqn:Hhit;
      cbn [negb] in Hrun.
    + apply IH in Hrun as (-> & Hp & Hmin & Hall).
      split; [ reflexivity | ]. split.
      { destruct Hp as [Hp | (Hp & Hfree & Hc)]; [ left; exact Hp | right ].
        split; [ right; exact Hp | auto ]. }
      split; [ exact Hmin | ].
      intros q cq Hq Hfree Hcq. apply elem_of_cons in Hq as [-> | Hq]; [ congruence | ].
      exact (Hall q cq Hq Hfree Hcq).
    + unfold bind at 1 in Hrun. rewrite get_cost_to_reach_run in Hrun.
      destruct (cost_to_reach s !! point) as [cpoint | ] eqn:Hcost; [ | discriminate ].
      set (temp := pyfloat_add cpoint (Fin (get_edge_cost point x_new))) in *.
      assert (Htemp : cost_through s point x_new = Some temp)
        by (unfold cost_through; rewrite Hcost; reflexivity).
      destruct (pyfloat_ltb temp min_cost) eqn:Hlt.
      * apply IH in Hrun as (-> & Hp & Hmin & Hall).
        split; [ reflexivity | ]. split.
        { destruct Hp as [[-> ->] | (Hp & Hfree & Hc)]; right.
          - split; [ left; reflexivity | auto ].
          - split; [ right; exact Hp | auto ]. }
        split;
          [ exact (pyfloat_ltb_false_trans _ _ _ (pyfloat_ltb_asym _ _ Hlt) Hmin) | ].
        intros q cq Hq Hfree Hcq. apply elem_of_cons in Hq as [-> | Hq].
        -- rewrite Htemp in Hcq. injection Hcq as <-. exact Hmin.
        -- exact (Hall q cq Hq Hfree Hcq).
      * apply IH in Hrun as (-> & Hp & Hmin & Hall).
        split; [ reflexivity | ]. split.
        { destruct Hp as [Hp | (Hp & Hfree & Hc)]; [ left; exact Hp | right ].
          split; [ right; exact Hp | auto ]. }
        split; [ exact Hmin | ].
        intros q cq Hq Hfree Hcq. apply elem_of_cons in Hq as [-> | Hq].
        -- rewrite Htemp in Hcq. injection Hcq as <-.
           exact (pyfloat_ltb_false_trans _ _ _ Hlt Hmin).
        -- exact (Hall q cq Hq Hfree Hcq).
Qed.

(** What [get_min_cost_point] returns, when it returns: a point [p] with
    its cost [c = cost_to_reach[p] + dist(p, x_new)], where [p] is
    [x_nearest] or a nearby point whose edge to [x_new] is obstacle free,
    and no such point, [x_nearest] included, gives a smaller cost. The
    planner is left as it is. *)
Theorem get_min_cost_point_minimal (nearby : list vertex_t) (x_nearest x_new : vertex_t)
    (s s' : state) (p : vertex_t) (c : pyfloat) :
  get_min_cost_point nearby x_nearest x_new s = (s', Ok (p, c)) ->
  s' = s
  /\ cost_through s p x_new = Some c
  /\ (p = x_nearest
      \/ (p ∈ nearby /\ intersects_edge (detected_obstacles s) p x_new = false))
  /\ (forall q cq,
        q = x_nearest
        \/ (q ∈ nearby /\ intersects_edge (detected_obstacles s) q x_new = false) ->
        cost_through s q x_new = Some cq ->
        pyfloat_ltb cq c = false).
Proof.
  unfold get_min_cost_point. intros Hrun.
  unfold bind at 1 in Hrun. rewrite get_cost_to_reach_run in Hrun.
  destruct (cost_to_reach s !! x_nearest) as [c0 | ] eqn:Hc0; [ | discriminate ].
  apply min_cost_scan_spec in Hrun as (-> & Hp & Hmin & Hall).
  assert (H0 : cost_through s x_nearest x_new
               = Some (pyfloat_add c0 (Fin (get_edge_cost x_nearest x_new))))
    by (unfold cost_through; rewrite Hc0; reflexivity).
  split; [ reflexivity | ]. split; [ | split ].
  - destruct Hp as [[-> ->] | (_ & _ & Hc)]; [ exact H0 | exact Hc ].
  - destruct Hp as [[-> _] | (Hp & Hfree & _)]; [ left; reflexivity | right; auto ].
  - intros q cq [-> | [Hq Hfree]] Hcq.
    + rewrite H0 in Hcq. injection Hcq as <-. exact Hmin.
    + exact (Hall q cq Hq Hfree Hcq).
Qed.

(** *** Rewiring never raises a cost *)

#[local] Instance costs_not_raised_preorder : PreOrder costs_not_raised.
Proof.
  split; unfold costs_not_raised.
  - intros s v c Hc. exists c. split; [ exact Hc | apply pyfloat_ltb_irrefl ].
  - intros s1 s2 s3 H12 H23 v c Hc.
    destruct (H12 v c Hc) as (c' & Hc' & Hle').
    destruct (H23 v c' Hc') as (c'' & Hc'' & Hle'').
    exists c''. split; [ exact Hc'' | ]. exact (pyfloat_ltb_false_trans _ _ _ Hle' Hle'').
Qed.

#[local] Instance cost_set_at_preorder pt cost : PreOrder (cost_set_at pt cost).
Proof.
  split; unfold cost_set_at.
  - intros s. left. reflexivity.
  - intros s1 s2 s3 [H12 | H12] [H23 | H23]; rewrite H23, H12; auto.
    right. apply insert_insert_eq.
Qed.

#[local] Hint Resolve cost_set_at_preorder : frame.
#[local] Hint Extern 1 (preserves (cost_set_at _ _) (modify ?f)) =>
  apply preserves_modify; intros ?; unfold cost_set_at; simpl; auto : frame.

Lemma reassign_parent_cost_set pt parent cost allow :
  preserves (cost_set_at pt cost) (reassign_parent pt parent cost allow).
Proof.
  unfold reassign_parent, set_child_parent, discard_child, add_child, del_parent,
    pt2tuple, get_parent, get_children, set_cost_to_reach.
  frame.
Qed.

Lemma do_rrtstar_rewiring_costs nearby x_min x_new :
  preserves costs_not_raised (do_rrtstar_rewiring nearby x_min x_new).
Proof.
  unfold do_rrtstar_rewiring. apply preserves_for_each; [ typeclasses eauto | ].
  intros x_nearby s.
  rewrite (bind_Ok _ _ _ _ _ (edge_obstacle_free_run x_new x_nearby s)).
  destruct (negb _); [ | reflexivity ].
  unfold bind at 1. rewrite get_cost_to_reach_run.
  destruct (cost_to_reach s !! x_new) as [c_new | ]; [ | reflexivity ].
  unfold bind at 1. rewrite get_cost_to_reach_run.
  destruct (cost_to_reach s !! x_nearby) as [c_nearby | ] eqn:Hnearby; [ | reflexivity ].
  set (cost_with_new := pyfloat_add c_new (Fin (get_edge_cost x_new x_nearby))).
  destruct (pyfloat_ltb cost_with_new c_nearby) eqn:Hlt; [ | reflexivity ].
  rewrite bind_get.
  destruct (reassign_parent_cost_set x_nearby x_new cost_with_new
              (bool_decide (x_new = curr_pos s)) s) as [Hsame | Hset];
    intros v c Hc.
  - rewrite Hsame. exists c. split; [ exact Hc | apply pyfloat_ltb_irrefl ].
  - rewrite Hset. destruct (decide (v = x_nearby)) as [-> | Hv].
    + rewrite lookup_insert_eq. exists cost_with_new. split; [ reflexivity | ].
      rewrite Hnearby in Hc. injection Hc as <-. apply pyfloat_ltb_asym, Hlt.
    + rewrite lookup_insert_ne by auto. exists c.
      split; [ exact Hc | apply pyfloat_ltb_irrefl ].
Qed.

(** The rewiring pass of RRT* only ever lowers costs: whatever vertex had a
    cost to reach before [do_rrtstar_rewiring] has one after it that is no
    larger, however the pass ends. *)
Theorem do_rrtstar_rewiring_lowers_costs (nearby : list vertex_t) (x_min x_new : vertex_t)
    (s : state) (v : vertex_t) (c : pyfloat) :
  cost_to_reach s !! v = Some c ->
  exists c',
    cost_to_reach (do_rrtstar_rewiring nearby x_min x_new s).1 !! v = Some c'
    /\ pyfloat_ltb c c' = false.
Proof. intros Hc. exact (do_rrtstar_rewiring_costs nearby x_min x_new s v c Hc). Qed.

(** ** The queue's other callers *)

Lemma popPQ_empty (s : state) : rewiringPQ s = [] -> popPQ s = (s, Raise QueueEmpty).
Proof.
  intros Hq. unfold popPQ. apply (bind_Raise _ _ _ _ _ (rewiringPQ_get_nil s Hq)).
Qed.

(** ** The queues the planner builds *)







(** [queue_not_empty] in every case; it never answers [True]. On an empty
    queue it answers [False]. On a queue whose head entry is stale it
    answers [False] as well, having emptied the heap. On a queue whose
    head entry is live it takes the entry off the heap and out of the key
    map, and the re-insertion ends in the [TypeError] of [get_key], which
    the [except queue.Empty] does not catch. *)
Theorem queue_not_empty_cases (s : state) :
  match rewiringPQ s with
  | [] => queue_not_empty s = (s, Ok false)
  | (key, p) :: rest =>
      if stale s (PoppedPoint p) key
      then queue_not_empty s = (set_rewiringPQ (fun _ => []) s, Ok false)
      else queue_not_empty s
           = (set_queue_key_map (delete p) (set_rewiringPQ (fun _ => rest) s),
              Raise (TypeError "find_nearest"))
  end.
Proof.
  unfold queue_not_empty, except_queue_empty.
  destruct (rewiringPQ s) as [ | [key p] rest] eqn:Hq.
  - rewrite (bind_Raise _ _ _ _ _ (popPQ_empty s Hq)). reflexivity.
  - destruct (stale s (PoppedPoint p) key) eqn:Hst.
    + rewrite (bind_Raise _ _ _ _ _ (popPQ_stale_head s key p rest Hq Hst)). reflexivity.
    + rewrite (bind_Ok _ _ _ _ _ (popPQ_live_head s key p rest Hq Hst)).
      rewrite (bind_Raise _ _ _ _ _ (insertPQ_raises _ p)). reflexivity.
Qed.

Lemma test_key_less_raises (s : state) v_1 v_2 :
  test_key_less v_1 v_2 s = (s, Raise (TypeError "find_nearest")).
Proof. unfold test_key_less. apply (bind_Raise _ _ _ _ _ (get_key_raises s v_1)). Qed.

(** [test_key_less] raises on every pair of points and leaves the planner
    as it was; [testQtop], which pops the head of the queue and compares
    it, never returns either: it ends in [queue.Empty] when the queue is
    empty or its head entry is stale, and in the [TypeError] of [get_key]
    otherwise, with the popped entry lost. *)
Theorem testQtop_never_returns (s : state) (v_1 v_2 v_bot : vertex_t) :
  test_key_less v_1 v_2 s = (s, Raise (TypeError "find_nearest"))
  /\ match rewiringPQ s with
     | [] => testQtop v_bot s = (s, Raise QueueEmpty)
     | (key, p) :: rest =>
         if stale s (PoppedPoint p) key
         then testQtop v_bot s = (set_rewiringPQ (fun _ => []) s, Raise QueueEmpty)
         else testQtop v_bot s
              = (set_queue_key_map (delete p) (set_rewiringPQ (fun _ => rest) s),
                 Raise (TypeError "find_nearest"))
     end.
Proof.
  split; [ apply test_key_less_raises | ].
  unfold testQtop.
  destruct (rewiringPQ s) as [ | [key p] rest] eqn:Hq.
  - apply (bind_Raise _ _ _ _ _ (popPQ_empty s Hq)).
  - destruct (stale s (PoppedPoint p) key) eqn:Hst.
    + apply (bind_Raise _ _ _ _ _ (popPQ_stale_head s key p rest Hq Hst)).
    + rewrite (bind_Ok _ _ _ _ _ (popPQ_live_head s key p rest Hq Hst)).
      apply (bind_Raise _ _ _ _ _ (test_key_less_raises _ p v_bot)).
Qed.

(** ** A goal that no edge reaches *)

(** No obstacle-free edge ends within [goal_reached_thresh] of [goal]. *)
Definition goal_cut_off (goal : vertex_t) (s : state) : Prop :=
  forall a x,
    Qltb (distance x goal) (goal_reached_thresh s) = true ->
    intersects_edge (detected_obstacles s) a x = true.

(** The detected obstacles and the threshold are as before. *)
Definition same_world : relation state :=
  fun s s' =>
    detected_obstacles s' = detected_obstacles s
    /\ goal_reached_thresh s' = goal_reached_thresh s.

#[local] Instance same_world_preorder : PreOrder same_world.
Proof.
  split; unfold same_world.
  - intros s. auto.
  - intros s1 s2 s3 [? ?] [? ?]. split; congruence.
Qed.

#[local] Hint Resolve same_world_preorder : frame.
#[local] Hint Extern 1 (preserves same_world (modify _)) =>
  apply preserves_modify; intros ?; unfold same_world; simpl; auto : frame.

Lemma set_child_parent_world child parent :
  preserves same_world (set_child_parent child parent).
Proof.
  unfold set_child_parent, discard_child, add_child, del_parent, pt2tuple,
    get_parent, get_children.
  frame.
Qed.

Lemma resample_world fuel r p : preserves same_world (resample fuel r p).
Proof.
  revert p. induction fuel as [ | fuel IH]; intros p; simpl;
    unfold random_position, random_random; frame.
Qed.

Lemma min_cost_scan_world pts x_new p c :
  preserves same_world (min_cost_scan pts x_new p c).
Proof.
  revert p c. induction pts as [ | pt pts IH]; intros p c; simpl;
    unfold edge_obstacle_free, get_cost_to_reach; frame.
Qed.

#[local] Hint Resolve set_child_parent_world resample_world min_cost_scan_world : frame.

Lemma build_step_world fuel goal thr i fp c :
  preserves same_world (build_step fuel goal thr i fp c).
Proof.
  unfold build_step, sample_free, random_position, random_random, find_nearest, steer,
    edge_obstacle_free, find_nearby_pts, find_ball_radius, get_min_cost_point,
    add_vertex, do_rrtstar_rewiring, reassign_parent, reached_goal, pt2tuple,
    get_parent, get_children, get_cost_to_reach, set_cost_to_reach, edge_obstacle_free.
  frame.
Qed.

Lemma goal_cut_off_same_world goal (s s' : state) :
  same_world s s' -> goal_cut_off goal s -> goal_cut_off goal s'.
Proof. intros [Hobs Hthr] Hcut a x. rewrite Hobs, Hthr. apply Hcut. Qed.

(** The state in which a pass tests its new edge. *)
Lemma sample_and_steer_world fuel goal r (s : state) :
  preserves same_world
    (let* x_rand := sample_free fuel goal r in
     let* x_nearest := find_nearest x_rand in
     let* x_new := steer x_nearest x_rand in
     ret (x_nearest, x_new)).
Proof. unfold sample_free, random_position, random_random, find_nearest, steer. frame. Qed.

(** With the goal cut off, a pass that returns has recorded nothing. *)
Lemma build_step_cut_off fuel goal thr i c (s s' : state) broke fp' c' :
  goal_cut_off goal s ->
  build_step fuel goal thr i None c s = (s', Ok (broke, fp', c')) ->
  broke = false /\ fp' = None /\ c' = c /\ goal_cut_off goal s'.
Proof.
  intros Hcut Hstep.
  assert (Hcut' : goal_cut_off goal s').
  { pose proof (build_step_world fuel goal thr i None c s) as Hworld.
    rewrite Hstep in Hworld. exact (goal_cut_off_same_world _ _ _ Hworld Hcut). }
  assert (Hthr : goal_reached_thresh s' = goal_reached_thresh s).
  { pose proof (build_step_world fuel goal thr i None c s) as [_ Hworld].
    rewrite Hstep in Hworld. exact Hworld. }
  revert Hstep. unfold build_step. rewrite bind_get. intros Hstep.
  apply bind_inv_Ok in Hstep as (s1 & x_rand & Hsample & Hstep).
  apply bind_inv_Ok in Hstep as (s2 & x_nearest & Hnearest & Hstep).
  apply bind_inv_Ok in Hstep as (s3 & x_new & Hsteer & Hstep).
  assert (Hobs3 : detected_obstacles s3 = detected_obstacles s).
  { pose proof (sample_and_steer_world fuel goal
                  (Some (sample_buffer_radius s i None)) s s) as [Hworld _].
    rewrite (bind_Ok _ _ _ _ _ Hsample), (bind_Ok _ _ _ _ _ Hnearest),
      (bind_Ok _ _ _ _ _ Hsteer) in Hworld.
    exact Hworld. }
  rewrite (bind_Ok _ _ _ _ _ (edge_obstacle_free_run x_nearest x_new s3)) in Hstep.
  destruct (intersects_edge (detected_obstacles s3) x_nearest x_new) eqn:Hedge;
    cbn [negb] in Hstep.
  { injection Hstep as _ <- <- <-. auto. }
  apply bind_inv_Ok in Hstep as (s5 & nearby & _ & Hstep).
  apply bind_inv_Ok in Hstep as (s6 & [x_min min_cost] & _ & Hstep).
  apply bind_inv_Ok in Hstep as (s7 & [] & _ & Hstep).
  apply bind_inv_Ok in Hstep as (s8 & [] & _ & Hstep).
  apply bind_inv_Ok in Hstep as (s9 & reached & Hreached & Hstep).
  rewrite reached_goal_reads_field in Hreached. injection Hreached as <- <-.
  destruct (Qltb (distance x_new goal) (goal_reached_thresh s8)) eqn:Hd.
  - exfalso.
    assert (Hthr8 : goal_reached_thresh s8 = goal_reached_thresh s).
    { rewrite <- Hthr. rewrite bind_get in Hstep.
      destruct (built_tree s8); [ | destruct (pyfloat_ltb min_cost c) ];
        injection Hstep as <- _ _ _; reflexivity. }
    rewrite Hthr8 in Hd. specialize (Hcut x_nearest x_new Hd).
    rewrite Hobs3 in Hedge. congruence.
  - injection Hstep as _ <- <- <-. auto.
Qed.

(** With the goal cut off the build loop does not return. *)
Lemma build_loop_cut_off goal thr :
  forall fuel i c (s : state),
    goal_cut_off goal s -> returned (build_loop fuel goal thr i None c s) = None.
Proof.
  induction fuel as [ | fuel IH]; intros i c s Hcut; simpl; rewrite bind_get;
    unfold build_guard; rewrite orb_true_r.
  - reflexivity.
  - unfold returned, bind.
    destruct (build_step fuel goal thr i None c s) as [s1 [[[broke fp1] c1] | e | ]] eqn:Hstep;
      [ | reflexivity | reflexivity ].
    destruct (build_step_cut_off _ _ _ _ _ _ _ _ _ _ Hcut Hstep) as (-> & -> & -> & Hcut1).
    apply (IH (i + 1)%Z c s1 Hcut1).
Qed.

Lemma build_rrt_tree_cut_off fuel root goal thr (s : state) :
  goal_cut_off goal s -> returned (build_rrt_tree fuel root goal thr s) = None.
Proof.
  intros Hcut. rewrite build_rrt_tree_unfold.
  set (s0 := (add_start_vertex root _).1).
  assert (Hcut0 : goal_cut_off goal s0).
  { refine (goal_cut_off_same_world _ s s0 _ Hcut). subst s0.
    assert (Hworld : preserves same_world
              (let* _ := modify (set_rrt_tree (fun _ => ∅)) in
               let* _ := modify (set_rrt_vertices (fun _ => ∅)) in
               let* _ := modify (set_rrt_edges (fun _ => ∅)) in
               add_start_vertex root))
      by (unfold add_start_vertex, set_cost_to_reach, pt2tuple; frame).
    exact (Hworld s). }
  pose proof (build_loop_cut_off goal (default (goal_reached_thresh s) thr) fuel 0%Z Inf s0
                Hcut0) as Hloop.
  unfold returned in *. unfold bind.
  destruct (build_loop fuel goal _ 0 None Inf s0) as [s1 [[[i fp] c] | e | ]];
    [ discriminate | reflexivity | reflexivity ].
Qed.

End PlannerFacts.

(** ** The obstacle mask *)

Local Close Scope string_scope.

Section Mask.

(** A loop whose every pass succeeds and re-establishes an invariant
    indexed by the items done so far. *)
Lemma for_each_invariant {St A} (I : list A -> St -> Prop) (body : A -> M St unit)
    (xs : list A) :
  (forall done x s, I done s -> x ∈ xs ->
     exists s', body x s = (s', Ok tt) /\ I (done ++ [x]) s') ->
  forall s, I [] s -> exists s', for_each xs body s = (s', Ok tt) /\ I xs s'.
Proof.
  intros Hbody.
  assert (Hgen : forall todo done s,
             (forall x, x ∈ todo -> x ∈ xs) -> I done s ->
             exists s', for_each todo body s = (s', Ok tt) /\ I (done ++ todo) s').
  { induction todo as [ | x todo IH]; intros done s Hsub HI.
    - exists s. rewrite app_nil_r. split; [ reflexivity | exact HI ].
    - destruct (Hbody done x s HI) as (s1 & Hx & HI1); [ apply Hsub; left | ].
      destruct (IH (done ++ [x]) s1) as (s2 & Hrest & HI2);
        [ intros y Hy; apply Hsub; right; exact Hy | exact HI1 | ].
      exists s2. split.
      + simpl. unfold bind. rewrite Hx. exact Hrest.
      + rewrite <- app_assoc in HI2. exact HI2. }
  intros s HI. apply (Hgen xs [] s); [ auto | exact HI ].
Qed.

Lemma marked_iff shape (Z1 Z2 : Z -> Z -> Prop) a :
  (forall y x, in_grid shape y x -> (Z1 y x <-> Z2 y x)) -> marked shape Z1 a -> marked shape Z2 a.
Proof.
  intros Hiff [Hshape Hcells]. split; [ exact Hshape | ].
  intros y x Hin. specialize (Hiff y x Hin).
  destruct (Hcells y x Hin) as [[Hz Hc] | [Hz Hc]]; [ left | right ]; tauto.
Qed.

Lemma np_full_shape shape v : has_shape shape (np_full shape v).
Proof.
  unfold has_shape, np_full. split.
  - apply length_replicate.
  - apply Forall_replicate, length_replicate.
Qed.

Lemma np_full_cell shape v y x : in_grid shape y x -> cell (np_full shape v) y x = Some v.
Proof.
  intros [Hy Hx]. unfold cell, np_full.
  rewrite lookup_replicate_2 by lia. simpl.
  apply lookup_replicate_2. lia.
Qed.

Lemma np_full_marked shape : marked shape (fun _ _ => False) (np_full shape 1).
Proof.
  split; [ apply np_full_shape | ].
  intros y x Hin. right. split; [ tauto | apply np_full_cell; exact Hin ].
Qed.

Lemma np_index_in_range n i : (0 <= i < Z.of_nat n)%Z -> np_index n i = Some (Z.to_nat i).
Proof.
  intros Hi. unfold np_index.
  destruct (Z.leb_spec 0 i); [ | lia ]. destruct (Z.ltb_spec i (Z.of_nat n)); [ | lia ].
  reflexivity.
Qed.

(** [mask[y, x] = 0] inside the grid. *)
Lemma np_setitem_marked shape zeroed a y x :
  marked shape zeroed a -> in_grid shape y x ->
  exists a', np_setitem y x 0 a = (a', Ok tt)
             /\ marked shape (fun y' x' => zeroed y' x' \/ (y' = y /\ x' = x)) a'.
Proof.
  intros [[Hlen Hrows] Hcells] [Hy Hx].
  destruct (lookup_lt_is_Some_2 a (Z.to_nat y)) as [row Hrow]; [ lia | ].
  assert (Hrowlen : length row = Z.to_nat shape.2).
  { eapply (proj1 (Forall_forall _ _) Hrows). eapply list_elem_of_lookup_2. exact Hrow. }
  exists (<[Z.to_nat y := <[Z.to_nat x := 0%Q]> row]> a). split.
  - unfold np_setitem. rewrite np_index_in_range by lia. rewrite Hrow.
    rewrite np_index_in_range by lia. reflexivity.
  - split.
    + split; [ rewrite length_insert; exact Hlen | ].
      apply Forall_insert; [ exact Hrows | rewrite length_insert; exact Hrowlen ].
    + intros y' x' [Hy' Hx'].
      destruct (decide (y' = y /\ x' = x)) as [[-> ->] | Hne].
      * left. split; [ right; tauto | ].
        unfold cell. rewrite list_lookup_insert_eq by lia. simpl.
        apply list_lookup_insert_eq. lia.
      * assert (Hsame : cell (<[Z.to_nat y := <[Z.to_nat x := 0%Q]> row]> a) y' x'
                        = cell a y' x').
        { unfold cell. destruct (decide (y' = y)) as [-> | Hyne].
          - rewrite list_lookup_insert_eq by lia. rewrite Hrow. simpl.
            apply list_lookup_insert_ne. intros Heq. apply Hne. split; [ reflexivity | lia ].
          - rewrite list_lookup_insert_ne by lia. reflexivity. }
        rewrite Hsame.
        destruct (Hcells y' x' (conj Hy' Hx')) as [[Hz Hc] | [Hz Hc]];
          [ left | right ]; tauto.
Qed.

Lemma elem_of_py_range x lo hi : x ∈ py_range lo hi <-> (lo <= x < hi)%Z.
Proof. unfold py_range. rewrite elem_of_seqZ. lia. Qed.

Lemma mark_obstacle_marked shape zeroed P a :
  polygon_fits shape P -> marked shape zeroed a ->
  exists a', mark_obstacle P a = (a', Ok tt)
             /\ marked shape (fun y x => zeroed y x \/ contains P x y = true) a'.
Proof.
  intros Hfit Hmarked. unfold mark_obstacle, polygon_fits in *.
  destruct (bounds P) as [[[minx miny] maxx] maxy].
  set (xs := py_range (Qfloor minx) (Qceiling maxx + 1)).
  set (ys := py_range (Qfloor miny) (Qceiling maxy + 1)).
  destruct (for_each_invariant
              (fun done a' => marked shape
                 (fun y x => zeroed y x \/ (x ∈ done /\ contains P x y = true)) a')
              (fun x => for_each ys (fun y =>
                 if contains P x y then np_setitem y x 0 else ret tt))
              xs) with (s := a) as (a' & Hrun & Ha').
  - intros donex x a1 Ha1 Hx.
    destruct (for_each_invariant
                (fun done a' => marked shape
                   (fun y' x' => (zeroed y' x' \/ (x' ∈ donex /\ contains P x' y' = true))
                                 \/ (x' = x /\ y' ∈ done /\ contains P x y' = true)) a')
                (fun y => if contains P x y then np_setitem y x 0 else ret tt)
                ys) with (s := a1) as (a2 & Hrun2 & Ha2).
    + intros doney y a3 Ha3 Hy.
      destruct (contains P x y) eqn:Hc.
      * destruct (np_setitem_marked shape _ a3 y x Ha3) as (a4 & Hset & Ha4);
          [ apply (Hfit x y Hc) | ].
        exists a4. split; [ exact Hset | ].
        revert Ha4. apply marked_iff. intros y' x' _.
        rewrite elem_of_app, list_elem_of_singleton. split.
        -- intros [[Hz | Hz] | [-> ->]]; [ tauto | | tauto ].
           destruct Hz as (-> & Hd & Hc'). right. tauto.
        -- intros [Hz | (-> & [Hd | ->] & Hc')]; tauto.
      * exists a3. split; [ reflexivity | ].
        revert Ha3. apply marked_iff. intros y' x' _.
        rewrite elem_of_app, list_elem_of_singleton. split.
        -- intros [Hz | (-> & Hd & Hc')]; tauto.
        -- intros [Hz | (-> & [Hd | ->] & Hc')]; [ tauto | tauto | congruence ].
    + revert Ha1. apply marked_iff. intros y' x' _. split; [ tauto | ].
      intros [Hz | (_ & Hd & _)]; [ exact Hz | ]. apply elem_of_nil in Hd. tauto.
    + exists a2. split; [ exact Hrun2 | ].
      revert Ha2. apply marked_iff. intros y' x' _.
      rewrite elem_of_app, list_elem_of_singleton. split.
      * intros [[Hz | [Hd Hc]] | (-> & Hy' & Hc)]; tauto.
      * intros [Hz | [[Hd | ->] Hc]]; [ tauto | tauto | ].
        right. split; [ reflexivity | ]. split; [ | exact Hc ].
        apply elem_of_py_range. specialize (Hfit x y' Hc). lia.
  - revert Hmarked. apply marked_iff. intros y x _. split; [ tauto | ].
    intros [Hz | [Hd _]]; [ exact Hz | ]. apply elem_of_nil in Hd. tauto.
  - exists a'. split; [ exact Hrun | ].
    revert Ha'. apply marked_iff. intros y x _. split.
    + intros [Hz | [_ Hc]]; tauto.
    + intros [Hz | Hc]; [ tauto | ]. right. split; [ | exact Hc ].
      apply elem_of_py_range. specialize (Hfit x y Hc). lia.
Qed.

(** The mask after the loop over all obstacles: zero exactly on the grid
    points some obstacle contains. *)
Lemma obstacle_mask_marked shape obs :
  Forall (polygon_fits shape) obs ->
  exists mask, obstacle_mask shape obs = Ok mask
               /\ marked shape (fun y x => exists P, P ∈ obs /\ contains P x y = true) mask.
Proof.
  intros Hfit. unfold obstacle_mask.
  destruct (for_each_invariant
              (fun done a => marked shape
                 (fun y x => exists P, P ∈ done /\ contains P x y = true) a)
              mark_obstacle obs) with (s := np_full shape 1) as (mask & Hrun & Hmask).
  - intros done P a Ha HP.
    destruct (mark_obstacle_marked shape _ P a
                (proj1 (Forall_forall _ _) Hfit P HP) Ha) as (a' & Hrun & Ha').
    exists a'. split; [ exact Hrun | ].
    revert Ha'. apply marked_iff. intros y x _. split.
    + intros [(P' & Hd & Hc) | Hc].
      * exists P'. rewrite elem_of_app. tauto.
      * exists P. rewrite elem_of_app, list_elem_of_singleton. tauto.
    + intros (P' & Hd & Hc). rewrite elem_of_app, list_elem_of_singleton in Hd.
      destruct Hd as [Hd | ->]; [ left; exists P'; tauto | right; exact Hc ].
  - generalize (np_full_marked shape). apply marked_iff. intros y x _. split; [ tauto | ].
    intros (P & Hd & _). apply elem_of_nil in Hd. tauto.
  - exists mask. rewrite Hrun. split; [ reflexivity | exact Hmask ].
Qed.

(** *** Indices out of range *)

Lemma np_index_valid n i :
  valid_index (Z.of_nat n) i -> exists r, np_index n i = Some r /\ r < n.
Proof.
  intros [Hlo Hhi]. unfold np_index.
  destruct (Z.leb_spec 0 i); destruct (Z.ltb_spec i (Z.of_nat n)); simpl; try lia.
  - eexists. split; [ reflexivity | lia ].
  - destruct (Z.leb_spec (- Z.of_nat n) i); destruct (Z.ltb_spec i 0); simpl; try lia.
    eexists. split; [ reflexivity | lia ].
Qed.

Lemma np_index_invalid n i : ~ valid_index (Z.of_nat n) i -> np_index n i = None.
Proof.
  intros Hbad. unfold np_index, valid_index in *.
  destruct (Z.leb_spec 0 i); destruct (Z.ltb_spec i (Z.of_nat n)); simpl; try lia;
    destruct (Z.leb_spec (- Z.of_nat n) i); destruct (Z.ltb_spec i 0); simpl; try lia;
    reflexivity.
Qed.

(** A store into an array of the given shape succeeds exactly on valid
    indices, and the shape stays; an invalid index is an [IndexError] and
    the array stays as it is. *)
Lemma np_setitem_outcome shape a y x v :
  has_shape shape a ->
  (valid_index (Z.max 0 shape.1) y /\ valid_index (Z.max 0 shape.2) x
   /\ exists a', np_setitem y x v a = (a', Ok tt) /\ has_shape shape a')
  \/ (~ (valid_index (Z.max 0 shape.1) y /\ valid_index (Z.max 0 shape.2) x)
      /\ np_setitem y x v a = (a, Raise IndexError)).
Proof.
  intros [Hlen Hrows]. unfold np_setitem.
  assert (HlenZ : Z.of_nat (length a) = Z.max 0 shape.1) by lia.
  destruct (decide (valid_index (Z.max 0 shape.1) y)) as [Hy | Hy].
  - rewrite <- HlenZ in Hy. destruct (np_index_valid _ _ Hy) as (r & -> & Hr).
    destruct (lookup_lt_is_Some_2 a r Hr) as [row Hrow]. rewrite Hrow.
    assert (Hrowlen : length row = Z.to_nat shape.2).
    { eapply (proj1 (Forall_forall _ _) Hrows). eapply list_elem_of_lookup_2. exact Hrow. }
    assert (HrowZ : Z.of_nat (length row) = Z.max 0 shape.2) by lia.
    destruct (decide (valid_index (Z.max 0 shape.2) x)) as [Hx | Hx].
    + left. rewrite HlenZ in Hy. split; [ exact Hy | ]. split; [ exact Hx | ].
      rewrite <- HrowZ in Hx. destruct (np_index_valid _ _ Hx) as (c & -> & Hc).
      eexists. split; [ reflexivity | ].
      split; [ rewrite length_insert; exact Hlen | ].
      apply Forall_insert; [ exact Hrows | rewrite length_insert; exact Hrowlen ].
    + right. split; [ tauto | ].
      rewrite <- HrowZ in Hx. rewrite (np_index_invalid _ _ Hx). reflexivity.
  - right. split; [ tauto | ].
    rewrite <- HlenZ in Hy. rewrite (np_index_invalid _ _ Hy). reflexivity.
Qed.

(** A loop whose passes either succeed, keeping [I] and showing [Q] of
    their item, or end in [IndexError], keeping [I]. *)
Lemma for_each_outcome {St A} (I : St -> Prop) (Q : A -> Prop) (body : A -> M St unit)
    (xs : list A) :
  (forall x s, I s -> x ∈ xs ->
     (exists s', body x s = (s', Ok tt) /\ I s' /\ Q x)
     \/ (exists s', body x s = (s', Raise IndexError) /\ I s')) ->
  forall s, I s ->
    (exists s', for_each xs body s = (s', Ok tt) /\ I s' /\ forall x, x ∈ xs -> Q x)
    \/ (exists s', for_each xs body s = (s', Raise IndexError) /\ I s').
Proof.
  induction xs as [ | x xs IH]; intros Hbody s HI.
  - left. exists s. split; [ reflexivity | ]. split; [ exact HI | ].
    intros x Hx. apply elem_of_nil in Hx. tauto.
  - destruct (Hbody x s HI) as [(s1 & Hx & HI1 & HQ) | (s1 & Hx & HI1)]; [ left | | ].
    + destruct (IH (fun x' s' HI' Hx' => Hbody x' s' HI' (list_elem_of_further _ _ _ Hx')) s1 HI1)
        as [(s2 & Hrest & HI2 & HQs) | (s2 & Hrest & HI2)].
      * left. exists s2. split; [ simpl; unfold bind; rewrite Hx; exact Hrest | ].
        split; [ exact HI2 | ].
        intros x' Hx'. apply elem_of_cons in Hx' as [-> | Hx']; auto.
      * right. exists s2. split; [ simpl; unfold bind; rewrite Hx; exact Hrest | exact HI2 ].
    + right. exists s1. split; [ simpl; unfold bind; rewrite Hx; reflexivity | exact HI1 ].
Qed.

Lemma mark_obstacle_outcome shape P a :
  has_shape shape a ->
  (exists a', mark_obstacle P a = (a', Ok tt) /\ has_shape shape a'
              /\ forall x y, in_bounding_box P x y -> contains P x y = true ->
                   valid_index (Z.max 0 shape.1) y /\ valid_index (Z.max 0 shape.2) x)
  \/ (exists a', mark_obstacle P a = (a', Raise IndexError) /\ has_shape shape a').
Proof.
  intros Hshape. unfold mark_obstacle, in_bounding_box.
  destruct (bounds P) as [[[minx miny] maxx] maxy].
  set (xs := py_range (Qfloor minx) (Qceiling maxx + 1)).
  set (ys := py_range (Qfloor miny) (Qceiling maxy + 1)).
  destruct (for_each_outcome (has_shape shape)
              (fun x => forall y, y ∈ ys -> contains P x y = true ->
                 valid_index (Z.max 0 shape.1) y /\ valid_index (Z.max 0 shape.2) x)
              (fun x => for_each ys (fun y =>
                 if contains P x y then np_setitem y x 0 else ret tt))
              xs) with (s := a) as [(a' & Hrun & Ha' & HQ) | (a' & Hrun & Ha')].
  - intros x a1 Ha1 _.
    destruct (for_each_outcome (has_shape shape)
                (fun y => contains P x y = true ->
                   valid_index (Z.max 0 shape.1) y /\ valid_index (Z.max 0 shape.2) x)
                (fun y => if contains P x y then np_setitem y x 0 else ret tt)
                ys) with (s := a1) as [(a2 & Hrun & Ha2 & HQ) | (a2 & Hrun & Ha2)].
    + intros y a3 Ha3 _. destruct (contains P x y).
      * destruct (np_setitem_outcome shape a3 y x 0%Q Ha3)
          as [(Hy & Hx & a4 & Hset & Ha4) | (_ & Hset)].
        -- left. exists a4. auto.
        -- right. exists a3. auto.
      * left. exists a3. split; [ reflexivity | ]. split; [ exact Ha3 | discriminate ].
    + exact Ha1.
    + left. exists a2. auto.
    + right. exists a2. auto.
  - exact Hshape.
  - left. exists a'. split; [ exact Hrun | ]. split; [ exact Ha' | ].
    intros x y [Hx Hy] Hc.
    apply (HQ x); [ apply elem_of_py_range; lia | apply elem_of_py_range; lia | exact Hc ].
  - right. exists a'. auto.
Qed.

(** The loop over the obstacles ends with a mask, every visited grid point
    an obstacle contains being a valid index, or in [IndexError]. *)
Lemma obstacle_mask_outcome shape obs :
  (exists mask, obstacle_mask shape obs = Ok mask
                /\ forall P x y, P ∈ obs -> in_bounding_box P x y -> contains P x y = true ->
                     valid_index (Z.max 0 shape.1) y /\ valid_index (Z.max 0 shape.2) x)
  \/ obstacle_mask shape obs = Raise IndexError.
Proof.
  unfold obstacle_mask.
  destruct (for_each_outcome (has_shape shape)
              (fun P => forall x y, in_bounding_box P x y -> contains P x y = true ->
                 valid_index (Z.max 0 shape.1) y /\ valid_index (Z.max 0 shape.2) x)
              mark_obstacle obs) with (s := np_full shape 1)
    as [(mask & Hrun & _ & HQ) | (mask & Hrun & _)].
  - intros P a Ha _.
    destruct (mark_obstacle_outcome shape P a Ha) as [(a' & Hrun & Ha' & HQ) | (a' & Hrun & Ha')].
    + left. exists a'. auto.
    + right. exists a'. auto.
  - apply np_full_shape.
  - left. exists mask. rewrite Hrun. split; [ reflexivity | ].
    intros P x y HP. apply HQ, HP.
  - right. rewrite Hrun. reflexivity.
Qed.

(** *** Indices from the end *)

(** A loop that returns has kept an invariant that every returning pass
    keeps. *)
Lemma for_each_returns {St A} (I : list A -> St -> Prop) (body : A -> M St unit)
    (xs : list A) :
  (forall done x s s', I done s -> x ∈ xs -> body x s = (s', Ok tt) -> I (done ++ [x]) s') ->
  forall s s', I [] s -> for_each xs body s = (s', Ok tt) -> I xs s'.
Proof.
  intros Hbody.
  assert (Hgen : forall todo done s s',
             (forall x, x ∈ todo -> x ∈ xs) -> I done s ->
             for_each todo body s = (s', Ok tt) -> I (done ++ todo) s').
  { induction todo as [ | x todo IH]; intros done s s' Hsub HI Hrun.
    - injection Hrun as <-. rewrite app_nil_r. exact HI.
    - simpl in Hrun. unfold bind in Hrun.
      destruct (body x s) as [s1 [[] | e | ]] eqn:Hx; try discriminate.
      replace (done ++ x :: todo) with ((done ++ [x]) ++ todo)
        by (rewrite <- app_assoc; reflexivity).
      apply (IH _ s1).
      + intros x' Hx'. apply Hsub. right. exact Hx'.
      + apply (Hbody done x s s1 HI); [ apply Hsub; left | exact Hx ].
      + exact Hrun. }
  intros s s' HI Hrun. apply (Hgen xs [] s s'); auto.
Qed.

Lemma mask_of_iff shape (Z1 Z2 : nat -> nat -> Prop) a :
  (forall r c, Z1 r c <-> Z2 r c) -> mask_of shape Z1 a -> mask_of shape Z2 a.
Proof.
  intros Hiff [Hshape Hcells]. split; [ exact Hshape | ].
  intros r c Hr Hc. specialize (Hiff r c).
  destruct (Hcells r c Hr Hc) as [[Hz Hv] | [Hz Hv]]; [ left | right ]; tauto.
Qed.

Lemma np_full_mask_of shape : mask_of shape (fun _ _ => False) (np_full shape 1).
Proof.
  split; [ apply np_full_shape | ].
  intros r c Hr Hc. right. split; [ tauto | ]. unfold np_full.
  rewrite lookup_replicate_2 by exact Hr. simpl.
  apply lookup_replicate_2. exact Hc.
Qed.

(** A store of zero that succeeds zeroes the cell its indices stand for,
    counted from the end when negative, and no other. *)
Lemma np_setitem_mask_of shape zeroed a y x a' :
  mask_of shape zeroed a -> np_setitem y x 0 a = (a', Ok tt) ->
  exists r c,
    np_index (Z.to_nat shape.1) y = Some r /\ np_index (Z.to_nat shape.2) x = Some c
    /\ mask_of shape (fun r' c' => zeroed r' c' \/ (r' = r /\ c' = c)) a'.
Proof.
  intros [[Hlen Hrows] Hcells] Hset. unfold np_setitem in Hset. rewrite Hlen in Hset.
  destruct (np_index (Z.to_nat shape.1) y) as [r | ] eqn:Hr; [ | discriminate ].
  destruct (a !! r) as [row | ] eqn:Hrow; [ | discriminate ].
  assert (Hrowlen : length row = Z.to_nat shape.2).
  { eapply (proj1 (Forall_forall _ _) Hrows). eapply list_elem_of_lookup_2. exact Hrow. }
  rewrite Hrowlen in Hset.
  destruct (np_index (Z.to_nat shape.2) x) as [c | ] eqn:Hc; [ | discriminate ].
  injection Hset as <-. exists r, c. split; [ reflexivity | ]. split; [ reflexivity | ].
  assert (Hrlt : (r < length a)%nat) by (eapply lookup_lt_Some; exact Hrow).
  split.
  - split; [ rewrite length_insert; exact Hlen | ].
    apply Forall_insert; [ exact Hrows | rewrite length_insert; exact Hrowlen ].
  - intros r' c' Hr' Hc'.
    destruct (decide (r' = r)) as [-> | Hrne].
    + rewrite list_lookup_insert_eq by exact Hrlt. simpl.
      destruct (decide (c' = c)) as [-> | Hcne].
      * left. split; [ right; auto | ].
        apply list_lookup_insert_eq. rewrite Hrowlen. exact Hc'.
      * rewrite list_lookup_insert_ne by congruence.
        specialize (Hcells r c' Hr' Hc'). rewrite Hrow in Hcells. simpl in Hcells.
        destruct Hcells as [[Hz Hv] | [Hz Hv]]; [ left | right ]; split; tauto.
    + rewrite list_lookup_insert_ne by congruence.
      destruct (Hcells r' c' Hr' Hc') as [[Hz Hv] | [Hz Hv]]; [ left | right ]; split; tauto.
Qed.

(** What one obstacle has zeroed once the columns [xs] are done. *)
Lemma mark_obstacle_mask_of shape zeroed P a a' :
  mask_of shape zeroed a -> mark_obstacle P a = (a', Ok tt) ->
  mask_of shape (fun r c => zeroed r c \/ zeroed_by shape [P] r c) a'.
Proof.
  intros Hmask Hrun. unfold mark_obstacle in Hrun.
  assert (Hbox : forall x y, in_bounding_box P x y
            <-> x ∈ py_range (Qfloor (bounds P).1.1.1) (Qceiling (bounds P).1.2 + 1)
                /\ y ∈ py_range (Qfloor (bounds P).1.1.2) (Qceiling (bounds P).2 + 1)).
  { intros x y. unfold in_bounding_box. rewrite !elem_of_py_range.
    destruct (bounds P) as [[[minx miny] maxx] maxy]. simpl. lia. }
  destruct (bounds P) as [[[minx miny] maxx] maxy]. simpl in Hbox.
  set (xs := py_range (Qfloor minx) (Qceiling maxx + 1)) in *.
  set (ys := py_range (Qfloor miny) (Qceiling maxy + 1)) in *.
  pose (hit := fun (xdone : list Z) (ydone : list Z) (r c : nat) =>
                 exists x y, x ∈ xdone /\ y ∈ ydone /\ contains P x y = true
                   /\ np_index (Z.to_nat shape.1) y = Some r
                   /\ np_index (Z.to_nat shape.2) x = Some c).
  assert (Hdone : mask_of shape (fun r c => zeroed r c \/ hit xs ys r c) a').
  { refine (for_each_returns
              (fun xdone a => mask_of shape (fun r c => zeroed r c \/ hit xdone ys r c) a)
              _ xs _ a a' _ Hrun).
    - intros xdone x a1 a2 Ha1 Hx Hcol.
      assert (Hcol' : mask_of shape
                (fun r c => (zeroed r c \/ hit xdone ys r c) \/ hit [x] ys r c) a2).
      { refine (for_each_returns
                  (fun ydone a => mask_of shape
                     (fun r c => (zeroed r c \/ hit xdone ys r c) \/ hit [x] ydone r c) a)
                  _ ys _ a1 a2 _ Hcol).
        - intros ydone y b1 b2 Hb1 Hy Hcell.
          destruct (contains P x y) eqn:Hin.
          + destruct (np_setitem_mask_of _ _ _ _ _ _ Hb1 Hcell) as (r & c & Hr & Hc & Hb2).
            revert Hb2. apply mask_of_iff. intros r' c'. split.
            * intros [[Hz | (x' & y' & Hx' & Hy' & Hrest)] | [-> ->]].
              -- left. exact Hz.
              -- right. exists x', y'. rewrite elem_of_app. tauto.
              -- right. exists x, y. rewrite elem_of_app, !list_elem_of_singleton. tauto.
            * intros [Hz | (x' & y' & Hx' & Hy' & Hc' & Hr'' & Hc'')].
              -- left. left. exact Hz.
              -- apply list_elem_of_singleton in Hx'. subst x'.
                 apply elem_of_app in Hy' as [Hy' | Hy'].
                 ++ left. right. exists x, y'. rewrite list_elem_of_singleton. tauto.
                 ++ apply list_elem_of_singleton in Hy'. subst y'.
                    right. split; congruence.
          + injection Hcell as <-. revert Hb1. apply mask_of_iff. intros r' c'. split.
            * intros [Hz | (x' & y' & Hx' & Hy' & Hrest)]; [ left; exact Hz | ].
              right. exists x', y'. rewrite elem_of_app. tauto.
            * intros [Hz | (x' & y' & Hx' & Hy' & Hc' & Hrest)]; [ left; exact Hz | ].
              apply list_elem_of_singleton in Hx'. subst x'.
              apply elem_of_app in Hy' as [Hy' | Hy'].
              -- right. exists x, y'. rewrite list_elem_of_singleton. tauto.
              -- apply list_elem_of_singleton in Hy'. subst y'. congruence.
        - revert Ha1. apply mask_of_iff. intros r c. split; [ tauto | ].
          intros [Hz | (x' & y' & _ & Hy' & _)]; [ exact Hz | ].
          apply elem_of_nil in Hy'. tauto. }
      revert Hcol'. apply mask_of_iff. intros r c. split.
      + intros [[Hz | (x' & y' & Hx' & Hrest)] | (x' & y' & Hx' & Hrest)].
        * left. exact Hz.
        * right. exists x', y'. rewrite elem_of_app. tauto.
        * right. exists x', y'. rewrite elem_of_app. tauto.
      + intros [Hz | (x' & y' & Hx' & Hrest)]; [ tauto | ].
        apply elem_of_app in Hx' as [Hx' | Hx'].
        * left. right. exists x', y'. tauto.
        * right. exists x', y'. tauto.
    - revert Hmask. apply mask_of_iff. intros r c. split; [ tauto | ].
      intros [Hz | (x' & y' & Hx' & _)]; [ exact Hz | ].
      apply elem_of_nil in Hx'. tauto. }
  revert Hdone. apply mask_of_iff. intros r c. unfold hit, zeroed_by. split.
  - intros [Hz | (x & y & Hx & Hy & Hc & Hrest)]; [ left; exact Hz | ].
    right. exists P, x, y. rewrite list_elem_of_singleton, Hbox. tauto.
  - intros [Hz | (P' & x & y & HP & Hin & Hc & Hrest)]; [ left; exact Hz | ].
    apply list_elem_of_singleton in HP. subst P'. apply Hbox in Hin.
    right. exists x, y. tauto.
Qed.

Lemma obstacle_mask_mask_of shape obs mask :
  obstacle_mask shape obs = Ok mask -> mask_of shape (zeroed_by shape obs) mask.
Proof.
  unfold obstacle_mask.
  destruct (for_each obs mark_obstacle (np_full shape 1)) as [a [[] | e | ]] eqn:Hrun;
    try discriminate.
  intros Hmask. injection Hmask as <-.
  refine (for_each_returns (fun done a => mask_of shape (zeroed_by shape done) a)
            _ obs _ _ a _ Hrun).
  - intros done P a1 a2 Ha1 _ Hone.
    generalize (mark_obstacle_mask_of _ _ _ _ _ Ha1 Hone).
    apply mask_of_iff. intros r c. unfold zeroed_by. split.
    + intros [(P' & x & y & HP & Hrest) | (P' & x & y & HP & Hrest)];
        exists P', x, y; rewrite elem_of_app; tauto.
    + intros (P' & x & y & HP & Hrest). apply elem_of_app in HP as [HP | HP].
      * left. exists P', x, y. tauto.
      * right. exists P', x, y. tauto.
  - generalize (np_full_mask_of shape). apply mask_of_iff. intros r c. split; [ tauto | ].
    intros (P & x & y & HP & _). apply elem_of_nil in HP. exact HP.
Qed.

Lemma np_index_mod n i r :
  np_index n i = Some r -> r = Z.to_nat (i mod Z.of_nat n) /\ (r < n)%nat.
Proof.
  unfold np_index.
  destruct (Z.leb_spec 0 i); destruct (Z.ltb_spec i (Z.of_nat n)); simpl.
  - intros [= <-]. rewrite Z.mod_small by lia. split; lia.
  - destruct (Z.leb_spec (- Z.of_nat n) i); destruct (Z.ltb_spec i 0); simpl;
      try discriminate; lia.
  - destruct (Z.leb_spec (- Z.of_nat n) i); destruct (Z.ltb_spec i 0); simpl;
      try discriminate; try lia.
    intros [= <-]. split; [ | lia ]. f_equal.
    apply (Z.mod_unique _ _ (-1)); lia.
  - destruct (Z.leb_spec (- Z.of_nat n) i); destruct (Z.ltb_spec i 0); simpl;
      try discriminate; lia.
Qed.

(** When the mask of [update_potential_field] is built without an
    [IndexError], it has the shape of the world, every cell holds one or
    zero, and the zero cells are exactly those that a grid point inside an
    obstacle is stored to: the point [(x, y)] goes to row [y mod dims[0]]
    and column [x mod dims[1]], so that an obstacle over the lower or left
    edge of the world, at negative coordinates, zeroes cells along the
    opposite edge. *)
Theorem obstacle_mask_wraps_around (shape : Z * Z) (obs : list Polygon)
    (mask : list (list Q)) :
  obstacle_mask shape obs = Ok mask ->
  mask_of shape (zeroed_by shape obs) mask
  /\ forall P x y,
       P ∈ obs -> in_bounding_box P x y -> contains P x y = true ->
       valid_index (Z.max 0 shape.1) y /\ valid_index (Z.max 0 shape.2) x
       /\ mask !! Z.to_nat (y mod Z.max 0 shape.1)
            ≫= (fun row => row !! Z.to_nat (x mod Z.max 0 shape.2))
          = Some 0%Q.
Proof.
  intros Hmask. pose proof (obstacle_mask_mask_of _ _ _ Hmask) as Hcells.
  split; [ exact Hcells | ].
  intros P x y HP Hbox Hin.
  destruct (obstacle_mask_outcome shape obs) as [(mask' & Hok & Hvalid) | Hbad];
    [ | congruence ].
  destruct (Hvalid P x y HP Hbox Hin) as [Hy Hx].
  split; [ exact Hy | ]. split; [ exact Hx | ].
  replace (Z.max 0 shape.1) with (Z.of_nat (Z.to_nat shape.1)) in * by lia.
  replace (Z.max 0 shape.2) with (Z.of_nat (Z.to_nat shape.2)) in * by lia.
  destruct (np_index_valid _ _ Hy) as (r & Hr & _).
  destruct (np_index_valid _ _ Hx) as (c & Hc & _).
  destruct (np_index_mod _ _ _ Hr) as [Hrmod Hrlt].
  destruct (np_index_mod _ _ _ Hc) as [Hcmod Hclt].
  rewrite <- Hrmod, <- Hcmod.
  destruct (proj2 Hcells r c Hrlt Hclt) as [[_ Hv] | [Hz _]]; [ exact Hv | ].
  exfalso. apply Hz. exists P, x, y. tauto.
Qed.

End Mask.

(** ** The potential field *)

Section PotentialField.
Context {vertex_t obstacles_t : Type} `{Countable vertex_t}.
Variable gaussian_filter : list (list Q) -> Q -> list (list Q).
Variable np_gradient : list (list Q) -> result (list (list Q) * list (list Q)).

Local Abbreviation state := (@planner vertex_t obstacles_t _ _).

Lemma covered_spec obs y x :
  covered obs y x = true <-> exists P, P ∈ obs /\ contains P x y = true.
Proof.
  unfold covered. rewrite existsb_exists. split; intros (P & HP & Hc); exists P;
    (split; [ apply list_elem_of_In; exact HP | exact Hc ]).
Qed.

Lemma zip_with_shape {A B} (g : A -> B -> A) (f : list (list A)) (d : list (list B)) :
  length <$> f = length <$> d ->
  length <$> zip_with (zip_with g) f d = length <$> f.
Proof.
  revert d. induction f as [ | row f IH]; intros [ | drow d] Hshape;
    try discriminate; [ reflexivity | ].
  simpl in *. injection Hshape as Hrow Hrest.
  rewrite IH by exact Hrest. f_equal.
  rewrite length_zip_with. lia.
Qed.

Lemma update_potential_field_run (s : state) obs blur_in dy dx :
  blur_input (world_dims s) obs = Ok blur_in ->
  np_gradient (gaussian_filter blur_in blur_sigma) = Returns (dy, dx) ->
  length <$> potential_field s = length <$> dx ->
  length <$> potential_field s = length <$> dy ->
  update_potential_field gaussian_filter np_gradient obs s
  = (set_potential_field
       (fun field => zip_with (zip_with add_to_component1)
                       (zip_with (zip_with add_to_component0) field dx) dy) s,
     Ok tt).
Proof.
  intros Hblur Hgrad Hdx Hdy.
  unfold update_potential_field. rewrite bind_get.
  unfold bind at 1. unfold finish. rewrite Hblur.
  unfold bind at 1. unfold lift, finish. rewrite Hgrad.
  rewrite bind_get.
  unfold bind at 1. unfold lift, finish, iadd_component0.
  rewrite bool_decide_eq_true_2 by exact Hdx.
  unfold bind at 1. unfold modify at 1. rewrite bind_get.
  unfold bind at 1. unfold lift, finish, iadd_component1.
  cbn [potential_field set_potential_field].
  rewrite bool_decide_eq_true_2
    by (rewrite <- Hdy; apply zip_with_shape; exact Hdx).
  reflexivity.
Qed.

(** C6 (amended). For obstacles whose contained grid points index inside
    the array, [update_potential_field] builds the mask that is 0 exactly
    on the grid points some obstacle contains and 1 elsewhere, hands
    [mask * 5] to the Gaussian blur with sigma 3, takes [(dy, dx)] as the
    gradient of the blurred array, and adds [dx] into component 0 and [dy]
    into component 1 of the field; nothing else of the planner changes. *)
Theorem update_potential_field_pipeline (s : state) (obs : list Polygon) :
  Forall (polygon_fits (world_dims s)) obs ->
  exists mask,
    has_shape (world_dims s) mask
    /\ (forall y x, in_grid (world_dims s) y x ->
          cell mask y x = Some (if covered obs y x then 0%Q else 1%Q))
    /\ blur_input (world_dims s) obs = Ok (np_scale mask 5)
    /\ forall dy dx,
         np_gradient (gaussian_filter (np_scale mask 5) 3) = Returns (dy, dx) ->
         length <$> potential_field s = length <$> dx ->
         length <$> potential_field s = length <$> dy ->
         update_potential_field gaussian_filter np_gradient obs s
         = (set_potential_field
              (fun field => zip_with (zip_with add_to_component1)
                              (zip_with (zip_with add_to_component0) field dx) dy) s,
            Ok tt).
Proof.
  intros Hfit.
  destruct (obstacle_mask_marked (world_dims s) obs Hfit) as (mask & Hmask & Hshape & Hcells).
  exists mask. split; [ exact Hshape | ]. split.
  - intros y x Hin. destruct (Hcells y x Hin) as [[Hz Hc] | [Hz Hc]]; rewrite Hc.
    + apply covered_spec in Hz. rewrite Hz. reflexivity.
    + destruct (covered obs y x) eqn:Hcov; [ | reflexivity ].
      apply covered_spec in Hcov. tauto.
  - assert (Hblur : blur_input (world_dims s) obs = Ok (np_scale mask 5))
      by (unfold blur_input; rewrite Hmask; reflexivity).
    split; [ exact Hblur | ].
    intros dy dx Hgrad Hdx Hdy.
    apply (update_potential_field_run s obs _ dy dx Hblur Hgrad Hdx Hdy).
Qed.

(** *** No obstacles *)

Lemma field_eq_refl f : field_eq f f.
Proof.
  unfold field_eq. apply Forall2_same_length_lookup. split; [ reflexivity | ].
  intros i row row' Hrow Hrow'. rewrite Hrow in Hrow'. injection Hrow' as <-.
  apply Forall2_same_length_lookup. split; [ reflexivity | ].
  intros j a b Ha Hb. rewrite Ha in Hb. injection Hb as <-.
  split; reflexivity.
Qed.

Lemma field_eq_trans f g h : field_eq f g -> field_eq g h -> field_eq f h.
Proof.
  unfold field_eq. intros Hfg Hgh.
  eapply Forall2_trans; [ | exact Hfg | exact Hgh ].
  intros r1 r2 r3 H12 H23.
  eapply Forall2_trans; [ | exact H12 | exact H23 ].
  intros a b c [Ha1 Ha2] [Hb1 Hb2]. split; etransitivity; eassumption.
Qed.

Lemma zip_add_zero (g : Q * Q -> Q -> Q * Q) (f : list (list (Q * Q))) (d : list (list Q)) :
  (forall fv v, (v == 0)%Q -> ((g fv v).1 == fv.1)%Q /\ ((g fv v).2 == fv.2)%Q) ->
  length <$> f = length <$> d ->
  array_zero d ->
  field_eq (zip_with (zip_with g) f d) f.
Proof.
  intros Hg. revert d. induction f as [ | row f IH]; intros [ | drow d] Hshape Hzero;
    try discriminate; [ constructor | ].
  simpl in Hshape. injection Hshape as Hrow Hrest.
  apply Forall_cons in Hzero as [Hdrow Hd].
  simpl. constructor; [ | apply IH; assumption ].
  clear IH Hrest Hd. revert drow Hrow Hdrow.
  induction row as [ | fv row IHrow]; intros [ | v drow] Hrow Hdrow;
    try discriminate; [ constructor | ].
  simpl in Hrow. injection Hrow as Hrow.
  apply Forall_cons in Hdrow as [Hv Hdrow].
  simpl. constructor; [ apply Hg; exact Hv | apply IHrow; assumption ].
Qed.

Lemma np_scale_full shape v k : np_scale (np_full shape v) k = np_full shape (v * k)%Q.
Proof. unfold np_scale, np_full. rewrite !fmap_replicate. reflexivity. Qed.

(** C10. With no polygon in the collection the field after the call holds
    the numbers it held before, entry for entry; it is assumed of the two
    library calls that the blur of a constant array is a constant array and
    that the gradient of a constant array is zero. *)
Theorem update_potential_field_no_obstacles (s : state) :
  (forall shape v sigma, exists v', gaussian_filter (np_full shape v) sigma = np_full shape v') ->
  (forall shape v dy dx, np_gradient (np_full shape v) = Returns (dy, dx) ->
     array_zero dy /\ array_zero dx) ->
  field_eq (potential_field (update_potential_field gaussian_filter np_gradient [] s).1)
           (potential_field s).
Proof.
  intros Hblur Hgrad.
  unfold update_potential_field. rewrite bind_get.
  unfold bind at 1. unfold finish, blur_input, obstacle_mask. simpl for_each.
  unfold ret. rewrite np_scale_full.
  destruct (Hblur (world_dims s) (1 * obstacle_value)%Q blur_sigma) as [v' ->].
  unfold bind at 1. unfold lift at 1. unfold finish.
  destruct (np_gradient (np_full (world_dims s) v')) as [[dy dx] | e] eqn:Hg;
    [ | apply field_eq_refl ].
  destruct (Hgrad _ _ _ _ Hg) as [Hdy Hdx].
  rewrite bind_get.
  unfold bind at 1. unfold lift at 1. unfold finish, iadd_component0.
  destruct (bool_decide (length <$> potential_field s = length <$> dx)) eqn:Hsx;
    [ | apply field_eq_refl ].
  apply bool_decide_eq_true in Hsx.
  assert (H0 : field_eq (zip_with (zip_with (fun fv dv => ((fv.1 + dv)%Q, fv.2)))
                           (potential_field s) dx) (potential_field s)).
  { apply zip_add_zero; [ | exact Hsx | exact Hdx ].
    intros fv v Hv. simpl. split; [ rewrite Hv; apply Qplus_0_r | reflexivity ]. }
  unfold bind at 1. unfold modify at 1. rewrite bind_get.
  unfold bind at 1. unfold lift at 1. unfold finish, iadd_component1.
  cbn [potential_field set_potential_field].
  match goal with |- context [bool_decide ?P] => destruct (bool_decide P) eqn:Hsy end;
    [ | exact H0 ].
  apply bool_decide_eq_true in Hsy.
  unfold modify. cbn [fst potential_field set_potential_field].
  eapply field_eq_trans; [ | exact H0 ].
  apply zip_add_zero; [ | exact Hsy | exact Hdy ].
  intros fv v Hv. simpl. split; [ reflexivity | rewrite Hv; apply Qplus_0_r ].
Qed.

(** *** An obstacle that reaches out of the grid *)

(** When some obstacle contains a grid point of its bounding box that is
    no valid index of the mask ([x] or [y] at or beyond the array's extent,
    or below minus it), [update_potential_field] ends in [IndexError]
    before anything is blurred, and the planner, its field included, is as
    before. *)
Theorem update_potential_field_out_of_range (s : state) (obs : list Polygon)
    (P : Polygon) (x y : Z) :
  P ∈ obs ->
  in_bounding_box P x y ->
  contains P x y = true ->
  ~ (valid_index (world_dims s).1 y /\ valid_index (world_dims s).2 x) ->
  update_potential_field gaussian_filter np_gradient obs s = (s, Raise IndexError).
Proof.
  intros HP Hbox Hc Hbad.
  assert (Hmask : obstacle_mask (world_dims s) obs = Raise IndexError).
  { destruct (obstacle_mask_outcome (world_dims s) obs) as [(mask & _ & Hvalid) | Hraise];
      [ | exact Hraise ].
    exfalso. apply Hbad. destruct (Hvalid P x y HP Hbox Hc) as [Hy Hx].
    unfold valid_index in *. lia. }
  unfold update_potential_field. rewrite bind_get.
  unfold bind, finish, blur_input. rewrite Hmask. reflexivity.
Qed.

End PotentialField.

(** ** The observation query *)

Section ObservationFacts.
Variable buffer : Q * Q -> Q -> Polygon.
Variable intersection : BaseGeometry -> Polygon -> BaseGeometry.

(** The query answers a [MultiPolygon] when the intersection is a polygon
    or a multi-polygon, and [None] in every other case. *)
Lemma make_observations_cases (w : World) position radius :
  if polygonal (intersection (obstacles w) (buffer position radius))
  then exists geoms,
         make_observations buffer intersection w position radius
         = Some (GeomMultiPolygon geoms)
  else make_observations buffer intersection w position radius = None.
Proof.
  unfold make_observations.
  destruct (intersection (obstacles w) (buffer position radius)); simpl; eauto.
Qed.

End ObservationFacts.

(** ** The constructors *)

Section ConstructorFacts.
Import Constructors.

Lemma kwargs_after_pops (kwargs : gmap string Q) :
  dom (delete "display_every_n" (delete "run_count" (delete "outdir" (delete "gui"
         (delete "goal_attr_force" (delete "tree_attr_force"
            (delete "potential_field_force" (delete "merge_threshold" kwargs))))))))
  = dom kwargs ∖ accepted_keys.
Proof. rewrite !dom_delete_L. unfold accepted_keys. set_solver. Qed.

Lemma FARRTStar2_init_unfold (kwargs : gmap string Q) :
  FARRTStar2_init kwargs
  = let kw := delete "goal_attr_force" (delete "tree_attr_force"
                (delete "potential_field_force" (delete "merge_threshold" kwargs))) in
    if bool_decide (delete "display_every_n" (delete "run_count" (delete "outdir"
                      (delete "gui" kw))) = ∅)
    then Returns
           {| rrtstar :=
                {| base := {| gui := kwargs_get "gui" 1 kw;
                              display_every_n :=
                                kwargs_get "display_every_n" (-1)
                                  (delete "run_count" (delete "outdir" (delete "gui" kw)));
                              vision_radius :=
                                kwargs_get "vision_radius" 10
                                  (delete "display_every_n" (delete "run_count"
                                     (delete "outdir" (delete "gui" kw)))) |};
                   iters := kwargs_get "iters" 2000 kw;
                   eps := kwargs_get "eps" (1 # 100) kw;
                   steer_distance :=
                     kwargs_get "max_step_length"
                       (kwargs_get "vision_radius" 10
                          (delete "display_every_n" (delete "run_count"
                             (delete "outdir" (delete "gui" kw)))) / 3) kw;
                   obstacle_avoidance_radius :=
                     kwargs_get "obstacle_avoidance_radius"
                       (kwargs_get "max_step_length"
                          (kwargs_get "vision_radius" 10
                             (delete "display_every_n" (delete "run_count"
                                (delete "outdir" (delete "gui" kw)))) / 3) kw * 2 / 3) kw;
                   goal_reached_thresh := 1;
                   built_tree := false |};
              farrt_iters := Qmax (kwargs_get "iters" 2000 kw) 5000;
              merge_threshold :=
                match kwargs !! "merge_threshold" with
                | Some m => m
                | None =>
                    (kwargs_get "max_step_length"
                       (kwargs_get "vision_radius" 10
                          (delete "display_every_n" (delete "run_count"
                             (delete "outdir" (delete "gui" kw)))) / 3) kw / 8)%Q
                end;
              potential_field_force :=
                kwargs_get "potential_field_force" 3 (delete "merge_threshold" kwargs);
              tree_attr_force :=
                kwargs_get "tree_attr_force" (1 # 2)
                  (delete "potential_field_force" (delete "merge_threshold" kwargs));
              goal_attr_force :=
                kwargs_get "goal_attr_force" (1 # 5)
                  (delete "tree_attr_force"
                     (delete "potential_field_force" (delete "merge_threshold" kwargs))) |}
    else Raises AssertionError.
Proof.
  unfold FARRTStar2_init, RRTStar_init, PartiallyObservablePlanner_init, kwargs_pop.
  cbv zeta. destruct (bool_decide _); reflexivity.
Qed.

Lemma kwargs_left_empty (kwargs : gmap string Q) :
  delete "display_every_n" (delete "run_count" (delete "outdir" (delete "gui"
    (delete "goal_attr_force" (delete "tree_attr_force"
       (delete "potential_field_force" (delete "merge_threshold" kwargs))))))) = ∅
  <-> dom kwargs ⊆ accepted_keys.
Proof.
  rewrite <- dom_empty_iff_L, kwargs_after_pops.
  generalize accepted_keys (dom kwargs). intros A D. split.
  - intros Hempty k Hk. destruct (decide (k ∈ A)) as [Hin | Hout]; [ exact Hin | ].
    assert (Hk' : k ∈ D ∖ A) by (apply elem_of_difference; auto).
    rewrite Hempty in Hk'. apply elem_of_empty in Hk'. tauto.
  - intros Hsub. apply set_eq. intros k. rewrite elem_of_difference, elem_of_empty.
    split; [ intros [Hk Hout]; auto | tauto ].
Qed.

Lemma read_keys_not_accepted key : key ∈ read_keys -> key ∉ accepted_keys.
Proof.
  intros Hkey. unfold read_keys in Hkey.
  repeat (apply elem_of_cons in Hkey as [-> | Hkey];
          [ apply (bool_decide_unpack _); vm_compute; exact I | ]).
  apply elem_of_nil in Hkey. tauto.
Qed.

(** A [FARRTStar2] can be built exactly with keyword arguments among
    [gui], [outdir], [run_count], [display_every_n], [merge_threshold],
    [potential_field_force], [tree_attr_force] and [goal_attr_force]: the
    base constructor asserts that nothing else is left, after [RRTStar] has
    handed it the whole dictionary. So the settings the constructors read
    with [kwargs.get] ([vision_radius], [iters], [eps], [max_step_length],
    [obstacle_avoidance_radius]) cannot be passed, and every planner that
    was built has their defaults: [iters] 5000 (2000 raised by
    [FARRTStar2]), [eps] 1/100, [vision_radius] 10, [steer_distance] 10/3,
    [obstacle_avoidance_radius] 20/9, [merge_threshold] 5/12 unless given. *)
Theorem FARRTStar2_init_settings (kwargs : gmap string Q) :
  (forall key, key ∈ read_keys -> key ∈ dom kwargs ->
     FARRTStar2_init kwargs = Raises AssertionError)
  /\ ((exists attrs, FARRTStar2_init kwargs = Returns attrs)
      <-> dom kwargs ⊆ accepted_keys)
  /\ (forall attrs, FARRTStar2_init kwargs = Returns attrs ->
        farrt_iters attrs = 5000%Q
        /\ iters (rrtstar attrs) = 2000%Q
        /\ eps (rrtstar attrs) = (1 # 100)%Q
        /\ vision_radius (base (rrtstar attrs)) = 10%Q
        /\ steer_distance (rrtstar attrs) = (10 # 3)%Q
        /\ obstacle_avoidance_radius (rrtstar attrs) = (20 # 9)%Q
        /\ goal_reached_thresh (rrtstar attrs) = 1%Q
        /\ built_tree (rrtstar attrs) = false
        /\ (kwargs !! "merge_threshold" = None -> merge_threshold attrs = (10 # 24)%Q)).
Proof.
  rewrite FARRTStar2_init_unfold. cbv zeta.
  pose proof (kwargs_left_empty kwargs) as Hiff.
  remember (delete "goal_attr_force" (delete "tree_attr_force"
              (delete "potential_field_force" (delete "merge_threshold" kwargs))))
    as kw eqn:Hkw.
  remember (delete "display_every_n" (delete "run_count" (delete "outdir"
              (delete "gui" kw)))) as rest eqn:Hrest.
  split; [ | split ].
  - intros key Hkey Hin. rewrite bool_decide_eq_false_2; [ reflexivity | ].
    rewrite Hiff. intros Hsub. exact (read_keys_not_accepted key Hkey (Hsub key Hin)).
  - destruct (bool_decide (rest = ∅)) eqn:Hempty.
    + apply bool_decide_eq_true in Hempty. split; [ intros _; apply Hiff, Hempty | eauto ].
    + apply bool_decide_eq_false in Hempty. split; [ intros [attrs Heq]; discriminate | ].
      intros Hsub. exfalso. apply Hempty, Hiff, Hsub.
  - intros attrs Hbuilt.
    destruct (bool_decide (rest = ∅)) eqn:Hempty; [ | discriminate ].
    apply bool_decide_eq_true in Hempty.
    assert (Hnone : forall key, key ∈ read_keys -> kw !! key = None).
    { intros key Hkey. pose proof (read_keys_not_accepted key Hkey) as Hnot.
      assert (Hk : kwargs !! key = None).
      { apply not_elem_of_dom. intros Hin. apply Hiff in Hempty. exact (Hnot (Hempty key Hin)). }
      rewrite Hkw, !lookup_delete_None. tauto. }
    assert (Hiters : kw !! "iters" = None)
      by (apply Hnone; unfold read_keys;
          repeat first [ apply list_elem_of_here | apply list_elem_of_further ]).
    assert (Heps : kw !! "eps" = None)
      by (apply Hnone; unfold read_keys;
          repeat first [ apply list_elem_of_here | apply list_elem_of_further ]).
    assert (Hstep : kw !! "max_step_length" = None)
      by (apply Hnone; unfold read_keys;
          repeat first [ apply list_elem_of_here | apply list_elem_of_further ]).
    assert (Hoar : kw !! "obstacle_avoidance_radius" = None)
      by (apply Hnone; unfold read_keys;
          repeat first [ apply list_elem_of_here | apply list_elem_of_further ]).
    injection Hbuilt as <-. unfold kwargs_get.
    cbn [farrt_iters iters eps vision_radius steer_distance obstacle_avoidance_radius
         goal_reached_thresh built_tree merge_threshold rrtstar base].
    rewrite Hempty, lookup_empty, Hiters, Heps, Hstep, Hoar.
    repeat split. intros ->. reflexivity.
Qed.

End ConstructorFacts.

(** ** Extracting the path *)

Section PathFacts.
Context {vertex_t obstacles_t node_t : Type} `{Countable vertex_t}.
Context `{!Externals vertex_t obstacles_t} `{!Nodes vertex_t node_t}.

Local Abbreviation state := (@planner vertex_t obstacles_t _ _).

(** [ps] lists the ancestors of a vertex by the parent map, nearest first,
    up to the first [root] among them; the list is empty for [root] itself. *)
Inductive parent_chain (s : state) (root : vertex_t) : vertex_t -> list vertex_t -> Prop :=
  | chain_root : parent_chain s root root []
  | chain_step c p ps :
      c <> root -> child_to_parent_map s !! c = Some p ->
      parent_chain s root p ps -> parent_chain s root c (p :: ps).

(** The points the loop collects when it walks from [c] along [ps]. *)
Definition collected (reverse : bool) (c : vertex_t) (ps : list vertex_t)
    : list (option vertex_t) :=
  Some <$> (if reverse then ps else removelast (c :: ps)).

Lemma get_parent_strict_run (s : state) c :
  get_parent c false s
  = (s, match child_to_parent_map s !! c with
        | Some p => Ok (Some p)
        | None => Raise ValueError
        end).
Proof.
  unfold get_parent. rewrite bind_get. destruct (child_to_parent_map s !! c); reflexivity.
Qed.

Lemma collected_step reverse c p ps :
  collected reverse c (p :: ps)
  = (if reverse then Some p else Some c) :: collected reverse p ps.
Proof. destruct reverse; reflexivity. Qed.

Lemma extract_path_while_chain (s : state) root reverse :
  forall c ps, parent_chain s root c ps ->
    forall fuel acc, length ps <= fuel ->
      extract_path_while fuel root reverse (Some c) acc s
      = (s, Ok (acc ++ collected reverse c ps)).
Proof.
  induction 1 as [ | c p ps Hne Hp Hchain IH]; intros fuel acc Hfuel.
  - destruct fuel; simpl; rewrite bool_decide_eq_false_2 by auto;
      destruct reverse; simpl; rewrite app_nil_r; reflexivity.
  - destruct fuel as [ | fuel]; simpl in Hfuel; [ lia | ].
    simpl. rewrite bool_decide_eq_true_2 by congruence.
    rewrite collected_step. destruct reverse.
    + unfold bind at 1. rewrite get_parent_strict_run, Hp.
      rewrite IH by lia. rewrite <- app_assoc. reflexivity.
    + unfold bind at 1. rewrite get_parent_strict_run, Hp.
      rewrite IH by lia. rewrite <- app_assoc. reflexivity.
Qed.

Lemma extract_path_while_returns (s : state) root reverse :
  forall fuel c acc s' path,
    extract_path_while fuel root reverse (Some c) acc s = (s', Ok path) ->
    s' = s
    /\ exists ps, parent_chain s root c ps /\ length ps <= fuel
                  /\ path = acc ++ collected reverse c ps.
Proof.
  induction fuel as [ | fuel IH]; intros c acc s' path Hrun; simpl in Hrun;
    destruct (decide (c = root)) as [-> | Hne].
  - rewrite bool_decide_eq_false_2 in Hrun by auto. injection Hrun as <- <-.
    split; [ reflexivity | ]. exists []. split; [ constructor | ].
    split; [ simpl; lia | ]. destruct reverse; simpl; rewrite app_nil_r; reflexivity.
  - rewrite bool_decide_eq_true_2 in Hrun by congruence. discriminate.
  - rewrite bool_decide_eq_false_2 in Hrun by auto. injection Hrun as <- <-.
    split; [ reflexivity | ]. exists []. split; [ constructor | ].
    split; [ simpl; lia | ]. destruct reverse; simpl; rewrite app_nil_r; reflexivity.
  - rewrite bool_decide_eq_true_2 in Hrun by congruence.
    assert (Hstep : exists p, child_to_parent_map s !! c = Some p
              /\ extract_path_while fuel root reverse (Some p)
                   (acc ++ [if reverse then Some p else Some c]) s = (s', Ok path)).
    { destruct reverse; unfold bind at 1 in Hrun; rewrite get_parent_strict_run in Hrun;
        destruct (child_to_parent_map s !! c) as [p | ]; try discriminate; eauto. }
    destruct Hstep as (p & Hp & Hrest).
    apply IH in Hrest as (-> & ps & Hchain & Hlen & ->).
    split; [ reflexivity | ]. exists (p :: ps).
    split; [ econstructor; eassumption | ]. split; [ simpl; lia | ].
    rewrite collected_step, <- app_assoc. reflexivity.
Qed.

Lemma extract_path_returns (s : state) (position : node_t) (endpoint root : vertex_t)
    fuel reverse s' nodes :
  extract_path fuel position (Some endpoint) root reverse s = (s', Ok nodes) ->
  s' = s
  /\ exists ps,
       parent_chain s root endpoint ps /\ length ps <= fuel
       /\ nodes = node_path position
                    (Some <$> (if reverse then ps
                               else list.reverse (removelast (endpoint :: ps)))).
Proof.
  intros Hrun. unfold extract_path in Hrun.
  apply bind_inv_Ok in Hrun as (s1 & path & Hwhile & Hret).
  apply extract_path_while_returns in Hwhile as (-> & ps & Hchain & Hlen & ->).
  injection Hret as <- <-. split; [ reflexivity | ].
  exists ps. split; [ exact Hchain | ]. split; [ exact Hlen | ].
  unfold collected. destruct reverse; simpl app; [ reflexivity | ].
  rewrite fmap_reverse. reflexivity.
Qed.

(** [extract_path] walks the parent map from the endpoint to the root.
    For an endpoint with a chain of ancestors ending in [root], and fuel
    for its length, it returns the nodes of that chain and leaves the
    planner as it is: with [reverse] the parents of the endpoint down to
    the root (the root in, the endpoint out), without it the endpoint and
    its ancestors short of the root, root-most first; each node's parent
    is the node before it, the first one's is [self.curr_pos]. Whenever it
    returns for an endpoint that is a point, the path is of that form. An
    endpoint other than the root without a parent entry is a [ValueError],
    and for the endpoint [None] the path is empty. *)
Theorem extract_path_follows_parents (s : state) (position : node_t)
    (endpoint root : vertex_t) :
  (forall ps fuel reverse,
     parent_chain s root endpoint ps -> length ps <= fuel ->
     extract_path fuel position (Some endpoint) root reverse s
     = (s, Ok (node_path position
                 (Some <$> (if reverse then ps else list.reverse (removelast (endpoint :: ps)))))))
  /\ (forall fuel reverse s' nodes,
        extract_path fuel position (Some endpoint) root reverse s = (s', Ok nodes) ->
        s' = s
        /\ exists ps,
             parent_chain s root endpoint ps /\ length ps <= fuel
             /\ nodes = node_path position
                          (Some <$> (if reverse then ps
                                     else list.reverse (removelast (endpoint :: ps)))))
  /\ (forall fuel reverse,
        endpoint <> root -> child_to_parent_map s !! endpoint = None ->
        extract_path (S fuel) position (Some endpoint) root reverse s
        = (s, Raise ValueError))
  /\ (forall fuel reverse,
        extract_path (S fuel) position None root reverse s = (s, Ok [])).
Proof.
  split; [ | split; [ | split ] ].
  - intros ps fuel reverse Hchain Hfuel. unfold extract_path.
    rewrite (bind_Ok _ _ _ _ _
               (extract_path_while_chain s root reverse _ _ Hchain fuel [] Hfuel)).
    unfold collected. destruct reverse; simpl app; [ reflexivity | ].
    rewrite fmap_reverse. reflexivity.
  - intros fuel reverse s' nodes Hrun. unfold extract_path in Hrun.
    apply bind_inv_Ok in Hrun as (s1 & path & Hwhile & Hret).
    apply extract_path_while_returns in Hwhile as (-> & ps & Hchain & Hlen & ->).
    injection Hret as <- <-. split; [ reflexivity | ].
    exists ps. split; [ exact Hchain | ]. split; [ exact Hlen | ].
    unfold collected. destruct reverse; simpl app; [ reflexivity | ].
    rewrite fmap_reverse. reflexivity.
  - intros fuel reverse Hne Hnone. unfold extract_path. apply bind_Raise.
    simpl. rewrite bool_decide_eq_true_2 by congruence.
    destruct reverse; unfold bind; rewrite get_parent_strict_run, Hnone; reflexivity.
  - intros fuel reverse. unfold extract_path. simpl.
    try rewrite bool_decide_eq_true_2 by discriminate.
    destruct reverse; reflexivity.
Qed.

End PathFacts.

(** ** Pushing a point by the field and rewiring *)

Section FieldRewiringFacts.
Context {vertex_t obstacles_t : Type} `{Countable vertex_t}.
Context `{!Externals vertex_t obstacles_t}.
Variable pt_x pt_y : vertex_t -> Q.
Variable default_field_force : @planner vertex_t obstacles_t _ _ -> result Q.
Variable tree_attr_force goal_attr_force : Q.
Variable centroid : list vertex_t -> vertex_t.
Variable norm : Q -> Q -> Q.

Local Abbreviation state := (@planner vertex_t obstacles_t _ _).
Local Abbreviation Mp := (M state).

Lemma returned_bind_None {A B} (m : Mp A) (k : A -> Mp B) (s : state) :
  (forall a s', returned (k a s') = None) -> returned (bind m k s) = None.
Proof.
  intros Hk. unfold bind. destruct (m s) as [s' [a | e | ]]; [ apply Hk | | ]; reflexivity.
Qed.

(** [apply_field_to_pt] ends every call in an exception and leaves the
    planner as it was: whatever the force and the cell of the field, the
    call [self.find_nearby_pts(pt, radius=..., pt_source=...)] passes two
    keywords that [RRTStar.find_nearby_pts] does not take. *)
Theorem apply_field_to_pt_always_raises (pt : vertex_t)
    (field_force tree_force goal_force : option Q) (s : state) :
  exists e,
    apply_field_to_pt pt_x pt_y default_field_force tree_attr_force goal_attr_force
      centroid norm pt field_force tree_force goal_force s
    = (s, Raise e).
Proof.
  unfold apply_field_to_pt. rewrite bind_get.
  assert (Hforce : exists r,
             (match field_force with
              | Some f => ret f
              | None => lift (default_field_force s)
              end : Mp Q) s = (s, r) /\ r <> OutOfFuel).
  { destruct field_force as [f | ]; [ eexists; split; [ reflexivity | discriminate ] | ].
    unfold lift, finish. destruct (default_field_force s); eexists;
      (split; [ reflexivity | discriminate ]). }
  destruct Hforce as ([f | e | ] & Hforce & Hfuel); [ | | congruence ].
  - rewrite (bind_Ok _ _ _ _ _ Hforce).
    unfold bind at 1. unfold lift, finish.
    destruct (field_getitem _ _ _) as [force | e]; eexists; reflexivity.
  - rewrite (bind_Raise _ _ _ _ _ Hforce). eexists; reflexivity.
Qed.

Lemma farrt_step_never_returns fuel goal fp c (s : state) :
  returned (farrt_step pt_x pt_y default_field_force tree_attr_force goal_attr_force
              centroid norm fuel goal fp c s) = None.
Proof.
  unfold farrt_step.
  apply returned_bind_None. intros nonempty s1.
  apply returned_bind_None. intros x_free s2.
  rewrite bind_get.
  apply returned_bind_None. intros x_field s3.
  reflexivity.
Qed.

Lemma farrt_loop_never_returns fuel goal i c (s : state) :
  returned (farrt_loop pt_x pt_y default_field_force tree_attr_force goal_attr_force
              centroid norm fuel goal i None c s) = None.
Proof.
  assert (Hguard : forall s1 continue,
             farrt_guard None s = (s1, Ok continue) -> continue = true).
  { intros s1 continue Hrun. apply (farrt_guard_returns s None).
    unfold returned. rewrite Hrun. reflexivity. }
  destruct fuel as [ | fuel]; simpl; unfold bind at 1;
    destruct (farrt_guard None s) as [s1 [continue | e | ]] eqn:Hrun;
    try reflexivity; rewrite (Hguard s1 continue eq_refl); [ reflexivity | ].
  unfold returned, bind.
  pose proof (farrt_step_never_returns fuel goal None c s1) as Hstep.
  unfold returned in Hstep.
  destruct (farrt_step _ _ _ _ _ _ _ _ _ _ _ _) as [s2 [r | e | ]];
    [ discriminate | reflexivity | reflexivity ].
Qed.

(** The rewiring loop of FARRT* never returns. Its condition holds on the
    first evaluation, [final_pt] being [None], unless evaluating it already
    raises; and no pass through the body completes: the call
    [self.find_nearest(x_field, pt_source=self.rrt_tree)] passes a keyword
    that [RRTStar.find_nearest] does not take. A call ends in an exception
    or, while the rejection loop of [sample_free] runs, not at all. *)
Theorem do_farrt_rewiring_never_returns (fuel : nat) (goal : vertex_t)
    (initial_frontier : gset vertex_t) (s : state) :
  returned (do_farrt_rewiring pt_x pt_y default_field_force tree_attr_force
              goal_attr_force centroid norm fuel goal initial_frontier s) = None.
Proof.
  unfold do_farrt_rewiring.
  pose proof (farrt_loop_never_returns fuel goal 0%Z Inf s) as Hloop.
  unfold returned in *.
  destruct (farrt_loop _ _ _ _ _ _ _ _ _ _ _ _ _) as [s' [r | e | ]];
    [ discriminate | reflexivity | reflexivity ].
Qed.

End FieldRewiringFacts.

(** ** The planner in its world *)

Section MonadFacts.
Context {St : Type}.

Lemma run_bind_Ok {A B} (m : M St A) (k : A -> M St B) s s' a :
  m s = (s', Ok a) -> bind m k s = k a s'.
Proof. unfold bind. intros ->. reflexivity. Qed.

Lemma run_bind_Raise {A B} (m : M St A) (k : A -> M St B) s s' e :
  m s = (s', Raise e) -> bind m k s = (s', Raise e).
Proof. unfold bind. intros ->. reflexivity. Qed.

Lemma run_bind_inv_Ok {A B} (m : M St A) (k : A -> M St B) s s' b :
  bind m k s = (s', Ok b) ->
  exists s1 a, m s = (s1, Ok a) /\ k a s1 = (s', Ok b).
Proof.
  unfold bind. destruct (m s) as [s1 [a | e | ]]; intros Hk; try discriminate.
  exists s1, a. split; [ reflexivity | exact Hk ].
Qed.

Lemma run_bind_get {B} (k : St -> M St B) (s : St) : bind get k s = k s s.
Proof. reflexivity. Qed.

Lemma run_bind_ret {A B} (a : A) (k : A -> M St B) (s : St) : bind (ret a) k s = k a s.
Proof. reflexivity. Qed.

Lemma run_bind_modify {B} f (k : unit -> M St B) (s : St) :
  bind (modify f) k s = k tt (f s).
Proof. reflexivity. Qed.

Lemma run_returned_bind_None {A B} (m : M St A) (k : A -> M St B) (s : St) :
  (forall a s', returned (k a s') = None) -> returned (bind m k s) = None.
Proof.
  intros Hk. unfold bind. destruct (m s) as [s' [a | e | ]]; [ apply Hk | | ]; reflexivity.
Qed.

Lemma run_returned_bind_here {A B} (m : M St A) (k : A -> M St B) (s : St) :
  returned (m s) = None -> returned (bind m k s) = None.
Proof.
  unfold returned, bind. destruct (m s) as [s' [a | e | ]]; simpl;
    [ discriminate | reflexivity | reflexivity ].
Qed.

Lemma run_bind_not_Ok {A B} (m : M St A) (k : A -> M St B) s :
  returned (m s) = None -> bind m k s = ((m s).1, match (m s).2 with
                                                    | Raise e => Raise e
                                                    | _ => OutOfFuel
                                                    end).
Proof.
  unfold returned, bind. destruct (m s) as [s1 [a | e | ]]; simpl;
    [ discriminate | reflexivity | reflexivity ].
Qed.

End MonadFacts.

Section RobotFacts.
Context {vertex_t obstacles_t node_t : Type} `{Countable vertex_t}.
Context `{!Externals vertex_t obstacles_t} `{!Nodes vertex_t node_t}.
Context `{!Surroundings vertex_t obstacles_t node_t}.
Variable gaussian_filter : list (list Q) -> Q -> list (list Q).
Variable np_gradient : list (list Q) -> result (list (list Q) * list (list Q)).
Variable pt_x pt_y : vertex_t -> Q.
Variable default_field_force : @planner vertex_t obstacles_t _ _ -> result Q.
Variable tree_attr_force goal_attr_force : Q.
Variable centroid : list vertex_t -> vertex_t.
Variable norm : Q -> Q -> Q.

Local Abbreviation tree_t := (@planner vertex_t obstacles_t _ _).
Local Abbreviation robot_t := (@robot vertex_t obstacles_t node_t _ _).

Local Abbreviation the_replan :=
  (replan gaussian_filter np_gradient pt_x pt_y default_field_force tree_attr_force
     goal_attr_force centroid norm).
Local Abbreviation the_handle_new_obstacles :=
  (handle_new_obstacles gaussian_filter np_gradient pt_x pt_y default_field_force
     tree_attr_force goal_attr_force centroid norm).
Local Abbreviation the_observe_world :=
  (observe_world gaussian_filter np_gradient pt_x pt_y default_field_force
     tree_attr_force goal_attr_force centroid norm).
Local Abbreviation the_run_loop :=
  (run_loop gaussian_filter np_gradient pt_x pt_y default_field_force
     tree_attr_force goal_attr_force centroid norm).
Local Abbreviation the_run :=
  (run gaussian_filter np_gradient pt_x pt_y default_field_force
     tree_attr_force goal_attr_force centroid norm).

(** *** Vocabulary *)

(** [m] leaves the attribute [f] as it was, however it ends. *)
Definition kept {B A} (f : robot_t -> B) (m : M robot_t A) : Prop :=
  forall r, f (m r).1 = f r.

(** [m] never returns, and leaves the plan as it was. *)
Definition stuck {A} (m : M robot_t A) : Prop :=
  forall r, returned (m r) = None /\ planned_path (m r).1 = planned_path r.

(** What [handle_new_obstacles] takes for a step without work: no new
    obstacle, no plan left, or a plan that the new obstacles miss. *)
Definition nothing_to_do (new_obstacles : obstacles_t) (r : robot_t) : Prop :=
  obstacles_is_empty new_obstacles = true
  \/ planned_path r = []
  \/ path_intersects (curr_pos (tree r) :: (coord <$> planned_path r)) new_obstacles
     = false.

(** An attribute that is none of those in [tree]. *)
Definition beside_tree {B} (f : robot_t -> B) : Prop :=
  forall g r, f (set_tree g r) = f r.

(** *** Frames *)

Lemma on_tree_run {A} (m : M tree_t A) (r : robot_t) :
  on_tree m r = (set_tree (fun _ => (m (tree r)).1) r, (m (tree r)).2).
Proof. unfold on_tree. destruct (m (tree r)). reflexivity. Qed.

Lemma kept_ret {B A} (f : robot_t -> B) (a : A) : kept f (ret a).
Proof. intros r. reflexivity. Qed.

Lemma kept_get {B} (f : robot_t -> B) : kept f get.
Proof. intros r. reflexivity. Qed.

Lemma kept_raise {B A} (f : robot_t -> B) e : kept f (raise e : M robot_t A).
Proof. intros r. reflexivity. Qed.

Lemma kept_lift {B A} (f : robot_t -> B) (x : result A) : kept f (lift x).
Proof. intros r. reflexivity. Qed.

Lemma kept_on_tree {B A} (f : robot_t -> B) (m : M tree_t A) :
  beside_tree f -> kept f (on_tree m).
Proof. intros Hf r. rewrite on_tree_run. apply Hf. Qed.

Lemma kept_bind {B A C} (f : robot_t -> B) (m : M robot_t A) (k : A -> M robot_t C) :
  kept f m -> (forall a, kept f (k a)) -> kept f (bind m k).
Proof.
  intros Hm Hk r. unfold bind. specialize (Hm r).
  destruct (m r) as [r1 [a | e | ]]; simpl in *; [ | assumption | assumption ].
  rewrite Hk. exact Hm.
Qed.

Lemma kept_invoke_base {B A} (f : robot_t -> B) name args (body : M robot_t A) :
  kept f body -> kept f (invoke_base name args body).
Proof.
  intros Hb. unfold invoke_base.
  destruct (List.find _ _) as [[? declared] | ]; [ | apply kept_raise ].
  destruct (_ <=? _)%nat; [ exact Hb | apply kept_raise ].
Qed.

Lemma stuck_bind_here {A C} (m : M robot_t A) (k : A -> M robot_t C) :
  stuck m -> stuck (bind m k).
Proof.
  intros Hm r. destruct (Hm r) as [Hret Hplan].
  rewrite (run_bind_not_Ok _ _ _ Hret). simpl. split; [ | exact Hplan ].
  unfold returned. simpl. destruct ((m r).2); reflexivity.
Qed.

Lemma stuck_bind_later {A C} (m : M robot_t A) (k : A -> M robot_t C) :
  kept planned_path m -> (forall a, stuck (k a)) -> stuck (bind m k).
Proof.
  intros Hm Hk r. unfold bind. specialize (Hm r).
  destruct (m r) as [r1 [a | e | ]]; simpl in *.
  - destruct (Hk a r1) as [Hret Hplan]. split; [ exact Hret | ]. rewrite Hplan. exact Hm.
  - split; [ reflexivity | exact Hm ].
  - split; [ reflexivity | exact Hm ].
Qed.

Lemma stuck_on_tree {A} (m : M tree_t A) :
  (forall t, returned (m t) = None) -> stuck (on_tree m).
Proof.
  intros Hm r. rewrite on_tree_run. split; [ | reflexivity ].
  specialize (Hm (tree r)). unfold returned in *. simpl. exact Hm.
Qed.

Lemma beside_tree_planned_path : beside_tree planned_path.
Proof. intros g r. reflexivity. Qed.

Lemma beside_tree_curr_node : beside_tree curr_node.
Proof. intros g r. reflexivity. Qed.

Lemma beside_tree_x_goal : beside_tree x_goal.
Proof. intros g r. reflexivity. Qed.

(** *** [update_plan] *)

Lemma update_plan_run (r : robot_t) :
  update_plan r = (r, Raise (TypeError "update_plan")).
Proof. reflexivity. Qed.

Lemma handle_deleted_obstacles_run (deleted_obstacles : obstacles_t) (r : robot_t) :
  handle_deleted_obstacles deleted_obstacles r = (r, Ok tt).
Proof. reflexivity. Qed.

(** *** Severing *)

Lemma get_parent_point_run (s : tree_t) pt :
  get_parent_point pt s
  = (s, match child_to_parent_map s !! pt with
        | Some p => Ok p
        | None => Raise ValueError
        end).
Proof.
  unfold get_parent_point, get_parent. unfold bind at 1. rewrite bind_get.
  destruct (child_to_parent_map s !! pt); reflexivity.
Qed.

Lemma collect_parents_returns pts :
  forall closest q (s s' : tree_t) closest' q',
    collect_parents pts closest q s = (s', Ok (closest', q')) ->
    s' = s /\ q' = q ++ pts.
Proof.
  induction pts as [ | pt pts IH]; intros closest q s s' closest' q' Hrun; simpl in Hrun.
  - injection Hrun as <- _ <-. rewrite app_nil_r. auto.
  - unfold bind at 1 in Hrun. rewrite get_parent_point_run in Hrun.
    destruct (child_to_parent_map s !! pt) as [p | ]; [ | discriminate ].
    apply IH in Hrun as [-> ->]. rewrite <- app_assoc. auto.
Qed.

Lemma sever_bfs_returns fuel :
  forall q severed (s s' : tree_t) severed',
    sever_bfs fuel q severed s = (s', Ok severed') ->
    severed ⊆ severed' /\ forall pt, pt ∈ q -> pt ∈ severed'.
Proof.
  clear gaussian_filter np_gradient pt_x pt_y default_field_force tree_attr_force
    goal_attr_force centroid norm.
  induction fuel as [ | fuel IH]; intros q severed s s' severed' Hrun;
    destruct q as [ | point rest]; simpl in Hrun; try discriminate.
  - injection Hrun as <- <-. split; [ reflexivity | ].
    intros pt Hpt. apply elem_of_nil in Hpt. tauto.
  - injection Hrun as <- <-. split; [ reflexivity | ].
    intros pt Hpt. apply elem_of_nil in Hpt. tauto.
  - apply bind_inv_Ok in Hrun as (s1 & children & _ & Hrun).
    apply IH in Hrun as [Hsub Hq]. split; [ set_solver | ].
    intros pt Hpt. apply elem_of_cons in Hpt as [-> | Hpt].
    + apply Hsub. set_solver.
    + apply Hq. apply elem_of_app. left. exact Hpt.
Qed.

Lemma for_each_sever_raises (pts : list vertex_t) (s : tree_t) :
  pts <> [] -> returned (for_each pts sever_connections s) = None.
Proof.
  destruct pts as [ | pt rest]; [ congruence | ]. intros _. simpl.
  destruct (sever_connections_raises pt s) as [e He].
  unfold returned, bind. destruct (sever_connections pt s) as [s1 o]. simpl in He.
  rewrite He. reflexivity.
Qed.

(** [do_tree_severing] returns only when nothing is in conflict. With no
    point of the tree within half the avoidance radius of an obstacle and
    no edge of the plan hit, it leaves the tree as it is and returns the
    frontier, nothing deleted and nothing freed. With any point in
    conflict it never returns: a conflicting point without a parent (the
    root, say) is the [ValueError] of [get_parent], and otherwise the first
    [sever_connections] raises. *)
Theorem do_tree_severing_cases (fuel : nat) (previous_plan : list node_t) (s : tree_t) :
  (conflicting s previous_plan = ∅ ->
   do_tree_severing fuel previous_plan s
   = (s, Ok (points_inside ∅ (detected_obstacles s),
             tree_within (rrt_tree s) (detected_obstacles s)
               (obstacle_avoidance_radius s),
             ∅)))
  /\ (conflicting s previous_plan <> ∅ ->
      returned (do_tree_severing fuel previous_plan s) = None).
Proof.
  clear gaussian_filter np_gradient pt_x pt_y default_field_force tree_attr_force
    goal_attr_force centroid norm.
  split.
  - intros Hnone. unfold do_tree_severing. rewrite bind_get, Hnone.
    rewrite elements_empty. cbn [collect_parents]. rewrite bind_ret.
    destruct fuel; cbn [sever_bfs]; rewrite bind_ret; rewrite elements_empty;
      cbn [for_each]; rewrite !bind_ret, bind_get; unfold ret, multipoint_without_all;
      repeat f_equal; apply leibniz_equiv; set_solver.
  - intros Hsome. unfold do_tree_severing. rewrite bind_get.
    set (conflicting_pts := conflicting s previous_plan) in *.
    assert (Hfirst : exists pt, pt ∈ elements conflicting_pts).
    { destruct (elements conflicting_pts) as [ | pt rest] eqn:Hel.
      - apply elements_empty_inv, leibniz_equiv in Hel. congruence.
      - exists pt. left. }
    destruct Hfirst as [pt Hpt].
    unfold returned, bind at 1.
    destruct (collect_parents _ _ _ s) as [s1 [[closest q] | e | ]] eqn:Hcollect;
      [ | reflexivity | reflexivity ].
    apply collect_parents_returns in Hcollect as [-> ->]. simpl app.
    unfold bind at 1.
    destruct (sever_bfs fuel _ ∅ s) as [s2 [severed | e | ]] eqn:Hbfs;
      [ | reflexivity | reflexivity ].
    apply sever_bfs_returns in Hbfs as [_ Hq].
    assert (Hne : elements severed <> []).
    { intros Hnil. specialize (Hq pt Hpt). apply elem_of_elements in Hq.
      rewrite Hnil in Hq. apply elem_of_nil in Hq. exact Hq. }
    pose proof (for_each_sever_raises _ s2 Hne) as Hsever.
    unfold returned in Hsever. unfold bind at 1.
    destruct (for_each (elements severed) sever_connections s2) as [s3 [[] | e | ]];
      [ discriminate | reflexivity | reflexivity ].
Qed.

(** *** Replanning *)

Lemma replan_stuck_after_clearing fuel new_obstacles previous_plan :
  stuck
    (let* (_, closest_parents, _) := on_tree (do_tree_severing fuel previous_plan) in
     let* geoms := lift (obstacles_geoms new_obstacles) in
     let* _ := on_tree (update_potential_field gaussian_filter np_gradient geoms) in
     let* r := get in
     let* (final_pt, final_cost) :=
       on_tree (do_farrt_rewiring pt_x pt_y default_field_force tree_attr_force
                  goal_attr_force centroid norm fuel (curr_pos (tree r)) closest_parents) in
     let* r := get in
     let* path :=
       on_tree (extract_path fuel (curr_node r) final_pt (x_goal_pt (tree r)) true) in
     modify (set_planned_path (fun _ => path)) : M robot_t unit).
Proof.
  apply stuck_bind_later; [ apply kept_on_tree, beside_tree_planned_path | ].
  intros [[removed closest_parents] freed].
  apply stuck_bind_later; [ apply kept_lift | ]. intros geoms.
  apply stuck_bind_later; [ apply kept_on_tree, beside_tree_planned_path | ]. intros _.
  apply stuck_bind_later; [ apply kept_get | ]. intros r.
  apply stuck_bind_here. apply stuck_on_tree. intros t.
  unfold do_farrt_rewiring. apply farrt_loop_never_returns.
Qed.

Lemma replan_kept {B} (f : robot_t -> B) fuel new_obstacles :
  beside_tree f -> (forall g r, f (set_planned_path g r) = f r) ->
  kept f (the_replan fuel new_obstacles).
Proof.
  intros Htree Hplan. unfold replan.
  apply kept_bind; [ apply kept_get | ]. intros r0.
  apply kept_bind; [ intros r1; apply Hplan | ]. intros _.
  apply kept_bind; [ apply kept_on_tree, Htree | ]. intros [[removed closest] freed].
  apply kept_bind; [ apply kept_lift | ]. intros geoms.
  apply kept_bind; [ apply kept_on_tree, Htree | ]. intros _.
  apply kept_bind; [ apply kept_get | ]. intros r1.
  apply kept_bind; [ apply kept_on_tree, Htree | ]. intros [final_pt final_cost].
  apply kept_bind; [ apply kept_get | ]. intros r2.
  apply kept_bind; [ apply kept_on_tree, Htree | ]. intros path.
  intros r3. apply Hplan.
Qed.

Lemma replan_stuck fuel new_obstacles (r : robot_t) :
  returned (the_replan fuel new_obstacles r) = None
  /\ planned_path (the_replan fuel new_obstacles r).1 = [].
Proof.
  exact (replan_stuck_after_clearing fuel new_obstacles (planned_path r)
           (set_planned_path (fun _ => []) r)).
Qed.

(** [FARRTStar2.replan] never returns, and it leaves the planner without a
    plan: the previous plan is cleared first, and the rewiring that should
    lead to the new one never completes, when the call has not ended in
    an exception before. The robot's position and goal are as before. *)
Theorem replan_never_returns (fuel : nat) (new_obstacles : obstacles_t) (r : robot_t) :
  returned (the_replan fuel new_obstacles r) = None
  /\ planned_path (the_replan fuel new_obstacles r).1 = []
  /\ curr_node (the_replan fuel new_obstacles r).1 = curr_node r
  /\ x_goal (the_replan fuel new_obstacles r).1 = x_goal r.
Proof.
  destruct (replan_stuck fuel new_obstacles r) as [Hret Hplan].
  split; [ exact Hret | ]. split; [ exact Hplan | ].
  split; [ apply (replan_kept curr_node _ _ beside_tree_curr_node); reflexivity
         | apply (replan_kept x_goal _ _ beside_tree_x_goal); reflexivity ].
Qed.

(** *** The first plan *)

(** [m] leaves the plan as it was unless it returns. *)
Definition plan_kept_unless_returned {A} (m : M robot_t A) : Prop :=
  forall r, returned (m r) = None -> planned_path (m r).1 = planned_path r.

Lemma plan_kept_unless_returned_bind {A C} (m : M robot_t A) (k : A -> M robot_t C) :
  kept planned_path m -> (forall a, plan_kept_unless_returned (k a)) ->
  plan_kept_unless_returned (bind m k).
Proof.
  intros Hm Hk r. unfold bind. specialize (Hm r).
  destruct (m r) as [r1 [a | e | ]]; simpl in *.
  - intros Hret. rewrite (Hk a r1 Hret). exact Hm.
  - intros _. exact Hm.
  - intros _. exact Hm.
Qed.

Lemma plan_kept_unless_returned_modify f : plan_kept_unless_returned (modify f).
Proof. intros r Hret. discriminate. Qed.

Lemma do_first_plan_kept {B} (f : robot_t -> B) fuel :
  beside_tree f -> (forall g r, f (set_planned_path g r) = f r) ->
  kept f (do_first_plan fuel).
Proof.
  intros Htree Hplan. unfold do_first_plan.
  apply kept_bind; [ intros r; apply Hplan | ]. intros _.
  apply kept_bind; [ apply kept_get | ]. intros r0.
  apply kept_bind; [ apply kept_on_tree, Htree | ]. intros [fp c].
  apply kept_bind; [ apply kept_on_tree, Htree | ]. intros _.
  apply kept_bind; [ apply kept_get | ]. intros r1.
  apply kept_bind; [ apply kept_on_tree, Htree | ]. intros path.
  intros r2. apply Hplan.
Qed.

Lemma do_first_plan_returns fuel (r r' : robot_t) :
  do_first_plan fuel r = (r', Ok tt) ->
  built_tree (tree r') = true
  /\ exists p ps,
       p ∈ rrt_vertices (tree r')
       /\ Qltb (distance p (curr_pos (tree r))) (goal_reached_thresh (tree r)) = true
       /\ parent_chain (tree r') (x_goal_pt (tree r')) p ps
       /\ length ps <= fuel
       /\ planned_path r' = node_path (curr_node r) (Some <$> ps).
Proof.
  intros Hrun. unfold do_first_plan in Hrun.
  rewrite run_bind_modify, run_bind_get in Hrun.
  set (r0 := set_planned_path (fun _ => []) r) in *.
  apply run_bind_inv_Ok in Hrun as (r1 & [fp c] & Hbuild & Hrun).
  rewrite on_tree_run in Hbuild.
  destruct (build_rrt_tree fuel _ _ _ (tree r0)) as [s1 o] eqn:Hb. simpl in Hbuild.
  injection Hbuild as <- ->.
  apply build_rrt_tree_returns in Hb as (p & -> & Hp & Hdist).
  apply run_bind_inv_Ok in Hrun as (r2 & [] & Hmod & Hrun).
  rewrite on_tree_run in Hmod. simpl in Hmod. injection Hmod as <-.
  rewrite run_bind_get in Hrun.
  apply run_bind_inv_Ok in Hrun as (r3 & path & Hpath & Hrun).
  rewrite on_tree_run in Hpath.
  destruct (extract_path fuel _ _ _ _ _) as [s2 o] eqn:He. simpl in Hpath.
  injection Hpath as <- ->.
  apply extract_path_returns in He as (-> & ps & Hchain & Hlen & ->).
  injection Hrun as <-. simpl in *.
  split; [ reflexivity | ]. exists p, ps. auto.
Qed.

(** [do_first_plan] builds the tree from the goal and reads the plan off
    it. When it returns, [built_tree] is set, and the plan is the chain of
    parents of a tree vertex that lies within [goal_reached_thresh] of the
    robot (not within the threshold 0 that the call passes), from the
    parent of that vertex to the root [x_goal_pt], each node's parent the
    node before it and the first one's the robot's position; the vertex
    itself is not in the plan. When it does not return, the planner is
    left without a plan. The robot's position and goal are as before in
    either case. *)
Theorem do_first_plan_result (fuel : nat) (r : robot_t) :
  (forall r', do_first_plan fuel r = (r', Ok tt) ->
     built_tree (tree r') = true
     /\ exists p ps,
          p ∈ rrt_vertices (tree r')
          /\ Qltb (distance p (curr_pos (tree r))) (goal_reached_thresh (tree r)) = true
          /\ parent_chain (tree r') (x_goal_pt (tree r')) p ps
          /\ length ps <= fuel
          /\ planned_path r' = node_path (curr_node r) (Some <$> ps))
  /\ (returned (do_first_plan fuel r) = None -> planned_path (do_first_plan fuel r).1 = [])
  /\ curr_node (do_first_plan fuel r).1 = curr_node r
  /\ x_goal (do_first_plan fuel r).1 = x_goal r.
Proof.
  split; [ intros r'; apply do_first_plan_returns | ].
  split.
  - unfold do_first_plan. rewrite run_bind_modify, run_bind_get.
    set (r0 := set_planned_path (fun _ => []) r).
    intros Hret. transitivity (planned_path r0); [ | reflexivity ].
    revert Hret. refine (plan_kept_unless_returned_bind _ _ _ _ r0);
      [ apply kept_on_tree, beside_tree_planned_path | ]. intros [fp c].
    apply plan_kept_unless_returned_bind;
      [ apply kept_on_tree, beside_tree_planned_path | ]. intros _.
    apply plan_kept_unless_returned_bind; [ apply kept_get | ]. intros r1.
    apply plan_kept_unless_returned_bind;
      [ apply kept_on_tree, beside_tree_planned_path | ]. intros path.
    apply plan_kept_unless_returned_modify.
  - split; [ apply (do_first_plan_kept curr_node _ beside_tree_curr_node); reflexivity
           | apply (do_first_plan_kept x_goal _ beside_tree_x_goal); reflexivity ].
Qed.

(** *** Builds that do not return *)

Lemma do_first_plan_plan_cleared fuel (r : robot_t) :
  returned (do_first_plan fuel r) = None -> planned_path (do_first_plan fuel r).1 = [].
Proof.
  unfold do_first_plan. rewrite run_bind_modify, run_bind_get.
  set (r0 := set_planned_path (fun _ => []) r).
  intros Hret. transitivity (planned_path r0); [ | reflexivity ].
  revert Hret. refine (plan_kept_unless_returned_bind _ _ _ _ r0);
    [ apply kept_on_tree, beside_tree_planned_path | ]. intros [fp c].
  apply plan_kept_unless_returned_bind;
    [ apply kept_on_tree, beside_tree_planned_path | ]. intros _.
  apply plan_kept_unless_returned_bind; [ apply kept_get | ]. intros r1.
  apply plan_kept_unless_returned_bind;
    [ apply kept_on_tree, beside_tree_planned_path | ]. intros path.
  apply plan_kept_unless_returned_modify.
Qed.

Lemma RRTStar_replan_plan_cleared fuel new_obstacles (r : robot_t) :
  returned (RRTStar_replan fuel new_obstacles r) = None ->
  planned_path (RRTStar_replan fuel new_obstacles r).1 = [].
Proof.
  unfold RRTStar_replan. rewrite run_bind_modify, run_bind_get.
  set (r0 := set_planned_path (fun _ => []) r).
  intros Hret. transitivity (planned_path r0); [ | reflexivity ].
  revert Hret. refine (plan_kept_unless_returned_bind _ _ _ _ r0);
    [ apply kept_on_tree, beside_tree_planned_path | ]. intros [fp c].
  apply plan_kept_unless_returned_bind; [ apply kept_get | ]. intros r1.
  apply plan_kept_unless_returned_bind;
    [ apply kept_on_tree, beside_tree_planned_path | ]. intros path.
  apply plan_kept_unless_returned_modify.
Qed.

Lemma on_tree_returned {A} (m : M tree_t A) (r : robot_t) :
  returned (on_tree m r) = returned (m (tree r)).
Proof. rewrite on_tree_run. reflexivity. Qed.

Lemma do_first_plan_cut_off fuel (r : robot_t) :
  goal_cut_off (curr_pos (tree r)) (tree r) -> returned (do_first_plan fuel r) = None.
Proof.
  intros Hcut. unfold do_first_plan. rewrite run_bind_modify, run_bind_get.
  apply run_returned_bind_here. rewrite on_tree_returned.
  apply build_rrt_tree_cut_off. exact Hcut.
Qed.

Lemma RRTStar_replan_cut_off fuel new_obstacles (r : robot_t) :
  goal_cut_off (curr_pos (tree r)) (tree r) ->
  returned (RRTStar_replan fuel new_obstacles r) = None.
Proof.
  intros Hcut. unfold RRTStar_replan. rewrite run_bind_modify, run_bind_get.
  apply run_returned_bind_here. rewrite on_tree_returned.
  apply build_rrt_tree_cut_off. exact Hcut.
Qed.

(** C8 (amended). Neither loop has an iteration cap. [build_rrt_tree]
    returns only with a goal-reaching vertex recorded and, on the first
    build, after at least [iters] passes; the condition of its loop holds
    whenever nothing is recorded, and so does that of the rewiring loop
    when it evaluates at all. Where no obstacle-free edge ends within
    [goal_reached_thresh] of the goal point, [build_rrt_tree] does not
    return, whatever the random source gives: the loop goes on until a
    call in it raises, and through any number of passes when every pass
    completes. No failure is reported and the previous plan is not kept:
    [do_first_plan] and both [replan]s clear [planned_path] before the
    build or the rewiring and set it only after that has returned. *)
Theorem loops_run_without_a_cap :
  (forall fuel goal thr (s : tree_t) i fp c,
     returned (build_loop fuel goal thr 0 None Inf s) = Some (i, fp, c) ->
     fp <> None /\ (built_tree s = true \/ (iters s <= i)%Z))
  /\ (forall fuel root goal thr (s : tree_t) fp c,
        returned (build_rrt_tree fuel root goal thr s) = Some (fp, c) -> fp <> None)
  /\ (forall (s : tree_t) i, build_guard s i None = true)
  /\ (forall (s : tree_t) b, returned (farrt_guard None s) = Some b -> b = true)
  /\ (forall fuel root goal thr (s : tree_t),
        goal_cut_off goal s -> returned (build_rrt_tree fuel root goal thr s) = None)
  /\ (forall (P : tree_t -> Prop) goal thr,
        (forall fuel i s, P s ->
           exists s', build_step fuel goal thr i None Inf s = (s', Ok (false, None, Inf))
                      /\ P s') ->
        forall fuel i s, P s -> (build_loop fuel goal thr i None Inf s).2 = OutOfFuel)
  /\ (forall fuel new_obstacles (r : robot_t),
        (returned (do_first_plan fuel r) = None ->
         planned_path (do_first_plan fuel r).1 = [])
        /\ (returned (RRTStar_replan fuel new_obstacles r) = None ->
            planned_path (RRTStar_replan fuel new_obstacles r).1 = [])
        /\ returned (the_replan fuel new_obstacles r) = None
        /\ planned_path (the_replan fuel new_obstacles r).1 = [])
  /\ (forall fuel new_obstacles (r : robot_t),
        goal_cut_off (curr_pos (tree r)) (tree r) ->
        returned (do_first_plan fuel r) = None
        /\ returned (RRTStar_replan fuel new_obstacles r) = None).
Proof.
  destruct (loops_have_no_iteration_cap (vertex_t := vertex_t) (obstacles_t := obstacles_t))
    as (Hloop & Hstuck & Hbuild & Hguard & Hfarrt).
  split; [ exact Hloop | ]. split; [ exact Hbuild | ]. split; [ exact Hguard | ].
  split; [ exact Hfarrt | ].
  split; [ intros fuel root goal thr s; apply build_rrt_tree_cut_off | ].
  split; [ exact Hstuck | ].
  split.
  - intros fuel new_obstacles r.
    split; [ apply do_first_plan_plan_cleared | ].
    split; [ apply RRTStar_replan_plan_cleared | ].
    apply replan_stuck.
  - intros fuel new_obstacles r Hcut.
    split; [ apply do_first_plan_cut_off | apply RRTStar_replan_cut_off ]; exact Hcut.
Qed.

(** *** New obstacles *)

Lemma handle_new_obstacles_kept {B} (f : robot_t -> B) fuel new_obstacles :
  beside_tree f -> (forall g r, f (set_planned_path g r) = f r) ->
  kept f (the_handle_new_obstacles fuel new_obstacles).
Proof.
  intros Htree Hplan r. unfold handle_new_obstacles. rewrite run_bind_get.
  destruct (negb (built_tree (tree r))); [ apply do_first_plan_kept; assumption | ].
  destruct (obstacles_is_empty new_obstacles); [ reflexivity | ].
  destruct (planned_path r) as [ | node rest]; [ reflexivity | ].
  destruct (path_intersects _ _); [ apply replan_kept; assumption | reflexivity ].
Qed.

(** [handle_new_obstacles] on a [FARRTStar2]. Before the tree is built it
    is [do_first_plan], whatever the obstacles. With the tree built it
    returns exactly when there is nothing to do, that is, when the new
    obstacles are empty, or no plan is left, or the line from the robot
    through the plan misses them, and then the planner is as before; when
    the line is hit, the call goes to [replan], never returns, and leaves
    the planner without a plan. *)
Theorem handle_new_obstacles_cases (fuel : nat) (new_obstacles : obstacles_t)
    (r : robot_t) :
  (built_tree (tree r) = false ->
   the_handle_new_obstacles fuel new_obstacles r = do_first_plan fuel r)
  /\ (built_tree (tree r) = true ->
      (nothing_to_do new_obstacles r ->
       the_handle_new_obstacles fuel new_obstacles r = (r, Ok tt))
      /\ (~ nothing_to_do new_obstacles r ->
          returned (the_handle_new_obstacles fuel new_obstacles r) = None
          /\ planned_path (the_handle_new_obstacles fuel new_obstacles r).1 = [])).
Proof.
  unfold nothing_to_do, handle_new_obstacles. rewrite run_bind_get. split.
  - intros ->. reflexivity.
  - intros ->. simpl negb. cbv iota.
    destruct (obstacles_is_empty new_obstacles).
    { split; [ reflexivity | ]. intros Hnot. exfalso. apply Hnot. left. reflexivity. }
    destruct (planned_path r) as [ | node rest] eqn:Hplan.
    { split; [ reflexivity | ]. intros Hnot. exfalso. apply Hnot. right. left. reflexivity. }
    destruct (path_intersects _ _) eqn:Hhit.
    + split.
      * intros [Hempty | [Hnil | Hmiss]]; discriminate.
      * intros _. apply replan_stuck.
    + split; [ reflexivity | ]. intros Hnot. exfalso. apply Hnot. right. right. reflexivity.
Qed.

(** *** Observing and running *)

Lemma observe_world_kept {B} (f : robot_t -> B) fuel :
  beside_tree f -> (forall g r, f (set_planned_path g r) = f r) ->
  kept f (the_observe_world fuel).
Proof.
  intros Htree Hplan r. unfold observe_world. rewrite run_bind_get.
  destruct (world_make_observations _ _) as [observations | ]; [ | reflexivity ].
  refine (kept_bind f _ _ _ _ r); [ apply kept_on_tree, Htree | ]. intros _.
  apply kept_bind.
  - destruct (negb _); [ apply handle_new_obstacles_kept; assumption | apply kept_ret ].
  - intros _. destruct (negb _); [ | apply kept_ret ].
    unfold handle_deleted_obstacles. apply kept_invoke_base, kept_ret.
Qed.

Lemma step_through_plan_run (r : robot_t) :
  step_through_plan r
  = match planned_path r with
    | [] => (r, Ok (curr_node r))
    | node :: rest => (set_planned_path (fun _ => rest) r, Ok node)
    end.
Proof. unfold step_through_plan. rewrite run_bind_get. destruct (planned_path r); reflexivity. Qed.

Lemma run_loop_at_goal fuel step (r : robot_t) :
  same_as (curr_node r) (x_goal r) = true -> the_run_loop fuel step r = (r, Ok tt).
Proof. intros Hat. destruct fuel; simpl; rewrite run_bind_get, Hat; reflexivity. Qed.

Lemma run_loop_away_from_goal fuel step (r : robot_t) :
  same_as (curr_node r) (x_goal r) = false -> returned (the_run_loop fuel step r) = None.
Proof.
  intros Haway. destruct fuel; simpl; rewrite run_bind_get, Haway; [ reflexivity | ].
  simpl negb. cbv iota.
  apply run_returned_bind_None. intros next_node r1.
  apply run_returned_bind_None. intros _ r2.
  apply run_returned_bind_None. intros _ r3.
  rewrite (run_bind_Raise _ _ _ _ _ (update_plan_run r3)). reflexivity.
Qed.

(** [run] never brings the robot to its goal. It returns only for a robot
    that starts at the goal, and then it has made the one opening
    observation and not moved. For a robot elsewhere, the first step whose
    observation returns ends in the [TypeError] of [update_plan], which
    receives [self] and declares no parameter; and a world that answers
    the opening observation with [None] ends [run] in a [TypeError] with
    the planner as it was. *)
Theorem run_returns_only_at_goal (fuel : nat) (r : robot_t) :
  (forall r', the_run fuel r = (r', Ok tt) ->
     same_as (curr_node r) (x_goal r) = true
     /\ the_observe_world fuel r = (r', Ok tt)
     /\ curr_node r' = curr_node r)
  /\ (forall r1 r2 r3 next_node fuel',
        fuel = S fuel' ->
        same_as (curr_node r) (x_goal r) = false ->
        the_observe_world fuel r = (r1, Ok tt) ->
        step_through_plan r1 = (r2, Ok next_node) ->
        the_observe_world fuel' (set_curr_node next_node r2) = (r3, Ok tt) ->
        the_run fuel r = (r3, Raise (TypeError "update_plan")))
  /\ (world_make_observations (curr_node r) (vision_radius r) = None ->
      the_run fuel r = (r, Raise (TypeError "__sub__"))).
Proof.
  assert (Hnode : forall fuel r, curr_node (the_observe_world fuel r).1 = curr_node r).
  { intros fuel0 r0.
    apply (observe_world_kept curr_node fuel0 beside_tree_curr_node). reflexivity. }
  assert (Hgoal : forall fuel r, x_goal (the_observe_world fuel r).1 = x_goal r).
  { intros fuel0 r0.
    apply (observe_world_kept x_goal fuel0 beside_tree_x_goal). reflexivity. }
  split; [ | split ].
  - intros r' Hrun. unfold run in Hrun.
    apply run_bind_inv_Ok in Hrun as (r1 & [] & Hobs & Hloop).
    pose proof (Hnode fuel r) as Hn. pose proof (Hgoal fuel r) as Hg.
    rewrite Hobs in Hn, Hg. simpl in Hn, Hg.
    destruct (same_as (curr_node r) (x_goal r)) eqn:Hat.
    + rewrite run_loop_at_goal in Hloop by (rewrite Hn, Hg; exact Hat).
      injection Hloop as <-. auto.
    + pose proof (run_loop_away_from_goal fuel 0 r1) as Haway.
      rewrite Hn, Hg in Haway. specialize (Haway Hat).
      rewrite Hloop in Haway. discriminate.
  - intros r1 r2 r3 next_node fuel' -> Haway Hobs Hstep Hobs'.
    unfold run. rewrite (run_bind_Ok _ _ _ _ _ Hobs).
    pose proof (Hnode (S fuel') r) as Hn. pose proof (Hgoal (S fuel') r) as Hg.
    rewrite Hobs in Hn, Hg. simpl in Hn, Hg.
    cbn [run_loop]. rewrite run_bind_get, Hn, Hg, Haway. cbn [negb].
    rewrite (run_bind_Ok _ _ _ _ _ Hstep), run_bind_modify.
    rewrite (run_bind_Ok _ _ _ _ _ Hobs').
    rewrite (run_bind_Raise _ _ _ _ _ (update_plan_run r3)). reflexivity.
  - intros Hnone. unfold run.
    apply run_bind_Raise. unfold observe_world. rewrite run_bind_get, Hnone. reflexivity.
Qed.

(** *** Setting up *)

(** [FARRTStar2.setup_planner] never returns: it ends in
    [super().setup_planner()], and neither [RRTStar] nor
    [PartiallyObservablePlanner] has a method of that name. With no
    obstacle detected the [AttributeError] is all that happens. *)
Theorem setup_planner_never_returns (s : tree_t) :
  returned (setup_planner gaussian_filter np_gradient s) = None
  /\ above_FARRTStar2 "setup_planner" = None
  /\ (obstacles_is_empty (detected_obstacles s) = true ->
      setup_planner gaussian_filter np_gradient s
      = (s, Raise (AttributeError "setup_planner"))).
Proof.
  split; [ | split ].
  - unfold setup_planner. rewrite bind_get.
    apply run_returned_bind_None. intros _ s'. reflexivity.
  - reflexivity.
  - intros Hempty. unfold setup_planner. rewrite bind_get, Hempty. reflexivity.
Qed.

End RobotFacts.

(** * Examples on the lattice world *)

Local Open Scope string_scope.
#[local] Existing Instance Lattice.world.
#[local] Existing Instance Lattice.nodes.

(** ** The reference array routines on constant arrays *)

Lemma central_constant {A} (sub : A -> A -> A) (half : A -> A) (zero : A -> Prop) v :
  zero (sub v v) -> (forall x, zero x -> zero (half x)) ->
  forall n, Forall zero (Reference.central sub half v v (replicate n v)).
Proof.
  intros Hsub Hhalf. induction n as [ | n IH]; simpl.
  - constructor; [ exact Hsub | constructor ].
  - constructor; [ apply Hhalf, Hsub | exact IH ].
Qed.

Lemma differences_constant {A} (sub : A -> A -> A) (half : A -> A) (zero : A -> Prop) v :
  zero (sub v v) -> (forall x, zero x -> zero (half x)) ->
  forall n d, Reference.differences sub half (replicate n v) = Some d -> Forall zero d.
Proof.
  intros Hsub Hhalf n d. destruct n as [ | [ | n]]; simpl; try discriminate.
  intros [= <-]. constructor; [ exact Hsub | ].
  apply central_constant; assumption.
Qed.

Lemma halve_zero v : (v == 0)%Q -> (Reference.halve v == 0)%Q.
Proof. intros Hv. unfold Reference.halve. rewrite Hv. reflexivity. Qed.

Lemma row_difference_zero n v :
  Forall (fun x => (x == 0)%Q) (zip_with Qminus (replicate n v) (replicate n v)).
Proof.
  induction n as [ | n IH]; simpl; constructor; [ | exact IH ].
  unfold Qminus. apply Qplus_opp_r.
Qed.

Lemma reference_gradient_constant shape v dy dx :
  Reference.np_gradient (np_full shape v) = Returns (dy, dx) ->
  array_zero dy /\ array_zero dx.
Proof.
  unfold Reference.np_gradient, np_full.
  destruct (Reference.differences (zip_with Qminus) (fmap Reference.halve) _) as [dy' | ] eqn:Hdy;
    [ | discriminate ].
  destruct (mapM (Reference.differences Qminus Reference.halve) _) as [dx' | ] eqn:Hdx; [ | discriminate ].
  intros [= <- <-]. split.
  - eapply differences_constant; [ | | exact Hdy ].
    + apply row_difference_zero.
    + intros row Hrow. apply Forall_fmap.
      eapply Forall_impl; [ exact Hrow | ].
      intros x Hx. apply halve_zero, Hx.
  - apply mapM_Some in Hdx. unfold array_zero.
    apply Forall_forall. intros drow Hdrow.
    apply list_elem_of_lookup in Hdrow as [i Hi].
    destruct (Forall2_lookup_r _ _ _ _ _ Hdx Hi) as (row & Hrow & Hdiff).
    apply lookup_replicate in Hrow as [-> _].
    eapply differences_constant; [ | | exact Hdiff ].
    + unfold Qminus. apply Qplus_opp_r.
    + intros x Hx. apply halve_zero, Hx.
Qed.

Lemma no_blur_constant shape v sigma :
  exists v', Reference.no_blur (np_full shape v) sigma = np_full shape v'.
Proof. exists v. reflexivity. Qed.


(** *** C1, C7: severing a leaf *)

Lemma new_planner_invariant shape start goal covered n :
  child_parent_invariant (Lattice.new_planner shape start goal covered n).
Proof.
  intros u v. unfold children_of. simpl. rewrite !lookup_empty. simpl.
  split; [ intros Hv; apply elem_of_empty in Hv; tauto | discriminate ].
Qed.

(** Severing the leaf [(20, 50)]: [set_child_parent(child, parent=None)]
    drops it from its parent's children, finds no entry for it in
    [parent_to_children_map], skips the [del] and raises in [pt2tuple(None)];
    the leaf keeps its parent entry and stays in the vertex set. *)
Lemma sever_leaf_keeps_its_parent :
  let s := (sever_connections (20, 50)%Z root_and_leaf).1 in
  child_to_parent_map s !! (20, 50)%Z = Some (10, 50)%Z
  /\ (20, 50)%Z ∈ rrt_vertices s
  /\ cost_to_reach s !! (20, 50)%Z = Some (Fin 10).
Proof.
  cbv zeta. split; [ vm_compute; reflexivity | ].
  split; [ | vm_compute; reflexivity ].
  apply (bool_decide_unpack _). vm_compute. exact I.
Qed.


(** *** C3: the queue *)


(** A queue written from outside the planner, with a stale entry at the
    head and a live entry behind it: the loop body of [popPQ] rebinds
    [point] to the whole next entry, which is no key of [key_map], so the
    loop drains the heap and ends in [queue.Empty], and the live point
    stays in [key_map]. No call of the planner's own methods leaves such a
    queue. *)
Lemma popPQ_loses_the_live_entry :
  rewiringPQ stale_then_live = [(Fin 5, (40, 50)%Z); (Fin 7, (50, 50)%Z)]
  /\ queue_key_map stale_then_live !! (40, 50)%Z = None
  /\ queue_key_map stale_then_live !! (50, 50)%Z = Some (Fin 7)
  /\ (popPQ stale_then_live).2 = Raise QueueEmpty
  /\ rewiringPQ (popPQ stale_then_live).1 = []
  /\ queue_key_map (popPQ stale_then_live).1 !! (50, 50)%Z = Some (Fin 7).
Proof. vm_compute. repeat split. Qed.

(** *** C5: the threshold argument *)

(** C5 (code defect). At the goal itself [reached_goal] answers [True]
    for every threshold passed, the 0 of the rewiring loop included, where
    a distance of 0 is below no threshold that is 0 or less: the
    comparison reads [self.goal_reached_thresh], which is 1. *)
Theorem reached_goal_ignores_threshold :
  (forall threshold,
     returned (reached_goal (12, 50)%Z (Some (12, 50)%Z) (Some threshold) open_line)
     = Some true)
  /\ distance (12, 50)%Z (12, 50)%Z = 0%Q
  /\ Qltb (distance (12, 50)%Z (12, 50)%Z) 0 = false
  /\ goal_reached_thresh open_line = 1%Q.
Proof.
  split; [ intros threshold; rewrite reached_goal_reads_field | ]; vm_compute;
    repeat split.
Qed.

(** *** C4: the buffer radius past the midpoint *)

(** C4 counterexample. A first build with [iters = 1], the robot 20 away
    from the root. The first pass samples the goal, grows the tree to
    [(13, 50)] and records nothing. The second pass is past the midpoint
    with nothing recorded; it draws the centre [(50, 50)], which lies
    within half of [obstacle_avoidance_radius] of the obstacle on
    [(51, 50)]. With the halved radius for [buffer_radius] the sample
    would be rejected, and every later one, so that [sample_free] would
    not return; the pass of the code is [sample_free] with radius 0,
    accepts the sample and grows the tree towards it, to [(16, 50)]. *)
Lemma first_build_drops_the_buffer :
  built_tree near_miss = false
  /\ build_step (Externals0 := goal_then_centre) 1 (30, 50)%Z 0 0 None Inf near_miss_rooted
     = (near_miss_second_pass, Ok (false, None, Inf))
  /\ build_guard near_miss_second_pass 1 None = true
  /\ (inject_Z (iters near_miss_second_pass) / 2 < inject_Z 1)%Q
  /\ intersects_buffer (Externals := goal_then_centre)
       (detected_obstacles near_miss_second_pass) (50, 50)%Z
       (obstacle_avoidance_radius near_miss_second_pass / 2) = true
  /\ (forall fuel,
        (sample_free (Externals0 := goal_then_centre) fuel (30, 50)%Z
           (Some (obstacle_avoidance_radius near_miss_second_pass / 2)%Q)
           near_miss_second_pass).2 = OutOfFuel)
  /\ returned (sample_free (Externals0 := goal_then_centre) 1 (30, 50)%Z (Some 0%Q)
                 near_miss_second_pass) = Some (50, 50)%Z
  /\ (build_step (Externals0 := goal_then_centre) 1 (30, 50)%Z 0 1 None Inf
        near_miss_second_pass).2 = Ok (false, None, Inf)
  /\ (16, 50)%Z ∈ rrt_vertices
                    (build_step (Externals0 := goal_then_centre) 1 (30, 50)%Z 0 1 None Inf
                       near_miss_second_pass).1.
Proof.
  split; [ reflexivity | ].
  split.
  { unfold near_miss_second_pass.
    assert (Hok : (build_step (Externals0 := goal_then_centre) 1 (30, 50)%Z 0 0 None Inf
                     near_miss_rooted).2 = Ok (false, None, Inf)) by (vm_compute; reflexivity).
    rewrite <- Hok. apply surjective_pairing. }
  split; [ reflexivity | ]. split; [ reflexivity | ]. split; [ vm_compute; reflexivity | ].
  split.
  { intros fuel. apply (sample_free_blocked_from (Externals0 := goal_then_centre)).
    - vm_compute. reflexivity.
    - intros n m Hn Hm.
      assert (Hdraws : random_draws near_miss_second_pass = 1%nat) by (vm_compute; reflexivity).
      rewrite Hdraws in Hn, Hm.
      destruct n as [ | n]; [ lia | ]. destruct m as [ | m]; [ lia | ].
      vm_compute. reflexivity. }
  split; [ vm_compute; reflexivity | ]. split; [ vm_compute; reflexivity | ].
  apply (bool_decide_unpack _). vm_compute. exact I.
Qed.

(** The second pass of that build, and the first. *)
Lemma build_step_buffer_radius_witness :
  ((inject_Z (iters near_miss_second_pass) / 2 < inject_Z 1)%Q
   /\ build_step (Externals0 := goal_then_centre) 1 (30, 50)%Z 0 1 None Inf
        near_miss_second_pass
      = (let* x_rand := sample_free (Externals0 := goal_then_centre) 1 (30, 50)%Z
                          (Some 0%Q) in
         extend_tree (Externals0 := goal_then_centre) (30, 50)%Z 0 None Inf x_rand)
          near_miss_second_pass)
  /\ ((inject_Z 0 <= inject_Z (iters near_miss_rooted) / 2)%Q
      /\ build_step (Externals0 := goal_then_centre) 1 (30, 50)%Z 0 0 None Inf
           near_miss_rooted
         = (let* x_rand := sample_free (Externals0 := goal_then_centre) 1 (30, 50)%Z
                             (Some (obstacle_avoidance_radius near_miss_rooted)) in
            extend_tree (Externals0 := goal_then_centre) (30, 50)%Z 0 None Inf x_rand)
             near_miss_rooted).
Proof.
  assert (Hpast : (inject_Z (iters near_miss_second_pass) / 2 < inject_Z 1)%Q) by reflexivity.
  assert (Hearly : (inject_Z 0 <= inject_Z (iters near_miss_rooted) / 2)%Q) by discriminate.
  split.
  - split; [ exact Hpast | ].
    exact (proj1 (build_step_buffer_radius (Externals0 := goal_then_centre) 1 (30, 50)%Z 0 1 None Inf
                    near_miss_second_pass) Hpast eq_refl).
  - split; [ exact Hearly | ].
    exact (proj2 (build_step_buffer_radius (Externals0 := goal_then_centre) 1 (30, 50)%Z 0 0 None Inf
                    near_miss_rooted) (or_introl Hearly)).
Defined.

(** *** C8: a robot that obstacles surround *)

Lemma cornered_cut_off tape :
  goal_cut_off (Externals0 := Lattice.drawn tape) (12, 50)%Z (tree cornered).
Proof.
  intros [a1 a2] [x1 x2] Hnear.
  apply Qltb_lt in Hnear.
  change (inject_Z (Z.abs (x1 - 12) + Z.abs (x2 - 50)) < inject_Z 1)%Q in Hnear.
  rewrite <- Zlt_Qlt in Hnear.
  assert (x1 = 12%Z) as -> by lia. assert (x2 = 50%Z) as -> by lia.
  change (existsb (Lattice.in_box (a1, a2) (12, 50)%Z)
            [ (11, 49); (11, 50); (11, 51); (12, 49); (12, 50); (12, 51);
              (13, 49); (13, 50); (13, 51) ]%Z = true).
  apply existsb_exists. exists (12, 50)%Z. split.
  - simpl. tauto.
  - unfold Lattice.in_box. simpl. rewrite !andb_true_iff, !Z.leb_le. lia.
Qed.

Lemma cornered_step fuel i n :
  build_step fuel (12, 50)%Z 0%Q i None Inf (set_random_draws (fun _ => n) cornered_rooted)
  = (set_random_draws (fun _ => S n) cornered_rooted, Ok (false, None, Inf)).
Proof. vm_compute. reflexivity. Qed.

(** C8 counterexample. The robot has its plan when obstacles are detected
    on its cell and around it, so that no edge reaches it any more.
    Whatever the random source gives, [build_rrt_tree] does not return
    from then on, with [iters = 2]; with a source that gives 0 each time it
    goes through any number of passes. [RRTStar.replan] does not return
    either, and the plan it leaves is empty: the previous plan is lost. *)
Lemma build_never_returns_when_cornered :
  iters (tree cornered) = 2%Z
  /\ planned_path cornered = [Lattice.Child (Some (10, 50)%Z) start_node]
  /\ (forall tape fuel,
        returned (build_rrt_tree (Externals0 := Lattice.drawn tape) fuel (10, 50)%Z
                    (12, 50)%Z (Some 0%Q) (tree cornered)) = None)
  /\ (forall fuel,
        (build_rrt_tree fuel (10, 50)%Z (12, 50)%Z (Some 0%Q) (tree cornered)).2 = OutOfFuel)
  /\ (forall tape fuel new_obstacles,
        returned (RRTStar_replan (Externals0 := Lattice.drawn tape) fuel new_obstacles
                    cornered) = None
        /\ planned_path (RRTStar_replan (Externals0 := Lattice.drawn tape) fuel
                           new_obstacles cornered).1 = []).
Proof.
  split; [ reflexivity | ]. split; [ vm_compute; reflexivity | ].
  split; [ | split ].
  - intros tape fuel. apply build_rrt_tree_cut_off. apply cornered_cut_off.
  - intros fuel. rewrite build_rrt_tree_unfold. fold cornered_rooted.
    assert (Hloop : (build_loop fuel (12, 50)%Z 0%Q 0 None Inf cornered_rooted).2 = OutOfFuel).
    { rewrite <- (set_random_draws_same cornered_rooted).
      apply (build_loop_stuck
               (fun s => exists n, s = set_random_draws (fun _ => n) cornered_rooted)).
      - intros fuel' i s [n ->]. eexists. split; [ apply cornered_step | eauto ].
      - eauto. }
    unfold bind.
    destruct (build_loop fuel (12, 50)%Z _ 0 None Inf cornered_rooted) as [s1 o].
    simpl in Hloop. subst o. reflexivity.
  - intros tape fuel new_obstacles.
    assert (Hstuck : returned (RRTStar_replan (Externals0 := Lattice.drawn tape) fuel
                                 new_obstacles cornered) = None)
      by (apply RRTStar_replan_cut_off; apply cornered_cut_off).
    split; [ exact Hstuck | ].
    apply RRTStar_replan_plan_cleared. exact Hstuck.
Qed.

(** On the open line the build returns after its two passes with the
    robot's position recorded; around the cornered robot it does not. *)
Lemma loops_run_without_a_cap_witness :
  returned (build_loop 5 (12, 50)%Z 0%Q 0 None Inf (add_start_vertex (10, 50)%Z open_line).1)
  = Some (2%Z, Some (12, 50)%Z, Fin 2)
  /\ (Some (12, 50)%Z <> None
      /\ (built_tree (add_start_vertex (10, 50)%Z open_line).1 = true
          \/ (iters (add_start_vertex (10, 50)%Z open_line).1 <= 2)%Z))
  /\ goal_cut_off (12, 50)%Z (tree cornered)
  /\ (forall fuel,
        returned (build_rrt_tree fuel (10, 50)%Z (12, 50)%Z (Some 0%Q) (tree cornered))
        = None).
Proof.
  assert (Hrun : returned (build_loop 5 (12, 50)%Z 0%Q 0 None Inf
                             (add_start_vertex (10, 50)%Z open_line).1)
                 = Some (2%Z, Some (12, 50)%Z, Fin 2)) by (vm_compute; reflexivity).
  assert (Hcut : goal_cut_off (12, 50)%Z (tree cornered))
    by exact (cornered_cut_off (fun _ => 0%Q)).
  split; [ exact Hrun | ].
  split.
  - exact (proj1 (loops_run_without_a_cap (Surroundings0 := empty_world)
                    Reference.no_blur Reference.np_gradient Lattice.x_of Lattice.y_of
                    Lattice.no_field_force (1 # 2) (1 # 5) Lattice.first_of
                    Lattice.taxicab_norm)
             5 (12, 50)%Z 0%Q (add_start_vertex (10, 50)%Z open_line).1 2%Z
             (Some (12, 50)%Z) (Fin 2) Hrun).
  - split; [ exact Hcut | ].
    intros fuel.
    exact (proj1 (proj2 (proj2 (proj2 (proj2
             (loops_run_without_a_cap (Surroundings0 := empty_world)
                Reference.no_blur Reference.np_gradient Lattice.x_of Lattice.y_of
                Lattice.no_field_force (1 # 2) (1 # 5) Lattice.first_of
                Lattice.taxicab_norm)))))
             fuel (10, 50)%Z (12, 50)%Z (Some 0%Q) (tree cornered) Hcut).
Defined.

(** *** C9: an observation that touches an obstacle *)

(** C9 (code defect). From [(5, 5)] with radius 10 the vision disc
    touches the obstacle in the one point [(15, 5)]: the intersection is
    that point, neither [isinstance] test holds, and [make_observations]
    returns [None] instead of a [MultiPolygon]; so it does whenever the
    intersection is anything but a polygon or a multi-polygon. With the
    obstacle out of sight the empty polygon is wrapped, and with the
    obstacle in sight its piece is, as the code intends. *)
Theorem make_observations_returns_None :
  (forall buffer intersection w position radius,
     polygonal (intersection (obstacles w) (buffer position radius)) = false ->
     make_observations buffer intersection w position radius = None)
  /\ (exists p, clip (obstacles wall_ahead) (diamond_buffer (5, 5)%Q 10%Q) = GeomPoint p
                /\ (p.1 == 15)%Q /\ (p.2 == 5)%Q)
  /\ make_observations diamond_buffer clip wall_ahead (5, 5)%Q 10%Q = None
  /\ make_observations diamond_buffer clip wall_ahead (50, 50)%Q 10%Q
     = Some (GeomMultiPolygon [empty_polygon])
  /\ (exists piece,
        make_observations diamond_buffer clip wall_ahead (10, 5)%Q 10%Q
        = Some (GeomMultiPolygon [piece])
        /\ contains piece 16 5 = true).
Proof.
  split; [ | split; [ | split; [ | split ] ] ].
  - intros buffer intersection w position radius Hkind.
    pose proof (make_observations_cases buffer intersection w position radius) as Hcases.
    rewrite Hkind in Hcases. exact Hcases.
  - eexists. split; [ vm_compute; reflexivity | ]. split; reflexivity.
  - vm_compute. reflexivity.
  - vm_compute. reflexivity.
  - eexists. split; [ vm_compute; reflexivity | ]. vm_compute. reflexivity.
Qed.

(** *** C6, C10: the potential field *)

Lemma unit_cell_fits : polygon_fits (3, 3)%Z unit_cell.
Proof.
  intros x y Hc. simpl in Hc.
  apply andb_true_iff in Hc as [Hx Hy].
  apply Z.eqb_eq in Hx, Hy. subst x y.
  vm_compute. repeat split; discriminate.
Qed.

(** C6 counterexample. For the one obstacle around [(1, 1)] on a 3 by 3
    grid the array handed to the blur is [mask * 5], 0 on the obstacle and
    5 around it, not [(1 - mask) * 5]; with the reference gradient and no
    blur, the cell left of the obstacle gets the x-component -5 (away from
    the obstacle) where the claimed array would give +5. *)
Lemma blur_input_is_not_inverted :
  blur_input (3, 3)%Z [unit_cell]
  = Ok [[5; 5; 5]; [5; 0; 5]; [5; 5; 5]]%Q
  /\ claimed_blur_input (3, 3)%Z [unit_cell]
     = Ok [[0; 0; 0]; [0; 5; 0]; [0; 0; 0]]%Q
  /\ potential_field
       (update_potential_field Reference.no_blur Reference.np_gradient
          [unit_cell] small_grid).1 !! 1%nat
     = Some [((-5)%Q, 0 # 2); (0 # 2, 0 # 2); (5%Q, 0 # 2)].
Proof. vm_compute. repeat split. Qed.

Lemma update_potential_field_pipeline_witness :
  Forall (polygon_fits (world_dims small_grid)) [unit_cell]
  /\ exists mask dy dx,
       cell mask 1 1 = Some 0%Q
       /\ cell mask 0 1 = Some 1%Q
       /\ blur_input (3, 3)%Z [unit_cell] = Ok (np_scale mask 5)
       /\ Reference.np_gradient (Reference.no_blur (np_scale mask 5) 3) = Returns (dy, dx)
       /\ update_potential_field Reference.no_blur Reference.np_gradient
            [unit_cell] small_grid
          = (set_potential_field
               (fun field => zip_with (zip_with add_to_component1)
                               (zip_with (zip_with add_to_component0) field dx) dy)
               small_grid,
             Ok tt).
Proof.
  assert (Hfit : Forall (polygon_fits (world_dims small_grid)) [unit_cell])
    by (constructor; [ exact unit_cell_fits | constructor ]).
  split; [ exact Hfit | ].
  destruct (update_potential_field_pipeline (vertex_t := Z * Z)
              (obstacles_t := list (Z * Z))
              Reference.no_blur Reference.np_gradient small_grid [unit_cell] Hfit)
    as (mask & _ & Hcells & Hblur & Hrun).
  assert (Hscaled : np_scale mask 5 = [[5; 5; 5]; [5; 0; 5]; [5; 5; 5]]%Q).
  { assert (Hin : blur_input (world_dims small_grid) [unit_cell]
                  = Ok [[5; 5; 5]; [5; 0; 5]; [5; 5; 5]]%Q) by (vm_compute; reflexivity).
    rewrite Hin in Hblur. injection Hblur as <-. reflexivity. }
  exists mask. do 2 eexists.
  split; [ apply (Hcells 1%Z 1%Z); vm_compute; repeat split; discriminate | ].
  split; [ apply (Hcells 0%Z 1%Z); vm_compute; repeat split; discriminate | ].
  split; [ exact Hblur | ].
  assert (Hgrad : Reference.np_gradient (Reference.no_blur (np_scale mask 5) 3)
                  = Returns ([[0; (-5); 0]; [0 # 2; 0 # 2; 0 # 2]; [0; 5; 0]],
                             [[0; 0 # 2; 0]; [(-5); 0 # 2; 5]; [0; 0 # 2; 0]])%Q)
    by (rewrite Hscaled; vm_compute; reflexivity).
  split; [ exact Hgrad | ].
  apply (Hrun _ _ Hgrad); vm_compute; reflexivity.
Defined.

Lemma update_potential_field_no_obstacles_witness :
  (forall shape v sigma,
     exists v', Reference.no_blur (np_full shape v) sigma = np_full shape v')
  /\ (forall shape v dy dx,
        Reference.np_gradient (np_full shape v) = Returns (dy, dx) ->
        array_zero dy /\ array_zero dx)
  /\ field_eq
       (potential_field
          (update_potential_field Reference.no_blur Reference.np_gradient [] small_grid).1)
       (potential_field small_grid).
Proof.
  split; [ exact no_blur_constant | ].
  split; [ exact reference_gradient_constant | ].
  apply (update_potential_field_no_obstacles Reference.no_blur Reference.np_gradient
           small_grid no_blur_constant reference_gradient_constant).
Defined.
(** ** Examples for the tree store and the build *)

Lemma root_and_leaf_invariant : child_parent_invariant root_and_leaf.
Proof. apply add_vertex_invariant, add_start_vertex_invariant, new_planner_invariant. Qed.

Lemma rrtstar_keeps_child_parent_invariant_witness :
  child_parent_invariant root_and_leaf
  /\ (forall x, child_parent_invariant (add_start_vertex x root_and_leaf).1)
  /\ (forall pt parent cost, child_parent_invariant (add_vertex pt parent cost root_and_leaf).1)
  /\ (forall pt parent cost allow,
        child_parent_invariant (reassign_parent pt parent cost allow root_and_leaf).1)
  /\ (forall nearby x_min x_new,
        child_parent_invariant (do_rrtstar_rewiring nearby x_min x_new root_and_leaf).1)
  /\ (forall fuel root goal thr,
        child_parent_invariant (build_rrt_tree fuel root goal thr root_and_leaf).1).
Proof.
  split; [ exact root_and_leaf_invariant | ].
  exact (rrtstar_keeps_child_parent_invariant root_and_leaf root_and_leaf_invariant).
Defined.

(** On the open line the build ends after two iterations with the robot's
    own position as [final_pt]. *)
Lemma build_rrt_tree_final_pt_witness :
  returned (build_rrt_tree 5 (10, 50)%Z (12, 50)%Z (Some 0%Q) open_line)
  = Some (Some (12, 50)%Z, Fin 2)
  /\ exists p,
       Some (12, 50)%Z = Some p
       /\ p ∈ rrt_vertices (build_rrt_tree 5 (10, 50)%Z (12, 50)%Z (Some 0%Q) open_line).1
       /\ (distance p (12, 50)%Z < goal_reached_thresh open_line)%Q.
Proof.
  assert (Hrun : returned (build_rrt_tree 5 (10, 50)%Z (12, 50)%Z (Some 0%Q) open_line)
                 = Some (Some (12, 50)%Z, Fin 2)) by (vm_compute; reflexivity).
  split; [ exact Hrun | ].
  exact (build_rrt_tree_final_pt 5 (10, 50)%Z (12, 50)%Z (Some 0%Q) open_line
           (Some (12, 50)%Z) (Fin 2) Hrun).
Defined.

(** The same build with a world object without [getBounds]. *)
Lemma build_rrt_tree_needs_getBounds_witness :
  @getBounds _ _ _ _ Lattice.world_without_bounds = Raises (AttributeError "getBounds")
  /\ returned (@build_rrt_tree _ _ _ _ Lattice.world_without_bounds
                 5 (10, 50)%Z (12, 50)%Z (Some 0%Q) open_line) = None.
Proof.
  split; [ reflexivity | ].
  exact (@build_rrt_tree_needs_getBounds _ _ _ _ Lattice.world_without_bounds
           (AttributeError "getBounds") 5 (10, 50)%Z (12, 50)%Z (Some 0%Q) open_line
           eq_refl).
Defined.

(** ** Examples for sampling and steering *)

(** With every draw 1/2 the sample is the centre of the world, which is
    clear of obstacles on the open line. *)
Lemma sample_free_postcondition_witness :
  @sample_free _ _ _ _ (Lattice.steady (1 # 2)) 3 (12, 50)%Z None open_line
  = (set_random_draws (fun _ => 3) open_line, Ok (50, 50)%Z)
  /\ ((50, 50)%Z = (12, 50)%Z
      \/ @intersects_buffer _ _ _ _ (Lattice.steady (1 # 2))
           (detected_obstacles open_line) (50, 50)%Z
           (default (obstacle_avoidance_radius open_line) None) = false)
  /\ set_random_draws (fun _ => 3) open_line
     = set_random_draws
         (fun _ => random_draws (set_random_draws (fun _ => 3) open_line)) open_line
  /\ random_draws open_line < random_draws (set_random_draws (fun _ => 3) open_line).
Proof.
  assert (Hrun : @sample_free _ _ _ _ (Lattice.steady (1 # 2)) 3 (12, 50)%Z None open_line
                 = (set_random_draws (fun _ => 3) open_line, Ok (50, 50)%Z))
    by (vm_compute; reflexivity).
  split; [ exact Hrun | ].
  exact (@sample_free_postcondition _ _ _ _ (Lattice.steady (1 # 2)) 3 (12, 50)%Z None
           open_line _ _ Hrun).
Defined.

(** With every draw 1/2 and an obstacle on the centre of the world the
    rejection loop never ends. *)
Lemma sample_free_rejects_forever_witness :
  Qltb (@random_tape _ _ _ _ (Lattice.steady (1 # 2)) (random_draws blocked_centre))
       (eps blocked_centre) = false
  /\ (forall n m,
        @intersects_buffer _ _ _ _ (Lattice.steady (1 # 2))
          (detected_obstacles blocked_centre)
          (@Point _ _ _ _ (Lattice.steady (1 # 2))
             (@random_tape _ _ _ _ (Lattice.steady (1 # 2)) n
              * inject_Z (world_dims blocked_centre).1)
             (@random_tape _ _ _ _ (Lattice.steady (1 # 2)) m
              * inject_Z (world_dims blocked_centre).2))
          (default (obstacle_avoidance_radius blocked_centre) None) = true)
  /\ (@sample_free _ _ _ _ (Lattice.steady (1 # 2)) 7 (12, 50)%Z None blocked_centre).2
     = OutOfFuel.
Proof.
  split; [ reflexivity | ]. split; [ intros n m; reflexivity | ].
  apply (@sample_free_rejects_forever _ _ _ _ (Lattice.steady (1 # 2)) 7 (12, 50)%Z None
           blocked_centre); [ reflexivity | intros n m; reflexivity ].
Defined.

(** A sample ten cells away is approached by three cells, within the
    steer distance 10/3. *)
Lemma steer_step_bounded_witness :
  (0 <= steer_distance open_line)%Q
  /\ (0 <= distance (10, 50)%Z (20, 50)%Z)%Q
  /\ exists x_new,
       steer (10, 50)%Z (20, 50)%Z open_line = (open_line, Ok x_new)
       /\ (distance (10, 50)%Z x_new <= steer_distance open_line)%Q
       /\ ((distance (10, 50)%Z (20, 50)%Z == 0)%Q -> x_new = (20, 50)%Z)
       /\ ((0 < distance (10, 50)%Z (20, 50)%Z)%Q ->
           (distance (10, 50)%Z (20, 50)%Z <= steer_distance open_line)%Q ->
           x_new = interpolate (10, 50)%Z (20, 50)%Z 1).
Proof.
  split; [ discriminate | ]. split; [ discriminate | ].
  apply (steer_step_bounded open_line (10, 50)%Z (20, 50)%Z); vm_compute; discriminate.
Defined.

(** ** Examples for the costs *)

(** Towards [(12, 51)] the leaf [(12, 50)] at cost 2 beats the nearest
    vertex [(11, 51)] at cost 5. *)
Lemma get_min_cost_point_minimal_witness :
  get_min_cost_point [(12, 50)%Z; (11, 51)%Z] (11, 51)%Z (12, 51)%Z two_leaves
  = (two_leaves, Ok ((12, 50)%Z, Fin 3))
  /\ two_leaves = two_leaves
  /\ cost_through two_leaves (12, 50)%Z (12, 51)%Z = Some (Fin 3)
  /\ ((12, 50)%Z = (11, 51)%Z
      \/ ((12, 50)%Z ∈ [(12, 50)%Z; (11, 51)%Z]
          /\ intersects_edge (detected_obstacles two_leaves) (12, 50)%Z (12, 51)%Z = false))
  /\ (forall q cq,
        q = (11, 51)%Z
        \/ (q ∈ [(12, 50)%Z; (11, 51)%Z]
            /\ intersects_edge (detected_obstacles two_leaves) q (12, 51)%Z = false) ->
        cost_through two_leaves q (12, 51)%Z = Some cq ->
        pyfloat_ltb cq (Fin 3) = false).
Proof.
  assert (Hrun : get_min_cost_point [(12, 50)%Z; (11, 51)%Z] (11, 51)%Z (12, 51)%Z two_leaves
                 = (two_leaves, Ok ((12, 50)%Z, Fin 3))) by (vm_compute; reflexivity).
  split; [ exact Hrun | ].
  exact (get_min_cost_point_minimal _ _ _ _ _ _ _ Hrun).
Defined.

(** Rewiring through the new vertex [(11, 50)] lowers the cost of the leaf
    [(12, 50)] from 5 to 2. *)
Lemma do_rrtstar_rewiring_lowers_costs_witness :
  cost_to_reach costly_leaf !! (12, 50)%Z = Some (Fin 5)
  /\ cost_to_reach
       (do_rrtstar_rewiring [(12, 50)%Z] (10, 50)%Z (11, 50)%Z costly_leaf).1 !! (12, 50)%Z
     = Some (Fin 2)
  /\ exists c',
       cost_to_reach
         (do_rrtstar_rewiring [(12, 50)%Z] (10, 50)%Z (11, 50)%Z costly_leaf).1 !! (12, 50)%Z
       = Some c'
       /\ pyfloat_ltb (Fin 5) c' = false.
Proof.
  assert (Hc : cost_to_reach costly_leaf !! (12, 50)%Z = Some (Fin 5))
    by (vm_compute; reflexivity).
  split; [ exact Hc | ]. split; [ vm_compute; reflexivity | ].
  exact (do_rrtstar_rewiring_lowers_costs [(12, 50)%Z] (10, 50)%Z (11, 50)%Z costly_leaf
           (12, 50)%Z (Fin 5) Hc).
Defined.

(** ** An obstacle beyond the grid *)

Lemma update_potential_field_out_of_range_witness :
  edge_cell ∈ [edge_cell]
  /\ in_bounding_box edge_cell 3 1
  /\ contains edge_cell 3 1 = true
  /\ ~ (valid_index (world_dims small_grid).1 1 /\ valid_index (world_dims small_grid).2 3)
  /\ update_potential_field Reference.no_blur Reference.np_gradient [edge_cell] small_grid
     = (small_grid, Raise IndexError).
Proof.
  assert (Hin : edge_cell ∈ [edge_cell]) by apply list_elem_of_here.
  assert (Hbox : in_bounding_box edge_cell 3 1)
    by (vm_compute; repeat split; discriminate).
  assert (Hbad : ~ (valid_index (world_dims small_grid).1 1
                    /\ valid_index (world_dims small_grid).2 3))
    by (unfold valid_index; simpl; lia).
  split; [ exact Hin | ]. split; [ exact Hbox | ]. split; [ reflexivity | ].
  split; [ exact Hbad | ].
  exact (update_potential_field_out_of_range (vertex_t := Z * Z)
           (obstacles_t := list (Z * Z)) Reference.no_blur Reference.np_gradient
           small_grid [edge_cell] edge_cell 3 1 Hin Hbox eq_refl Hbad).
Defined.
(** ** Examples for the robot *)

(** An obstacle on the leaf puts the leaf in conflict, and the severing
    does not return; with nothing detected it returns and changes nothing. *)
Lemma do_tree_severing_cases_witness :
  conflicting (Surroundings0 := empty_world) leaf_hit [] <> ∅
  /\ returned (do_tree_severing (Surroundings0 := empty_world) 5 [] leaf_hit) = None
  /\ conflicting (Surroundings0 := empty_world) root_and_leaf [] = ∅
  /\ do_tree_severing (Surroundings0 := empty_world) 5 [] root_and_leaf
     = (root_and_leaf, Ok (∅, ∅, ∅)).
Proof.
  assert (Hhit : conflicting (Surroundings0 := empty_world) leaf_hit [] <> ∅).
  { assert (Hin : (20, 50)%Z ∈ conflicting (Surroundings0 := empty_world) leaf_hit [])
      by (apply (bool_decide_unpack _); vm_compute; exact I).
    intros Hnone. rewrite Hnone in Hin. exact (not_elem_of_empty _ Hin). }
  assert (Hfree : conflicting (Surroundings0 := empty_world) root_and_leaf [] = ∅)
    by (vm_compute; reflexivity).
  split; [ exact Hhit | ].
  split; [ exact (proj2 (do_tree_severing_cases (Surroundings0 := empty_world)
                           5 [] leaf_hit) Hhit) | ].
  split; [ exact Hfree | ].
  exact (proj1 (do_tree_severing_cases (Surroundings0 := empty_world)
                  5 [] root_and_leaf) Hfree).
Defined.

(** On the open line the first plan is the one node at the goal, with the
    robot's position for its parent. *)
Lemma do_first_plan_result_witness :
  do_first_plan 5 waiting = (planned, Ok tt)
  /\ planned_path planned = [Lattice.Child (Some (10, 50)%Z) start_node]
  /\ built_tree (tree planned) = true
  /\ exists p ps,
       p ∈ rrt_vertices (tree planned)
       /\ Qltb (distance p (curr_pos (tree waiting))) (goal_reached_thresh (tree waiting))
          = true
       /\ parent_chain (tree planned) (x_goal_pt (tree planned)) p ps
       /\ length ps <= 5
       /\ planned_path planned = node_path (curr_node waiting) (Some <$> ps).
Proof.
  assert (Hrun : do_first_plan 5 waiting = (planned, Ok tt)).
  { unfold planned.
    assert (Hok : (do_first_plan 5 waiting).2 = Ok tt) by (vm_compute; reflexivity).
    rewrite <- Hok. apply surjective_pairing. }
  split; [ exact Hrun | ]. split; [ vm_compute; reflexivity | ].
  exact (proj1 (do_first_plan_result 5 waiting) planned Hrun).
Defined.

(** With its plan across [(11, 50)], the robot learns of an obstacle
    there: the call does not return, and the plan is gone. *)
Lemma handle_new_obstacles_cases_witness :
  built_tree (tree planned) = true
  /\ ~ nothing_to_do (Surroundings0 := empty_world) [(11, 50)%Z] planned
  /\ returned (lattice_handle_new_obstacles 5 [(11, 50)%Z] planned) = None
  /\ planned_path (lattice_handle_new_obstacles 5 [(11, 50)%Z] planned).1 = [].
Proof.
  assert (Hbuilt : built_tree (tree planned) = true) by (vm_compute; reflexivity).
  assert (Hwork : ~ nothing_to_do (Surroundings0 := empty_world) [(11, 50)%Z] planned).
  { intros [Hempty | [Hnil | Hmiss]].
    - discriminate Hempty.
    - vm_compute in Hnil. discriminate Hnil.
    - vm_compute in Hmiss. discriminate Hmiss. }
  split; [ exact Hbuilt | ]. split; [ exact Hwork | ].
  exact (proj2 (proj2 (handle_new_obstacles_cases (Surroundings0 := empty_world)
                         Reference.no_blur Reference.np_gradient Lattice.x_of Lattice.y_of
                         Lattice.no_field_force (1 # 2) (1 # 5) Lattice.first_of
                         Lattice.taxicab_norm 5 [(11, 50)%Z] planned) Hbuilt) Hwork).
Defined.

(** A robot at its goal returns from [run] where it stands; a robot
    elsewhere ends its first step in the [TypeError] of [update_plan]; and
    in a world that answers [None], [run] ends at the first observation. *)
Lemma run_returns_only_at_goal_witness :
  (lattice_run empty_world 5 arrived = (arrived, Ok tt)
   /\ same_as (Surroundings := empty_world) (curr_node arrived) (x_goal arrived) = true)
  /\ (same_as (Surroundings := empty_world) (curr_node waiting) (x_goal waiting) = false
      /\ lattice_run empty_world 5 waiting = (waiting, Raise (TypeError "update_plan")))
  /\ (world_make_observations (Surroundings := silent_world) (curr_node waiting)
        (vision_radius waiting) = None
      /\ lattice_run silent_world 5 waiting = (waiting, Raise (TypeError "__sub__"))).
Proof.
  assert (Hhome : lattice_run empty_world 5 arrived = (arrived, Ok tt))
    by (vm_compute; reflexivity).
  assert (Haway : same_as (Surroundings := empty_world) (curr_node waiting) (x_goal waiting)
                  = false) by reflexivity.
  assert (Hobs : forall fuel, lattice_observe_world empty_world fuel waiting = (waiting, Ok tt))
    by (intros fuel; vm_compute; reflexivity).
  assert (Hnone : world_make_observations (Surroundings := silent_world)
                    (curr_node waiting) (vision_radius waiting) = None) by reflexivity.
  split; [ | split ].
  - split; [ exact Hhome | ].
    exact (proj1 (proj1 (run_returns_only_at_goal (Surroundings0 := empty_world)
                           Reference.no_blur Reference.np_gradient Lattice.x_of Lattice.y_of
                           Lattice.no_field_force (1 # 2) (1 # 5) Lattice.first_of
                           Lattice.taxicab_norm 5 arrived) arrived Hhome)).
  - split; [ exact Haway | ].
    exact (proj1 (proj2 (run_returns_only_at_goal (Surroundings0 := empty_world)
                           Reference.no_blur Reference.np_gradient Lattice.x_of Lattice.y_of
                           Lattice.no_field_force (1 # 2) (1 # 5) Lattice.first_of
                           Lattice.taxicab_norm 5 waiting))
             waiting waiting waiting start_node 4%nat eq_refl Haway (Hobs 5%nat) eq_refl
             (Hobs 4%nat)).
  - split; [ exact Hnone | ].
    exact (proj2 (proj2 (run_returns_only_at_goal (Surroundings0 := silent_world)
                           Reference.no_blur Reference.np_gradient Lattice.x_of Lattice.y_of
                           Lattice.no_field_force (1 # 2) (1 # 5) Lattice.first_of
                           Lattice.taxicab_norm 5 waiting)) Hnone).
Defined.

(** ** An obstacle below the grid *)

(** On a 3 by 3 grid, the cell around [(1, -1)] zeroes row 2 of column 1. *)
Lemma obstacle_mask_wraps_around_witness :
  obstacle_mask (3, 3)%Z [Lattice.cell (1, -1)%Z]
  = Ok [[1; 1; 1]; [1; 1; 1]; [1; 0; 1]]%Q
  /\ mask_of (3, 3)%Z (zeroed_by (3, 3)%Z [Lattice.cell (1, -1)%Z])
       [[1; 1; 1]; [1; 1; 1]; [1; 0; 1]]%Q
  /\ forall P x y,
       P ∈ [Lattice.cell (1, -1)%Z] -> in_bounding_box P x y -> contains P x y = true ->
       valid_index (Z.max 0 3) y /\ valid_index (Z.max 0 3) x
       /\ [[1; 1; 1]; [1; 1; 1]; [1; 0; 1]]%Q !! Z.to_nat (y mod Z.max 0 3)
            ≫= (fun row => row !! Z.to_nat (x mod Z.max 0 3))
          = Some 0%Q.
Proof.
  assert (Hmask : obstacle_mask (3, 3)%Z [Lattice.cell (1, -1)%Z]
                  = Ok [[1; 1; 1]; [1; 1; 1]; [1; 0; 1]]%Q) by (vm_compute; reflexivity).
  split; [ exact Hmask | ].
  exact (obstacle_mask_wraps_around (3, 3)%Z [Lattice.cell (1, -1)%Z] _ Hmask).
Defined.
